(** * Px: a verification development for [px/main.py]

    The development goes through the source file as follows:
    - Python values and string helpers used by the configuration code;
    - ordered dictionaries ([dict]) as the code iterates over them;
    - [parse_cli] and [parse_env];
    - [class State], the setters, the [cfg_*_init] helpers, the precedence
      passes and the actions of [parse_config];
    - the admission check [PoolMixIn.verify_request];
    - the request handler [Proxy.do_curl] / [Proxy.handle_one_request];
    - [run_pool] and [start_worker], then [test] and [parse_config];
    - [reload_proxy] under concurrent callers;
    - [file_url_to_local_path] and [get_logfile]. *)

From Stdlib Require Import ZArith Lia Ascii String List Bool QArith Lqa.
From Stdlib Require DecimalString.
From stdpp Require Import base option list gmap strings.

Local Open Scope string_scope.
Local Open Scope Z_scope.

(** ** Python strings *)

Module PyStr.

(** [s.startswith(p)] *)
Definition startswith (p s : string) : bool := String.prefix p s.

(** [s[n:]] *)
Fixpoint drop (n : nat) (s : string) : string :=
  match n, s with
  | O, _ => s
  | S n', String _ s' => drop n' s'
  | S _, EmptyString => EmptyString
  end.

(** [c in s] for a single character *)
Fixpoint contains_char (c : ascii) (s : string) : bool :=
  match s with
  | EmptyString => false
  | String a s' => if Ascii.eqb a c then true else contains_char c s'
  end.

(** [s.split(c, 1)] when [c in s]: the text before the first [c] and the
    text after it. Without [c] the whole string is the first component. *)
Fixpoint split1 (c : ascii) (s : string) : string * string :=
  match s with
  | EmptyString => (EmptyString, EmptyString)
  | String a s' =>
      if Ascii.eqb a c then (EmptyString, s')
      else let '(l, r) := split1 c s' in (String a l, r)
  end.

(** [s.split(c)]: all the fields separated by [c]. *)
Fixpoint split (c : ascii) (s : string) : list string :=
  match s with
  | EmptyString => [EmptyString]
  | String a s' =>
      if Ascii.eqb a c then EmptyString :: split c s'
      else match split c s' with
           | [] => [String a EmptyString]
           | w :: ws => String a w :: ws
           end
  end.

(** Whitespace as [str.isspace] sees it on ASCII text: TAB, LF, VT, FF, CR,
    the four separators 0x1c-0x1f and the blank. *)
Definition isspace (a : ascii) : bool :=
  let n := nat_of_ascii a in
  ((9 <=? n)%nat && (n <=? 13)%nat) || ((28 <=? n)%nat && (n <=? 32)%nat).

Fixpoint lstrip (s : string) : string :=
  match s with
  | String a s' => if isspace a then lstrip s' else s
  | EmptyString => EmptyString
  end.

(** [rstrip] keeps a character when it is not a blank or when something
    non-blank follows it. *)
Fixpoint rstrip (s : string) : string :=
  match s with
  | EmptyString => EmptyString
  | String a s' =>
      match rstrip s' with
      | EmptyString => if isspace a then EmptyString else String a EmptyString
      | r => String a r
      end
  end.

(** [s.strip()] *)
Definition strip (s : string) : string := rstrip (lstrip s).

(** [sep.join(l)] *)
Fixpoint join (sep : string) (l : list string) : string :=
  match l with
  | [] => EmptyString
  | [x] => x
  | x :: l' => x ++ sep ++ join sep l'
  end.

(** [repr(s)] of a text read as ISO-8859-1, one character per byte (so is
    the request line decoded): the text between single quotes, or between
    double quotes when it holds a single quote and no double quote; the
    backslash and the quote in use are escaped, TAB, LF and CR are written
    [\t], [\n] and [\r], and the other characters that are not printable
    (0x00-0x1f, 0x7f-0xa0, 0xad) as [\xNN]. *)
Definition squote : ascii := ascii_of_nat 39.
Definition dquote : ascii := ascii_of_nat 34.
Definition backslash : ascii := ascii_of_nat 92.

Definition hex_digit (n : nat) : ascii :=
  ascii_of_nat (if (n <? 10)%nat then 48 + n else 87 + n)%nat.

Definition isprintable (a : ascii) : bool :=
  let n := nat_of_ascii a in
  ((32 <=? n)%nat && (n <=? 126)%nat) || ((161 <=? n)%nat && negb (n =? 173)%nat).

Definition repr_char (quote a : ascii) : string :=
  let n := nat_of_ascii a in
  if Ascii.eqb a backslash || Ascii.eqb a quote then String backslash (String a EmptyString)
  else if (n =? 9)%nat then String backslash "t"
  else if (n =? 10)%nat then String backslash "n"
  else if (n =? 13)%nat then String backslash "r"
  else if isprintable a then String a EmptyString
  else String backslash
         (String "x" (String (hex_digit (n / 16)%nat)
                        (String (hex_digit (n mod 16)%nat) EmptyString))).

Fixpoint repr_chars (quote : ascii) (s : string) : string :=
  match s with
  | EmptyString => EmptyString
  | String a s' => repr_char quote a ++ repr_chars quote s'
  end.

Definition repr (s : string) : string :=
  let quote := if contains_char squote s && negb (contains_char dquote s)
               then dquote else squote in
  String quote (repr_chars quote s ++ String quote EmptyString).

(** [str(n)] for an [int]. *)
Definition of_Z (n : Z) : string :=
  DecimalString.NilZero.string_of_int (Z.to_int n).

Definition is_digit (a : ascii) : bool :=
  let n := nat_of_ascii a in (48 <=? n)%nat && (n <=? 57)%nat.

Definition digit_val (a : ascii) : Z := Z.of_nat (nat_of_ascii a) - 48.

(** The digits of a decimal literal as [int()] reads them: one or more
    digits, a single underscore allowed between two digits. [acc] is the
    value read so far, [prev] tells whether the previous character was a
    digit. *)
Fixpoint int_digits (s : string) (acc : Z) (prev : bool) : option Z :=
  match s with
  | EmptyString => if prev then Some acc else None
  | String a s' =>
      if is_digit a then int_digits s' (10 * acc + digit_val a) true
      else if Ascii.eqb a "_"%char then
             (if prev then
                match s' with
                | String b _ => if is_digit b then int_digits s' acc false else None
                | EmptyString => None
                end
              else None)
           else None
  end.

(** [int(s)] for a string argument, base 10: surrounding whitespace is
    ignored, one sign is allowed. [None] stands for [ValueError]. *)
Definition to_int (s : string) : option Z :=
  match strip s with
  | String "-" ds => Z.opp <$> int_digits ds 0 false
  | String "+" ds => int_digits ds 0 false
  | ds => int_digits ds 0 false
  end.

End PyStr.

Example to_int_3128 : PyStr.to_int "3128" = Some 3128.
Proof. reflexivity. Qed.
Example to_int_padded : PyStr.to_int "  0080 " = Some 80.
Proof. reflexivity. Qed.
Example to_int_bad : PyStr.to_int "80a" = None.
Proof. reflexivity. Qed.
Example to_int_underscore : PyStr.to_int "1_000" = Some 1000 /\ PyStr.to_int "1__0" = None.
Proof. split; reflexivity. Qed.
Example to_int_neg : PyStr.to_int "-12" = Some (-12) /\ PyStr.of_Z (-12) = "-12".
Proof. split; reflexivity. Qed.
Example split_listen : PyStr.split "," "a, b,,c" = ["a"; " b"; ""; "c"].
Proof. reflexivity. Qed.
Example strip_ex : PyStr.strip "  a b  " = "a b".
Proof. reflexivity. Qed.

(** ** Python dictionaries

    [parse_cli] and [parse_env] build a [dict] and [parse_config] iterates
    over it, so the insertion order is part of the model: a [dict] is an
    association list without repeated keys, an assignment to a present key
    keeps its position, an assignment to a new key appends. *)

Module Dict.

Definition t : Type := list (string * string).

Fixpoint get (k : string) (d : t) : option string :=
  match d with
  | [] => None
  | (k', v) :: d' => if String.eqb k' k then Some v else get k d'
  end.

(** [k in d] *)
Definition mem (k : string) (d : t) : bool :=
  match get k d with Some _ => true | None => false end.

(** [d[k] = v] *)
Fixpoint set (k v : string) (d : t) : t :=
  match d with
  | [] => [(k, v)]
  | (k', v') :: d' =>
      if String.eqb k' k then (k, v) :: d' else (k', v') :: set k v d'
  end.

(** [del d[k]] *)
Definition del (k : string) (d : t) : t :=
  List.filter (fun kv => negb (String.eqb (fst kv) k)) d.

Definition keys (d : t) : list string := map fst d.

(** Case analysis on every string comparison of the goal. *)
Ltac eqb_cases :=
  repeat (match goal with
          | |- context [String.eqb ?a ?b] => destruct (String.eqb_spec a b)
          | H : context [String.eqb ?a ?b] |- _ => destruct (String.eqb_spec a b)
          end; subst; simpl in *);
  try congruence.

Lemma get_set (k k' v : string) (d : t) :
  get k (set k' v d) = if String.eqb k' k then Some v else get k d.
Proof.
  induction d as [|[a b] d IH]; simpl.
  - reflexivity.
  - destruct (String.eqb_spec a k'); simpl; [subst; eqb_cases|].
    rewrite IH. eqb_cases.
Qed.

Lemma get_del (k k' : string) (d : t) :
  get k (del k' d) = if String.eqb k' k then None else get k d.
Proof.
  induction d as [|[a b] d IH]; simpl.
  - destruct (String.eqb k' k); reflexivity.
  - destruct (String.eqb_spec a k'); simpl; rewrite IH; eqb_cases.
Qed.

Lemma keys_set (k v : string) (d : t) :
  keys (set k v d) = if mem k d then keys d else (keys d ++ [k])%list.
Proof.
  unfold mem. induction d as [|[a b] d IH]; simpl.
  - reflexivity.
  - destruct (String.eqb_spec a k); simpl.
    + subst. reflexivity.
    + rewrite IH. destruct (get k d); reflexivity.
Qed.

Lemma get_None_keys (k : string) (d : t) : get k d = None <-> k ∉ keys d.
Proof.
  induction d as [|[a b] d IH]; simpl.
  - split; [intros _; apply not_elem_of_nil | reflexivity].
  - rewrite not_elem_of_cons. destruct (String.eqb_spec a k).
    + split; [discriminate | intros [? _]; congruence].
    + rewrite IH. split; [intros; split; [congruence | assumption] | tauto].
Qed.

(** Assignments keep the keys of a dictionary distinct. *)
Lemma NoDup_set (k v : string) (d : t) :
  NoDup (keys d) -> NoDup (keys (set k v d)).
Proof.
  intros H. rewrite keys_set. unfold mem.
  destruct (get k d) eqn:E; [assumption|].
  apply get_None_keys in E.
  apply NoDup_app. repeat split; try assumption.
  - intros x Hx Hk. apply list_elem_of_singleton in Hk. congruence.
  - apply NoDup_singleton.
Qed.

End Dict.

(** ** Command line and environment *)

(** One round of the loop of [parse_cli]: arguments that do not start with
    two dashes, and the bare ["--"], are skipped; [--name=val] stores [val],
    [--name] stores ["1"]. *)
Definition cli_flag (arg : string) : option (string * string) :=
  if negb (PyStr.startswith "--" arg) || (String.length arg <? 3)%nat then None
  else
    let arg := PyStr.drop 2 arg in
    if PyStr.contains_char "=" arg then Some (PyStr.split1 "=" arg)
    else Some (arg, "1").

Definition cli_step (flags : Dict.t) (arg : string) : Dict.t :=
  match cli_flag arg with
  | Some (name, val) => Dict.set name val flags
  | None => flags
  end.

(** [parse_cli]: all of [sys.argv] is scanned, then a [proxy] entry is moved
    to [server]. *)
Definition parse_cli (argv : list string) : Dict.t :=
  let flags := fold_left cli_step argv [] in
  match Dict.get "proxy" flags with
  | Some v => Dict.del "proxy" (Dict.set "server" v flags)
  | None => flags
  end.

Definition lower_char (a : ascii) : ascii :=
  let n := nat_of_ascii a in
  if (65 <=? n)%nat && (n <=? 90)%nat then ascii_of_nat (n + 32) else a.

(** [s.lower()] on ASCII text *)
Fixpoint lower (s : string) : string :=
  match s with
  | EmptyString => EmptyString
  | String a s' => String (lower_char a) (lower s')
  end.

Definition env_step (env : Dict.t) (kv : string * string) : Dict.t :=
  let '(var, value) := kv in
  if PyStr.startswith "PX_" var && (3 <? String.length var)%nat
  then Dict.set (lower (PyStr.drop 3 var)) value env
  else env.

(** [parse_env], after the dotenv files have been merged into
    [os.environ]: every [PX_name] variable is kept under the lowercased
    [name]. *)
Definition parse_env (environ : list (string * string)) : Dict.t :=
  fold_left env_step environ [].

Example parse_cli_ex :
  parse_cli ["px"; "--port=3000"; "--verbose"; "--"; "-h"; "--noproxy=a=b"]
  = [("port", "3000"); ("verbose", "1"); ("noproxy", "a=b")].
Proof. reflexivity. Qed.

Example parse_cli_proxy_ex :
  parse_cli ["px"; "--proxy=up.corp:8080"; "--port=1"]
  = [("port", "1"); ("server", "up.corp:8080")].
Proof. reflexivity. Qed.

Example parse_env_ex :
  parse_env [("HOME", "/root"); ("PX_PORT", "2000"); ("PX_", "x"); ("PX_NoProxy", "a")]
  = [("port", "2000"); ("noproxy", "a")].
Proof. reflexivity. Qed.

(** The value the last [--k] flag of a command line gives to [k]. *)
Fixpoint last_flag (k : string) (argv : list string) : option string :=
  match argv with
  | [] => None
  | a :: rest =>
      match last_flag k rest with
      | Some v => Some v
      | None =>
          match cli_flag a with
          | Some (n, v) => if String.eqb n k then Some v else None
          | None => None
          end
      end
  end.

Lemma last_flag_app (k : string) (l1 l2 : list string) :
  last_flag k (l1 ++ l2)%list =
  match last_flag k l2 with Some v => Some v | None => last_flag k l1 end.
Proof.
  induction l1 as [|a l1 IH]; simpl.
  - destruct (last_flag k l2); reflexivity.
  - rewrite IH. destruct (last_flag k l2); reflexivity.
Qed.

Lemma get_fold_cli_step (k : string) (argv : list string) (d : Dict.t) :
  Dict.get k (fold_left cli_step argv d) =
  match last_flag k argv with Some v => Some v | None => Dict.get k d end.
Proof.
  revert d. induction argv as [|a argv IH]; intros d; simpl.
  - reflexivity.
  - rewrite IH. destruct (last_flag k argv); [reflexivity|].
    unfold cli_step. destruct (cli_flag a) as [[n v]|]; [|reflexivity].
    rewrite Dict.get_set. destruct (String.eqb n k); reflexivity.
Qed.

(** What [parse_cli] holds for each key, in terms of the flags given. *)
Lemma get_parse_cli (k : string) (argv : list string) :
  Dict.get k (parse_cli argv) =
  if String.eqb k "proxy" then None
  else if String.eqb k "server" then
         match last_flag "proxy" argv with
         | Some v => Some v
         | None => last_flag "server" argv
         end
       else last_flag k argv.
Proof.
  unfold parse_cli.
  pose proof (get_fold_cli_step "proxy" argv []) as Hp.
  pose proof (get_fold_cli_step k argv []) as Hk. simpl in Hp, Hk.
  destruct (last_flag "proxy" argv) as [v|] eqn:Ep.
  - rewrite Hp, Dict.get_del, Dict.get_set, Hk.
    destruct (String.eqb_spec "proxy" k), (String.eqb_spec k "proxy"); try congruence.
    destruct (String.eqb_spec "server" k), (String.eqb_spec k "server"); try congruence.
    destruct (last_flag k argv); reflexivity.
  - rewrite Hp, Hk.
    assert (Hid : forall o : option string,
               match o with Some v => Some v | None => None end = o)
      by (intros [?|]; reflexivity).
    rewrite Hid.
    destruct (String.eqb_spec k "proxy") as [->|]; [exact Ep|].
    destruct (String.eqb_spec k "server") as [->|]; reflexivity.
Qed.

Lemma cli_flag_proxy (x : string) : cli_flag ("--proxy=" ++ x) = Some ("proxy", x).
Proof. reflexivity. Qed.

Lemma cli_flag_server (x : string) : cli_flag ("--server=" ++ x) = Some ("server", x).
Proof. reflexivity. Qed.

(** [names_other k l]: no argument of [l] is a [--k] flag. *)
Definition flag_named (k : string) (arg : string) : bool :=
  match cli_flag arg with
  | Some (n, _) => String.eqb n k
  | None => false
  end.

Definition no_flag (k : string) (l : list string) : bool :=
  forallb (fun a => negb (flag_named k a)) l.

Lemma no_flag_last (k : string) (l : list string) :
  no_flag k l = true -> last_flag k l = None.
Proof.
  unfold no_flag, flag_named. induction l as [|a l IH]; simpl; [reflexivity|].
  intros H. apply andb_true_iff in H as [Ha Hl]. rewrite (IH Hl).
  destruct (cli_flag a) as [[n v]|]; [|reflexivity].
  destruct (String.eqb n k); [discriminate | reflexivity].
Qed.

(** ** Exceptions and effects

    The configuration code and the request handler mutate a shared object
    and leave by exceptions ([sys.exit] raises [SystemExit]). Both are
    written in a state monad over the mutated object, with the exception as
    the other result. *)

Inductive exn : Type :=
| SystemExit
| NoSectionError (section : string)
| NoOptionError (section option : string)
| ValueError (msg : string)
| TypeError (msg : string)
| IndexError
| OSError (msg : string)            (* [socket.error] is [OSError] *)
| ConnectionError (msg : string)    (* a subclass of [OSError] *)
| TimeoutError (msg : string)       (* a subclass of [OSError] *)
| OtherError (msg : string).

Definition M (S A : Type) : Type := S -> (exn + A) * S.

Definition ret {S A : Type} (a : A) : M S A := fun s => (inr a, s).

Definition bind {S A B : Type} (m : M S A) (f : A -> M S B) : M S B :=
  fun s => match m s with
           | (inr a, s') => f a s'
           | (inl e, s') => (inl e, s')
           end.

Definition raise {S A : Type} (e : exn) : M S A := fun s => (inl e, s).

Definition gets {S A : Type} (f : S -> A) : M S A := fun s => (inr (f s), s).

Definition modify {S : Type} (f : S -> S) : M S unit := fun s => (inr tt, f s).

(** [try: m except ...: h e]; [h] answers [None] for the exceptions the
    [except] clauses do not name. *)
Definition try_except {S A : Type} (m : M S A) (h : exn -> option (M S A)) : M S A :=
  fun s => match m s with
           | (inl e, s') => match h e with
                            | Some k => k s'
                            | None => (inl e, s')
                            end
           | r => r
           end.

Declare Scope monad_scope.
Delimit Scope monad_scope with monad.
Notation "x <- c1 ;; c2" := (bind c1 (fun x => c2))
  (at level 100, c1 at next level, right associativity) : monad_scope.
Notation "c1 ;; c2" := (bind c1 (fun _ => c2))
  (at level 100, right associativity) : monad_scope.

(** [for x in l: body x] *)
Fixpoint for_each {S A : Type} (l : list A) (body : A -> M S unit) : M S unit :=
  match l with
  | [] => ret tt
  | x :: l' => bind (body x) (fun _ => for_each l' body)
  end.

Lemma bind_inr {S A B : Type} (m : M S A) (f : A -> M S B) (s s2 : S) (b : B) :
  bind m f s = (inr b, s2) ->
  exists a s1, m s = (inr a, s1) /\ f a s1 = (inr b, s2).
Proof.
  unfold bind. destruct (m s) as [[e|a] s1]; [discriminate|]. eauto.
Qed.

Lemma for_each_inr_ind {S A : Type} (P : S -> S -> Prop) (body : A -> M S unit) :
  (forall s, P s s) ->
  (forall s1 s2 s3, P s1 s2 -> P s2 s3 -> P s1 s3) ->
  forall l : list A,
    (forall x s s', In x l -> body x s = (inr tt, s') -> P s s') ->
    forall s s', for_each l body s = (inr tt, s') -> P s s'.
Proof.
  intros Hrefl Htrans l. induction l as [|x l IH]; simpl; intros Hbody s s' H.
  - inversion H. apply Hrefl.
  - apply bind_inr in H as ([] & s1 & H1 & H2).
    apply Htrans with s1.
    + apply (Hbody x); [left; reflexivity | exact H1].
    + apply IH; [|exact H2].
      intros y t t' Hy. apply (Hbody y). right. exact Hy.
Qed.

(** A run is determined by its result and its final state. *)
Lemma run_result {S A : Type} (r : (exn + A) * S) (a : exn + A) :
  fst r = a -> r = (a, snd r).
Proof. destruct r. simpl. intros ->. reflexivity. Qed.

(** ** Collaborators outside [main.py]

    [main.py] calls into [netaddr], [socket], [os.path], and into the
    modules [wproxy], [mcurl] and [help] of the package. What the
    configuration code needs of them is collected here and taken as a
    parameter. *)

(** [configparser.ConfigParser]: sections, each a table of options. The
    [DEFAULT] section and value interpolation are not modelled (the file
    has no [DEFAULT] section and no value holds a percent sign). *)
Abbreviation Config := (gmap string (gmap string string)).

(** A [wproxy.Wproxy] object, by the arguments it is made with. *)
Inductive Wproxy : Type :=
| Wproxy_CONFIG (servers : list (string * Z)) (noproxy : string)
    (* [Wproxy(MODE_CONFIG, servers, noproxy = ...)] *)
| Wproxy_CONFIG_PAC (pac : string) (noproxy pac_encoding : string)
    (* [Wproxy(MODE_CONFIG_PAC, [pac], noproxy = ..., pac_encoding = ...)] *)
| Wproxy_AUTO (noproxy : string).
    (* [Wproxy(noproxy = ...)]: the proxy is detected from the system *)

Record Externals : Type := {
  (** Python [float]: [float(s)] ([None] is [ValueError]) and [str(x)] *)
  float : Type;
  float_of_str : string -> option float;
  str_of_float : float -> string;
  (** the class attribute [State.socktimeout = 20.0] *)
  float_20 : float;
  (** [socket.setdefaulttimeout(x)] accepts [x] (it raises [ValueError] on
      a negative timeout) *)
  timeout_in_range : float -> bool;
  (** [netaddr] address sets, [ip in s], and [netaddr.IPGlob("*.*.*.*")] *)
  IPSet : Type;
  ipset_contains : IPSet -> string -> bool;
  IPGlob_all : IPSet;
  (** first component of [wproxy.parse_noproxy(s, iponly = True)] *)
  parse_noproxy_ips : string -> IPSet;
  (** [mcurl.getauth(auth)] returns (it raises on an unknown scheme) *)
  getauth_ok : string -> bool;
  (** [os.path.exists], [os.path.isabs], the path
      [os.path.normpath(os.path.join(get_script_dir(), p))], and
      [file_url_to_local_path] ([None] when it falls off its end) *)
  path_exists : string -> bool;
  path_isabs : string -> bool;
  script_relative : string -> string;
  file_url_to_local_path : string -> option string;
  (** [help.HELP] *)
  HELP : string;
  (** [sys.platform], [hasattr(socket, "fromshare")], and [str(exc)] of
      the [OSError] that binding an address raises, if it does *)
  sys_platform : string;
  has_fromshare : bool;
  bind_error : string * Z -> option string;
  (** [windows.install(...)] and [windows.uninstall()]: the exception they
      end with, if any ([SystemExit] stands for [sys.exit()]) *)
  windows_install : option exn;
  windows_uninstall : option exn;
  (** the scan of the processes in [quit]: how many other instances of Px
      it finds, and kills, in the first call ([false]) and in the check
      that follows it ([true]) *)
  px_instances : bool -> nat;
  (** [open(path, "w")] and [State.config.write]: the text then in the
      file, or the exception raised *)
  config_write : string -> Config -> exn + string;
  (** [getpass.getpass] until the answer is not empty; [None] when the
      user interrupts it *)
  getpass : option string;
  (** [keyring.set_password("Px", username, pwd)], then whether
      [keyring.get_password("Px", username)] gives [pwd] back *)
  keyring_set_password : string -> string -> exn + bool;
  (** [wproxy.parse_proxy] *)
  parse_proxy : string -> exn + list (string * Z);
  (** the exception the constructors [wproxy.Wproxy] and [mcurl.MCurl]
      raise, if any *)
  Wproxy_error : Wproxy -> option exn;
  MCurl_error : option exn;
  (** [time.time()] once the proxy has been detected *)
  time_time : float
}.

(** [x in l] for a list of strings *)
Definition str_in (x : string) (l : list string) : bool :=
  existsb (String.eqb x) l.

(** Debug log locations *)
Definition LOG_NONE : Z := 0.
Definition LOG_SCRIPTDIR : Z := 1.
Definition LOG_CWD : Z := 2.
Definition LOG_UNIQLOG : Z := 3.
Definition LOG_STDOUT : Z := 4.

Section Configuration.

Context (ext : Externals).

(** The values the configuration code passes around: the text of an
    option, or what [int] / [float] made of it. *)
Inductive pyval : Type :=
| PStr (s : string)
| PInt (n : Z)
| PFloat (x : float ext).

(** [str(v)] *)
Definition py_str (v : pyval) : string :=
  match v with
  | PStr s => s
  | PInt n => PyStr.of_Z n
  | PFloat x => str_of_float ext x
  end.

(** ** [class State]

    The attributes the configuration code reads and writes, then what it
    leaves outside of [State]: the lines given to [pprint] and [dprint] and
    the timeout installed by [socket.setdefaulttimeout]. [debug] and
    [mcurl] tell whether [State.debug] and [State.mcurl] are objects ([is
    not None]). *)
Record State : Type := mkState {
  hostonly : bool;
  idle : pyval;
  listen : list string;
  noproxy : string;
  pac : string;
  proxyreload : pyval;
  socktimeout : pyval;
  useragent : string;
  auth : string;
  username : string;
  allow : IPSet ext;
  config : Config;
  debug : bool;
  location : pyval;
  stdout : list string;
  dlog : list string;
  defaulttimeout : option pyval;
  ini : string;
  mcurl : bool;
  wproxy : option Wproxy;
  proxy_last_reload : option (float ext)
}.

Definition initial_State : State :=
  {| hostonly := false; idle := PInt 30; listen := []; noproxy := "";
     pac := ""; proxyreload := PInt 60; socktimeout := PFloat (float_20 ext);
     useragent := ""; auth := "ANY"; username := "";
     allow := IPGlob_all ext; config := ∅; debug := false;
     location := PInt LOG_NONE; stdout := []; dlog := [];
     defaulttimeout := None;
     ini := ""; mcurl := false; wproxy := None; proxy_last_reload := None |}.

Definition with_hostonly (x : bool) (s : State) : State :=
  mkState x (idle s) (listen s) (noproxy s) (pac s) (proxyreload s) (socktimeout s) (useragent s) (auth s) (username s) (allow s) (config s) (debug s) (location s) (stdout s) (dlog s) (defaulttimeout s) (ini s) (mcurl s) (wproxy s) (proxy_last_reload s).
Definition with_idle (x : pyval) (s : State) : State :=
  mkState (hostonly s) x (listen s) (noproxy s) (pac s) (proxyreload s) (socktimeout s) (useragent s) (auth s) (username s) (allow s) (config s) (debug s) (location s) (stdout s) (dlog s) (defaulttimeout s) (ini s) (mcurl s) (wproxy s) (proxy_last_reload s).
Definition with_listen (x : list string) (s : State) : State :=
  mkState (hostonly s) (idle s) x (noproxy s) (pac s) (proxyreload s) (socktimeout s) (useragent s) (auth s) (username s) (allow s) (config s) (debug s) (location s) (stdout s) (dlog s) (defaulttimeout s) (ini s) (mcurl s) (wproxy s) (proxy_last_reload s).
Definition with_noproxy (x : string) (s : State) : State :=
  mkState (hostonly s) (idle s) (listen s) x (pac s) (proxyreload s) (socktimeout s) (useragent s) (auth s) (username s) (allow s) (config s) (debug s) (location s) (stdout s) (dlog s) (defaulttimeout s) (ini s) (mcurl s) (wproxy s) (proxy_last_reload s).
Definition with_pac (x : string) (s : State) : State :=
  mkState (hostonly s) (idle s) (listen s) (noproxy s) x (proxyreload s) (socktimeout s) (useragent s) (auth s) (username s) (allow s) (config s) (debug s) (location s) (stdout s) (dlog s) (defaulttimeout s) (ini s) (mcurl s) (wproxy s) (proxy_last_reload s).
Definition with_proxyreload (x : pyval) (s : State) : State :=
  mkState (hostonly s) (idle s) (listen s) (noproxy s) (pac s) x (socktimeout s) (useragent s) (auth s) (username s) (allow s) (config s) (debug s) (location s) (stdout s) (dlog s) (defaulttimeout s) (ini s) (mcurl s) (wproxy s) (proxy_last_reload s).
Definition with_socktimeout (x : pyval) (s : State) : State :=
  mkState (hostonly s) (idle s) (listen s) (noproxy s) (pac s) (proxyreload s) x (useragent s) (auth s) (username s) (allow s) (config s) (debug s) (location s) (stdout s) (dlog s) (defaulttimeout s) (ini s) (mcurl s) (wproxy s) (proxy_last_reload s).
Definition with_useragent (x : string) (s : State) : State :=
  mkState (hostonly s) (idle s) (listen s) (noproxy s) (pac s) (proxyreload s) (socktimeout s) x (auth s) (username s) (allow s) (config s) (debug s) (location s) (stdout s) (dlog s) (defaulttimeout s) (ini s) (mcurl s) (wproxy s) (proxy_last_reload s).
Definition with_auth (x : string) (s : State) : State :=
  mkState (hostonly s) (idle s) (listen s) (noproxy s) (pac s) (proxyreload s) (socktimeout s) (useragent s) x (username s) (allow s) (config s) (debug s) (location s) (stdout s) (dlog s) (defaulttimeout s) (ini s) (mcurl s) (wproxy s) (proxy_last_reload s).
Definition with_username (x : string) (s : State) : State :=
  mkState (hostonly s) (idle s) (listen s) (noproxy s) (pac s) (proxyreload s) (socktimeout s) (useragent s) (auth s) x (allow s) (config s) (debug s) (location s) (stdout s) (dlog s) (defaulttimeout s) (ini s) (mcurl s) (wproxy s) (proxy_last_reload s).
Definition with_allow (x : IPSet ext) (s : State) : State :=
  mkState (hostonly s) (idle s) (listen s) (noproxy s) (pac s) (proxyreload s) (socktimeout s) (useragent s) (auth s) (username s) x (config s) (debug s) (location s) (stdout s) (dlog s) (defaulttimeout s) (ini s) (mcurl s) (wproxy s) (proxy_last_reload s).
Definition with_config (x : Config) (s : State) : State :=
  mkState (hostonly s) (idle s) (listen s) (noproxy s) (pac s) (proxyreload s) (socktimeout s) (useragent s) (auth s) (username s) (allow s) x (debug s) (location s) (stdout s) (dlog s) (defaulttimeout s) (ini s) (mcurl s) (wproxy s) (proxy_last_reload s).
Definition with_debug (x : bool) (s : State) : State :=
  mkState (hostonly s) (idle s) (listen s) (noproxy s) (pac s) (proxyreload s) (socktimeout s) (useragent s) (auth s) (username s) (allow s) (config s) x (location s) (stdout s) (dlog s) (defaulttimeout s) (ini s) (mcurl s) (wproxy s) (proxy_last_reload s).
Definition with_location (x : pyval) (s : State) : State :=
  mkState (hostonly s) (idle s) (listen s) (noproxy s) (pac s) (proxyreload s) (socktimeout s) (useragent s) (auth s) (username s) (allow s) (config s) (debug s) x (stdout s) (dlog s) (defaulttimeout s) (ini s) (mcurl s) (wproxy s) (proxy_last_reload s).
Definition with_stdout (x : list string) (s : State) : State :=
  mkState (hostonly s) (idle s) (listen s) (noproxy s) (pac s) (proxyreload s) (socktimeout s) (useragent s) (auth s) (username s) (allow s) (config s) (debug s) (location s) x (dlog s) (defaulttimeout s) (ini s) (mcurl s) (wproxy s) (proxy_last_reload s).
Definition with_dlog (x : list string) (s : State) : State :=
  mkState (hostonly s) (idle s) (listen s) (noproxy s) (pac s) (proxyreload s) (socktimeout s) (useragent s) (auth s) (username s) (allow s) (config s) (debug s) (location s) (stdout s) x (defaulttimeout s) (ini s) (mcurl s) (wproxy s) (proxy_last_reload s).
Definition with_defaulttimeout (x : option pyval) (s : State) : State :=
  mkState (hostonly s) (idle s) (listen s) (noproxy s) (pac s) (proxyreload s) (socktimeout s) (useragent s) (auth s) (username s) (allow s) (config s) (debug s) (location s) (stdout s) (dlog s) x (ini s) (mcurl s) (wproxy s) (proxy_last_reload s).
Definition with_ini (x : string) (s : State) : State :=
  mkState (hostonly s) (idle s) (listen s) (noproxy s) (pac s) (proxyreload s) (socktimeout s) (useragent s) (auth s) (username s) (allow s) (config s) (debug s) (location s) (stdout s) (dlog s) (defaulttimeout s) x (mcurl s) (wproxy s) (proxy_last_reload s).
Definition with_mcurl (x : bool) (s : State) : State :=
  mkState (hostonly s) (idle s) (listen s) (noproxy s) (pac s) (proxyreload s) (socktimeout s) (useragent s) (auth s) (username s) (allow s) (config s) (debug s) (location s) (stdout s) (dlog s) (defaulttimeout s) (ini s) x (wproxy s) (proxy_last_reload s).
Definition with_wproxy (x : option Wproxy) (s : State) : State :=
  mkState (hostonly s) (idle s) (listen s) (noproxy s) (pac s) (proxyreload s) (socktimeout s) (useragent s) (auth s) (username s) (allow s) (config s) (debug s) (location s) (stdout s) (dlog s) (defaulttimeout s) (ini s) (mcurl s) x (proxy_last_reload s).
Definition with_proxy_last_reload (x : option (float ext)) (s : State) : State :=
  mkState (hostonly s) (idle s) (listen s) (noproxy s) (pac s) (proxyreload s) (socktimeout s) (useragent s) (auth s) (username s) (allow s) (config s) (debug s) (location s) (stdout s) (dlog s) (defaulttimeout s) (ini s) (mcurl s) (wproxy s) x.

Local Open Scope monad_scope.

Definition pprint (line : string) : M State unit :=
  modify (fun s => with_stdout (stdout s ++ [line])%list s).

Definition dprint (line : string) : M State unit :=
  modify (fun s => with_dlog (dlog s ++ [line])%list s).

(** [sys.stdout.write(text)] *)
Definition stdout_write (text : string) : M State unit :=
  modify (fun s => with_stdout (stdout s ++ [text])%list s).

(** A call into another module that returns nothing: it raises, or not. *)
Definition external (outcome : option exn) : M State unit :=
  match outcome with
  | Some e => raise e
  | None => ret tt
  end.

(** A call into another module, by its result. *)
Definition external_value {A : Type} (outcome : exn + A) : M State A :=
  match outcome with
  | inl e => raise e
  | inr a => ret a
  end.

(** [sys.exit()] *)
Definition sys_exit {A : Type} : M State A := raise SystemExit.

(** *** [ConfigParser] operations *)

Definition config_get (section name : string) : M State string :=
  cfg <- gets config ;;
  match cfg !! section with
  | None => raise (NoSectionError section)
  | Some opts =>
      match opts !! name with
      | None => raise (NoOptionError section name)
      | Some v => ret v
      end
  end.

Definition config_set (section name value : string) : M State unit :=
  cfg <- gets config ;;
  match cfg !! section with
  | None => raise (NoSectionError section)
  | Some opts => modify (with_config (<[section := <[name := value]> opts]> cfg))
  end.

Definition config_getint (section name : string) : M State Z :=
  v <- config_get section name ;;
  match PyStr.to_int v with
  | Some n => ret n
  | None => raise (ValueError "invalid literal for int()")
  end.

(** [if section not in State.config.sections(): State.config.add_section(section)] *)
Definition ensure_section (section : string) : M State unit :=
  cfg <- gets config ;;
  match cfg !! section with
  | None => modify (with_config (<[section := ∅]> cfg))
  | Some _ => ret tt
  end.

(** *** The setters used as callbacks

    [callbacks.get(name)] hands the same function to [cfg_str_init],
    [cfg_int_init] or [cfg_float_init]; a callback therefore takes a
    [pyval]. The setters of the string keys are only ever called by
    [cfg_str_init], with a [str]. *)

Definition set_pac (v : pyval) : M State unit :=
  let pac0 := py_str v in
  if String.eqb pac0 "" then ret tt
  else
    r <- (if PyStr.startswith "http" pac0 then ret (pac0, true)
          else if PyStr.startswith "file" pac0 then
                 match file_url_to_local_path ext pac0 with
                 | Some p => ret (p, path_exists ext p)
                 | None => raise (TypeError "stat: path should be string, not NoneType")
                 end
               else
                 let p := if path_isabs ext pac0 then pac0 else script_relative ext pac0 in
                 ret (p, path_exists ext p)) ;;
    let '(p, pacproxy) := r in
    if pacproxy : bool then modify (with_pac p)
    else pprint ("Unsupported PAC location or file not found: " ++ p) ;; sys_exit.

(** One round of the loop of [set_listen]. *)
Definition set_listen_step (intf : string) : M State unit :=
  let clean := PyStr.strip intf in
  l <- gets listen ;;
  if negb (String.length clean =? 0)%nat && negb (str_in clean l)
  then modify (with_listen (l ++ [clean])%list)
  else ret tt.

Definition set_listen (v : pyval) : M State unit :=
  for_each (PyStr.split "," (py_str v)) set_listen_step.

Definition set_allow (v : pyval) : M State unit :=
  modify (with_allow (parse_noproxy_ips ext (py_str v))).

Definition set_noproxy (v : pyval) : M State unit := modify (with_noproxy (py_str v)).

Definition set_useragent (v : pyval) : M State unit := modify (with_useragent (py_str v)).

Definition set_username (v : pyval) : M State unit := modify (with_username (py_str v)).

(** [set_password]: it ends in [sys.exit()] whatever happens. A
    [KeyboardInterrupt] is the user leaving the prompt of [getpass]. *)
Definition set_password : M State unit :=
  u <- gets username ;;
  (if (String.length u =? 0)%nat then
     pprint "domain\username missing - specify via --username or configure in px.ini" ;;
     sys_exit
   else
     pprint ("Setting password for '" ++ u ++ "'") ;;
     match getpass ext with
     | Some pwd =>
         saved <- external_value (keyring_set_password ext u pwd) ;;
         if saved : bool then pprint "Saved successfully" else ret tt
     | None => pprint ""
     end) ;;
  sys_exit.

Definition set_auth (v : pyval) : M State unit :=
  let a := if (String.length (py_str v) =? 0)%nat then "ANY" else py_str v in
  if getauth_ok ext a then modify (with_auth a)
  else raise (OtherError "mcurl.getauth").

(** [get_logfile(location) is not None]: a location between [LOG_SCRIPTDIR]
    and [LOG_STDOUT]; no text equals one of them. *)
Definition has_logfile (loc : pyval) : bool :=
  match loc with
  | PInt n => (LOG_SCRIPTDIR <=? n) && (n <=? LOG_STDOUT)
  | _ => false
  end.

Definition set_debug (loc : pyval) : M State unit :=
  d <- gets debug ;;
  if negb d && has_logfile loc
  then modify (with_location loc) ;; modify (with_debug true)
  else ret tt.

Definition set_idle (v : pyval) : M State unit := modify (with_idle v).

Definition set_socktimeout (v : pyval) : M State unit :=
  modify (with_socktimeout v) ;;
  match v with
  | PFloat x =>
      if timeout_in_range ext x then modify (with_defaulttimeout (Some v))
      else raise (ValueError "Timeout value out of range")
  | PInt n =>
      if 0 <=? n then modify (with_defaulttimeout (Some v))
      else raise (ValueError "Timeout value out of range")
  | PStr _ => raise (TypeError "a float is required")
  end.

Definition set_proxyreload (v : pyval) : M State unit := modify (with_proxyreload v).

(** *** [cfg_int_init], [cfg_float_init], [cfg_str_init] *)

Definition cfg_int_init (section name default : string)
    (proc : option (pyval -> M State unit)) (override : bool) : M State unit :=
  val <- (if override then ret default
          else try_except
                 (v <- config_get section name ;; ret (PyStr.strip v))
                 (fun e => match e with
                           | NoOptionError _ _ => Some (ret default)
                           | _ => None
                           end)) ;;
  val <- match PyStr.to_int val with
         | Some n => ret (PInt n)
         | None =>
             pprint ("Invalid integer value for " ++ section ++ ":" ++ name) ;;
             ret (PStr val)
         end ;;
  config_set section name (py_str val) ;;
  match proc with
  | Some p => p val
  | None => ret tt
  end.

Definition cfg_float_init (section name default : string)
    (proc : option (pyval -> M State unit)) (override : bool) : M State unit :=
  val <- (if override then ret default
          else try_except
                 (v <- config_get section name ;; ret (PyStr.strip v))
                 (fun e => match e with
                           | NoOptionError _ _ => Some (ret default)
                           | _ => None
                           end)) ;;
  val <- match float_of_str ext val with
         | Some x => ret (PFloat x)
         | None =>
             pprint ("Invalid float value for " ++ section ++ ":" ++ name) ;;
             ret (PStr val)
         end ;;
  config_set section name (py_str val) ;;
  match proc with
  | Some p => p val
  | None => ret tt
  end.

Definition cfg_str_init (section name default : string)
    (proc : option (pyval -> M State unit)) (override : bool) : M State unit :=
  val <- (if override then ret default
          else try_except
                 (v <- config_get section name ;; ret (PyStr.strip v))
                 (fun e => match e with
                           | NoOptionError _ _ => Some (ret default)
                           | _ => None
                           end)) ;;
  config_set section name val ;;
  match proc with
  | Some p => p (PStr val)
  | None => ret tt
  end.

(** *** [parse_config] *)

(** Default values for all keys, in the order of the source. *)
Definition defaults : Dict.t :=
  [ ("server", ""); ("pac", ""); ("pac_encoding", "utf-8"); ("port", "3128");
    ("listen", "127.0.0.1"); ("allow", "*.*.*.*"); ("gateway", "0");
    ("hostonly", "0"); ("noproxy", ""); ("useragent", ""); ("username", "");
    ("auth", ""); ("workers", "2"); ("threads", "32"); ("idle", "30");
    ("socktimeout", "20.0"); ("proxyreload", "60"); ("foreground", "0");
    ("log", "0") ].

(** Callback functions for initialization: [callbacks.get(name)]. *)
Definition callbacks (name : string) : option (pyval -> M State unit) :=
  if String.eqb name "pac" then Some set_pac
  else if String.eqb name "listen" then Some set_listen
  else if String.eqb name "allow" then Some set_allow
  else if String.eqb name "noproxy" then Some set_noproxy
  else if String.eqb name "useragent" then Some set_useragent
  else if String.eqb name "username" then Some set_username
  else if String.eqb name "auth" then Some set_auth
  else if String.eqb name "log" then Some set_debug
  else if String.eqb name "idle" then Some set_idle
  else if String.eqb name "socktimeout" then Some set_socktimeout
  else if String.eqb name "proxyreload" then Some set_proxyreload
  else None.

Definition proxy_str_keys : list string :=
  ["server"; "pac"; "pac_encoding"; "listen"; "allow"; "noproxy";
   "useragent"; "username"; "auth"].
Definition proxy_int_keys : list string := ["port"; "gateway"; "hostonly"].
Definition settings_int_keys : list string :=
  ["workers"; "threads"; "idle"; "proxyreload"; "foreground"; "log"].
Definition settings_float_keys : list string := ["socktimeout"].

Definition cfg_init (name val : string) (override : bool) : M State unit :=
  let callback := callbacks name in
  if str_in name proxy_str_keys then cfg_str_init "proxy" name val callback override
  else if str_in name proxy_int_keys then cfg_int_init "proxy" name val callback override
  else if str_in name settings_int_keys then cfg_int_init "settings" name val callback override
  else if str_in name settings_float_keys then cfg_float_init "settings" name val callback override
  else ret tt.

(** The start of [parse_config]: [--debug], [--uniqlog] or [--verbose]
    choose the debug log before anything else; [--verbose] adds
    [--foreground] to [sys.argv]. The result is [sys.argv] afterwards. *)
Definition parse_config_debug (argv : list string) : M State (list string) :=
  if str_in "--debug" argv then set_debug (PInt LOG_SCRIPTDIR) ;; ret argv
  else if str_in "--uniqlog" argv then set_debug (PInt LOG_UNIQLOG) ;; ret argv
  else if str_in "--verbose" argv then
         set_debug (PInt LOG_STDOUT) ;;
         ret (if str_in "--foreground" argv then argv
              else (argv ++ ["--foreground"])%list)
  else ret argv.

(** From "Load configuration file" to the final override from the CLI.
    [ini] is what [State.config.read(State.ini)] has loaded (empty when
    there is no file). *)
Definition parse_config_init (flags env : Dict.t) (ini : Config) : M State unit :=
  modify (with_config ini) ;;
  ensure_section "proxy" ;;
  ensure_section "settings" ;;
  (* Override --log if --debug | --verbose | --uniqlog specified *)
  loc <- gets location ;;
  cfg_int_init "settings" "log" (py_str loc) None true ;;
  (* Default initilize if not already from config file *)
  for_each defaults (fun nv => cfg_init (fst nv) (snd nv) false) ;;
  (* Override from environment *)
  for_each env (fun nv => cfg_init (fst nv) (snd nv) true) ;;
  (* Final override from CLI which takes highest precedence *)
  for_each flags (fun nv => cfg_init (fst nv) (snd nv) true).

(** Dependency propagation: gateway and hostonly mode. *)
Definition parse_config_propagate : M State unit :=
  gateway <- config_getint "proxy" "gateway" ;;
  allow_rule <- config_get "proxy" "allow" ;;
  (if gateway =? 1 then
     modify (with_listen [""]) ;;
     dprint "Gateway mode - overriding 'listen' and binding to all interfaces" ;;
     (if str_in allow_rule ["*.*.*.*"; "0.0.0.0/0"]
      then dprint "Configure 'allow' to restrict access to trusted subnets"
      else ret tt)
   else ret tt) ;;
  h <- config_getint "proxy" "hostonly" ;;
  if h =? 1 then
    modify (with_hostonly true) ;;
    modify (with_listen [""]) ;;
    dprint "Host-only mode - overriding 'listen' and binding to all interfaces" ;;
    dprint "Px will automatically restrict access to host interfaces" ;;
    (if (gateway =? 0) || ((gateway =? 1) && str_in allow_rule ["*.*.*.*"; "0.0.0.0/0"])
     then cfg_str_init "proxy" "allow" "" (Some set_allow) true ;;
          dprint "Removing default 'allow' everyone rule"
     else ret tt)
  else ret tt.

(** [save]: the configuration is written to [State.ini] and shown, then
    the process exits. *)
Definition save : M State unit :=
  path <- gets ini ;;
  cfg <- gets config ;;
  text <- external_value (config_write ext path cfg) ;;
  pprint ("Saved config to " ++ path ++ String (ascii_of_nat 10) EmptyString) ;;
  stdout_write text ;;
  sys_exit.

(** [quit(checkOnly, exit)], with [again] for the call of [quit] in its
    body. *)
Definition quit_call (again : M State bool) (checkOnly exit : bool) : M State bool :=
  let count := px_instances ext checkOnly in
  r <- (if negb (count =? 0)%nat then
          if checkOnly then pprint " Failed" ;; ret false
          else
            stdout_write "Quitting Px .." ;;
            (* time.sleep(4) *)
            again
        else
          if checkOnly then pprint " DONE" ;; ret true
          else pprint "Px is not running" ;; ret false) ;;
  if exit then sys_exit else ret r.

(** [quit]: the call in its body has [checkOnly = True] and calls [quit]
    no more, so two levels are all there is. *)
Definition quit (checkOnly exit : bool) : M State bool :=
  quit_call (quit_call (raise (OtherError "RecursionError")) true exit) checkOnly exit.

(** [l.remove(x)] for an [x] that is in [l]: the first one goes. *)
Fixpoint list_remove (x : string) (l : list string) : list string :=
  match l with
  | [] => []
  | y :: l' => if String.eqb y x then l' else y :: list_remove x l'
  end.

(** "Handle actions". The result is [sys.argv] afterwards. *)
Definition parse_config_actions (argv : list string) : M State (list string) :=
  (if String.eqb (sys_platform ext) "win32" then
     if str_in "--install" argv then external (windows_install ext)
     else if str_in "--uninstall" argv then external (windows_uninstall ext)
     else ret tt
   else ret tt) ;;
  if str_in "--quit" argv then quit false true ;; ret argv
  else if str_in "--restart" argv then
         ok <- quit false false ;;
         (if negb ok then sys_exit else ret tt) ;;
         ret (list_remove "--restart" argv)
  else if str_in "--save" argv then save ;; ret argv
  else if str_in "--password" argv then set_password ;; ret argv
  else ret argv.

(** [State.wproxy = wproxy.Wproxy(...)] *)
Definition new_Wproxy (w : Wproxy) : M State unit :=
  external (Wproxy_error ext w) ;;
  modify (with_wproxy (Some w)).

(** "Discover proxy info from OS", and the multi object of curl. *)
Definition parse_config_discover : M State unit :=
  server <- config_get "proxy" "server" ;;
  servers <- external_value (parse_proxy ext server) ;;
  np <- gets noproxy ;;
  (if negb (length servers =? 0)%nat then new_Wproxy (Wproxy_CONFIG servers np)
   else
     p <- gets pac ;;
     if negb (String.length p =? 0)%nat then
       pac_encoding <- config_get "proxy" "pac_encoding" ;;
       new_Wproxy (Wproxy_CONFIG_PAC p np pac_encoding)
     else
       new_Wproxy (Wproxy_AUTO np) ;;
       modify (with_proxy_last_reload (Some (time_time ext)))) ;;
  (* Curl multi object to manage all easy connections *)
  external (MCurl_error ext) ;;
  modify (with_mcurl true).

End Configuration.

Arguments PStr {ext} s.
Arguments PInt {ext} n.
Arguments PFloat {ext} x.

(** A stand-in for the collaborators, to run the model on examples: floats
    are kept as their text, an address set is the list of its members,
    every authentication scheme is known and no file exists; the process
    runs on Linux, port 80 cannot be bound, one other instance of Px is
    running and [quit] ends it. *)
Definition ext0 : Externals :=
  {| float := string;
     float_of_str := fun s =>
       if forallb (fun a => PyStr.is_digit a || Ascii.eqb a ".") (list_ascii_of_string s)
          && negb (String.eqb s "")
       then Some s else None;
     str_of_float := fun s => s;
     float_20 := "20.0";
     timeout_in_range := fun _ => true;
     IPSet := list string;
     ipset_contains := fun s ip => str_in ip s;
     IPGlob_all := ["*.*.*.*"];
     parse_noproxy_ips := fun s =>
       List.filter (fun x => negb (String.eqb x "")) (map PyStr.strip (PyStr.split "," s));
     getauth_ok := fun _ => true;
     path_exists := fun _ => false;
     path_isabs := fun _ => true;
     script_relative := fun p => p;
     file_url_to_local_path := fun p => Some p;
     HELP := "usage";
     sys_platform := "linux";
     has_fromshare := false;
     bind_error := fun a => if snd a =? 80 then Some "Permission denied" else None;
     windows_install := Some SystemExit;
     windows_uninstall := Some SystemExit;
     px_instances := fun checkOnly => if checkOnly then 0%nat else 1%nat;
     config_write := fun path _ =>
       if String.eqb path "" then inl (OSError "No such file or directory")
       else inr "[proxy]";
     getpass := Some "secret";
     keyring_set_password := fun _ _ => inr true;
     parse_proxy := fun s =>
       inr (map (fun x => (x, 80))
              (List.filter (fun x => negb (String.eqb x ""))
                 (map PyStr.strip (PyStr.split "," s))));
     Wproxy_error := fun _ => None;
     MCurl_error := None;
     time_time := "1700000000.0" |}.

(** ** The configuration store, as a function

    The [cfg_*_init] helpers write one option of [State.config]; what they
    write is computed by [cfg_store], the statements below relate the two. *)

Section ConfigurationStore.

Context (ext : Externals).

#[local] Abbreviation State := (State ext).
#[local] Abbreviation pyval := (pyval ext).

Inductive kind : Type := KStr | KInt | KFloat.

(** Section and type of a key, by the case analysis of [cfg_init]. *)
Definition key_kind (name : string) : option (string * kind) :=
  if str_in name proxy_str_keys then Some ("proxy", KStr)
  else if str_in name proxy_int_keys then Some ("proxy", KInt)
  else if str_in name settings_int_keys then Some ("settings", KInt)
  else if str_in name settings_float_keys then Some ("settings", KFloat)
  else None.

(** The text stored for a value: [str(int(v))], [str(float(v))], or [v]
    itself when it is a string or does not parse. *)
Definition normal (kd : kind) (v : string) : string :=
  match kd with
  | KStr => v
  | KInt => match PyStr.to_int v with Some n => PyStr.of_Z n | None => v end
  | KFloat => match float_of_str ext v with Some x => str_of_float ext x | None => v end
  end.

(** [config.get(section, name)] as an option *)
Definition lookup2 (cfg : Config) (section name : string) : option string :=
  cfg !! section ≫= (.!! name).

Definition store (section name v : string) (cfg : Config) : Config :=
  match cfg !! section with
  | Some opts => <[section := <[name := v]> opts]> cfg
  | None => cfg
  end.

Definition has_sections (cfg : Config) : Prop :=
  is_Some (cfg !! "proxy") /\ is_Some (cfg !! "settings").

(** The text [cfg_*_init] starts from. *)
Definition value_for (section name val : string) (override : bool) (cfg : Config) : string :=
  if override then val
  else match lookup2 cfg section name with
       | Some v => PyStr.strip v
       | None => val
       end.

Definition cfg_store (name val : string) (override : bool) (cfg : Config) : Config :=
  match key_kind name with
  | Some (section, kd) =>
      store section name (normal kd (value_for section name val override cfg)) cfg
  | None => cfg
  end.

Definition add_section (section : string) (cfg : Config) : Config :=
  match cfg !! section with
  | None => <[section := ∅]> cfg
  | Some _ => cfg
  end.

(** The configuration after the passes of [parse_config_init]. *)
Definition config_after (flags env : Dict.t) (ini : Config) (loc : pyval) : Config :=
  let c0 := add_section "settings" (add_section "proxy" ini) in
  let c1 := store "settings" "log" (normal KInt (py_str ext loc)) c0 in
  let c2 := fold_left (fun c nv => cfg_store (fst nv) (snd nv) false c) defaults c1 in
  let c3 := fold_left (fun c nv => cfg_store (fst nv) (snd nv) true c) env c2 in
  fold_left (fun c nv => cfg_store (fst nv) (snd nv) true c) flags c3.

(** *** Computations that leave [State.config] alone *)

Definition keeps_config {A : Type} (m : M State A) : Prop :=
  forall s a s', m s = (inr a, s') -> config ext s' = config ext s.

Lemma keeps_ret {A : Type} (a : A) : keeps_config (ret a).
Proof. intros s b s' H. inversion H. reflexivity. Qed.

Lemma keeps_raise {A : Type} (e : exn) : keeps_config (@raise State A e).
Proof. intros s b s' H. discriminate H. Qed.

Lemma keeps_gets {A : Type} (f : State -> A) : keeps_config (gets f).
Proof. intros s b s' H. inversion H. reflexivity. Qed.

Lemma keeps_bind {A B : Type} (m : M State A) (f : A -> M State B) :
  keeps_config m -> (forall a, keeps_config (f a)) -> keeps_config (bind m f).
Proof.
  intros Hm Hf s b s' H. apply bind_inr in H as (a & s1 & H1 & H2).
  rewrite (Hf a _ _ _ H2). exact (Hm _ _ _ H1).
Qed.

Lemma keeps_modify (f : State -> State) :
  (forall s, config ext (f s) = config ext s) -> keeps_config (modify f).
Proof. intros Hf s b s' H. inversion H. apply Hf. Qed.

Lemma keeps_for_each {A : Type} (l : list A) (body : A -> M State unit) :
  (forall x, keeps_config (body x)) -> keeps_config (for_each l body).
Proof.
  intros Hb. induction l as [|x l IH]; simpl.
  - apply keeps_ret.
  - apply keeps_bind; [apply Hb | intros _; exact IH].
Qed.

Lemma keeps_if {A : Type} (b : bool) (m1 m2 : M State A) :
  keeps_config m1 -> keeps_config m2 -> keeps_config (if b then m1 else m2).
Proof. destruct b; auto. Qed.

Ltac keeps :=
  repeat first
    [ apply keeps_ret | apply keeps_raise | apply keeps_gets
    | apply keeps_modify; intros; reflexivity
    | apply keeps_bind; [|intros]
    | apply keeps_for_each; intros
    | apply keeps_if
    | match goal with
      | |- keeps_config (match ?x with _ => _ end) => destruct x
      end ].

Lemma keeps_pprint (line : string) : keeps_config (pprint ext line).
Proof. unfold pprint. keeps. Qed.

Lemma keeps_dprint (line : string) : keeps_config (dprint ext line).
Proof. unfold dprint. keeps. Qed.

Lemma keeps_callbacks (name : string) (p : pyval -> M State unit) (v : pyval) :
  callbacks ext name = Some p -> keeps_config (p v).
Proof.
  unfold callbacks.
  repeat match goal with
         | |- context [String.eqb name ?k] => destruct (String.eqb name k)
         end;
    intros [= <-].
  - unfold set_pac, sys_exit. keeps; apply keeps_pprint.
  - unfold set_listen, set_listen_step. keeps.
  - unfold set_allow. keeps.
  - unfold set_noproxy. keeps.
  - unfold set_useragent. keeps.
  - unfold set_username. keeps.
  - unfold set_auth. keeps.
  - unfold set_debug. keeps.
  - unfold set_idle. keeps.
  - unfold set_socktimeout. keeps.
  - unfold set_proxyreload. keeps.
Qed.

(** *** What one call of [cfg_*_init] does *)

Definition apply_proc (proc : option (pyval -> M State unit)) (v : pyval) : M State unit :=
  match proc with
  | Some p => p v
  | None => ret tt
  end.


(** Unfold the monad on a computation whose section is known. *)
Ltac run_cfg Hsec :=
  repeat (cbv beta iota zeta delta
            [bind gets modify ret raise try_except config_get config_set pprint
             apply_proc value_for lookup2 mbind option_bind];
          cbn [config with_stdout with_config fst snd];
          rewrite ?Hsec).

Lemma cfg_int_init_run (section name default : string)
    (proc : option (pyval -> M State unit)) (override : bool) (s : State)
    (opts : gmap string string) :
  config ext s !! section = Some opts ->
  cfg_int_init ext section name default proc override s =
  let val := value_for section name default override (config ext s) in
  match PyStr.to_int val with
  | Some n =>
      apply_proc proc (PInt n)
        (with_config ext (<[section := <[name := PyStr.of_Z n]> opts]> (config ext s)) s)
  | None =>
      apply_proc proc (PStr val)
        (with_config ext (<[section := <[name := val]> opts]> (config ext s))
           (with_stdout ext
              (stdout ext s ++ [("Invalid integer value for " ++ section ++ ":" ++ name)%string])%list s))
  end.
Proof.
  intros Hsec.
  unfold cfg_int_init. destruct override; run_cfg Hsec.
  - destruct (PyStr.to_int default); run_cfg Hsec; destruct proc; reflexivity.
  - destruct (opts !! name) as [v|]; run_cfg Hsec.
    + destruct (PyStr.to_int (PyStr.strip v)); run_cfg Hsec; destruct proc; reflexivity.
    + destruct (PyStr.to_int default); run_cfg Hsec; destruct proc; reflexivity.
Qed.

Lemma cfg_float_init_run (section name default : string)
    (proc : option (pyval -> M State unit)) (override : bool) (s : State)
    (opts : gmap string string) :
  config ext s !! section = Some opts ->
  cfg_float_init ext section name default proc override s =
  let val := value_for section name default override (config ext s) in
  match float_of_str ext val with
  | Some x =>
      apply_proc proc (PFloat x)
        (with_config ext (<[section := <[name := str_of_float ext x]> opts]> (config ext s)) s)
  | None =>
      apply_proc proc (PStr val)
        (with_config ext (<[section := <[name := val]> opts]> (config ext s))
           (with_stdout ext
              (stdout ext s ++ [("Invalid float value for " ++ section ++ ":" ++ name)%string])%list s))
  end.
Proof.
  intros Hsec.
  unfold cfg_float_init. destruct override; run_cfg Hsec.
  - destruct (float_of_str ext default); run_cfg Hsec; destruct proc; reflexivity.
  - destruct (opts !! name) as [v|]; run_cfg Hsec.
    + destruct (float_of_str ext (PyStr.strip v)); run_cfg Hsec; destruct proc; reflexivity.
    + destruct (float_of_str ext default); run_cfg Hsec; destruct proc; reflexivity.
Qed.

Lemma cfg_str_init_run (section name default : string)
    (proc : option (pyval -> M State unit)) (override : bool) (s : State)
    (opts : gmap string string) :
  config ext s !! section = Some opts ->
  cfg_str_init ext section name default proc override s =
  let val := value_for section name default override (config ext s) in
  apply_proc proc (PStr val)
    (with_config ext (<[section := <[name := val]> opts]> (config ext s)) s).
Proof.
  intros Hsec.
  unfold cfg_str_init. destruct override; run_cfg Hsec.
  - destruct proc; reflexivity.
  - destruct (opts !! name) as [v|]; run_cfg Hsec; destruct proc; reflexivity.
Qed.

Lemma keeps_apply_proc (name : string) (v : pyval) :
  keeps_config (apply_proc (callbacks ext name) v).
Proof.
  unfold apply_proc. destruct (callbacks ext name) as [p|] eqn:E.
  - eapply keeps_callbacks; eassumption.
  - apply keeps_ret.
Qed.

Lemma has_sections_store (section name v : string) (cfg : Config) :
  has_sections cfg -> has_sections (store section name v cfg).
Proof.
  unfold has_sections, store. intros [Hp Hs].
  destruct (cfg !! section) eqn:E; [|tauto].
  split.
  - destruct (decide (section = "proxy")) as [->|Hne];
      [rewrite lookup_insert_eq | rewrite lookup_insert_ne by done]; eauto.
  - destruct (decide (section = "settings")) as [->|Hne];
      [rewrite lookup_insert_eq | rewrite lookup_insert_ne by done]; eauto.
Qed.

Lemma has_sections_cfg_store (name val : string) (ov : bool) (cfg : Config) :
  has_sections cfg -> has_sections (cfg_store name val ov cfg).
Proof.
  intros H. unfold cfg_store. destruct (key_kind name) as [[sec kd]|]; [|exact H].
  apply has_sections_store, H.
Qed.

Lemma key_kind_section (name section : string) (kd : kind) :
  key_kind name = Some (section, kd) -> section = "proxy" \/ section = "settings".
Proof.
  unfold key_kind.
  repeat match goal with
         | |- context [if ?b then _ else _] => destruct b
         end; intros [= <- <-]; auto.
Qed.

(** One call of [cfg_init] that returns has updated the configuration as
    [cfg_store] says. *)
Lemma cfg_init_store (name val : string) (ov : bool) (s s' : State) :
  has_sections (config ext s) ->
  cfg_init ext name val ov s = (inr tt, s') ->
  config ext s' = cfg_store name val ov (config ext s).
Proof.
  intros [[po Hp] [so Hs]]. unfold cfg_init, cfg_store, key_kind, store.
  destruct (str_in name proxy_str_keys).
  { rewrite (cfg_str_init_run _ _ _ _ _ _ _ Hp), Hp. simpl.
    intros H. apply keeps_apply_proc in H. exact H. }
  destruct (str_in name proxy_int_keys).
  { rewrite (cfg_int_init_run _ _ _ _ _ _ _ Hp), Hp. simpl.
    destruct (PyStr.to_int _); intros H; apply keeps_apply_proc in H; exact H. }
  destruct (str_in name settings_int_keys).
  { rewrite (cfg_int_init_run _ _ _ _ _ _ _ Hs), Hs. simpl.
    destruct (PyStr.to_int _); intros H; apply keeps_apply_proc in H; exact H. }
  destruct (str_in name settings_float_keys).
  { rewrite (cfg_float_init_run _ _ _ _ _ _ _ Hs), Hs. simpl.
    destruct (float_of_str ext _); intros H; apply keeps_apply_proc in H; exact H. }
  intros H. inversion H. reflexivity.
Qed.

Lemma for_each_cfg_init_store (l : Dict.t) (ov : bool) (s s' : State) :
  has_sections (config ext s) ->
  for_each l (fun nv => cfg_init ext (fst nv) (snd nv) ov) s = (inr tt, s') ->
  config ext s' = fold_left (fun c nv => cfg_store (fst nv) (snd nv) ov c) l (config ext s).
Proof.
  revert s. induction l as [|[n v] l IH]; simpl; intros s Hs H.
  - inversion H. reflexivity.
  - apply bind_inr in H as ([] & s1 & H1 & H2).
    apply cfg_init_store in H1; [|exact Hs]. simpl in H1.
    rewrite <- H1. apply IH; [|exact H2].
    rewrite H1. apply has_sections_cfg_store, Hs.
Qed.

Lemma has_sections_add (ini : Config) :
  has_sections (add_section "settings" (add_section "proxy" ini)).
Proof.
  unfold has_sections, add_section.
  destruct (ini !! "proxy") eqn:Ep.
  - destruct (ini !! "settings") eqn:Es; split;
      rewrite ?lookup_insert_eq, ?lookup_insert_ne, ?Ep, ?Es by done; eauto.
  - rewrite lookup_insert_ne by done.
    destruct (ini !! "settings") eqn:Es; split;
      rewrite ?lookup_insert_eq, ?lookup_insert_ne, ?lookup_insert_eq, ?Ep, ?Es by done;
      eauto.
Qed.

(** [parse_config_init], when it returns, leaves the configuration
    [config_after] computes. *)
Lemma parse_config_init_config (flags env : Dict.t) (ini : Config) (s s' : State) :
  parse_config_init ext flags env ini s = (inr tt, s') ->
  config ext s' = config_after flags env ini (location ext s).
Proof.
  unfold parse_config_init, config_after. intros H.
  apply bind_inr in H as ([] & s1 & H1 & H). inversion H1; subst s1; clear H1.
  apply bind_inr in H as ([] & s2 & H2 & H).
  apply bind_inr in H as ([] & s3 & H3 & H).
  apply bind_inr in H as (loc & s4 & H4 & H). inversion H4; subst; clear H4.
  apply bind_inr in H as ([] & s5 & H5 & H).
  apply bind_inr in H as ([] & s6 & H6 & H).
  apply bind_inr in H as ([] & s7 & H7 & H).
  assert (E3 : config ext s4 = add_section "settings" (add_section "proxy" ini)
               /\ location ext s4 = location ext s).
  { unfold ensure_section, bind, gets, modify, ret, add_section in *.
    simpl in H2. destruct (ini !! "proxy") eqn:Ep; inversion H2; subst s2; clear H2;
      simpl in H3; simpl;
      match type of H3 with context [match ?x with _ => _ end] => destruct x eqn:Es end;
      inversion H3; subst s4; simpl; rewrite ?Es; auto. }
  destruct E3 as [E3 Eloc].
  pose proof (has_sections_add ini) as Hsec. rewrite <- E3 in Hsec.
  assert (E5 : config ext s5 =
               store "settings" "log" (normal KInt (py_str ext (location ext s))) (config ext s4)).
  { destruct Hsec as [_ [so Hso]].
    rewrite (cfg_int_init_run _ _ _ _ _ _ _ Hso) in H5.
    cbv zeta in H5. unfold value_for, apply_proc in H5. rewrite Eloc in H5.
    unfold store, normal. rewrite Hso.
    destruct (PyStr.to_int (py_str ext (location ext s)));
      inversion H5; reflexivity. }
  assert (Hsec5 : has_sections (config ext s5))
    by (rewrite E5; apply has_sections_store, Hsec).
  pose proof (for_each_cfg_init_store _ _ _ _ Hsec5 H6) as E6.
  assert (Hsec6 : has_sections (config ext s6)).
  { rewrite E6. clear -Hsec5. revert Hsec5. generalize (config ext s5).
    induction defaults as [|x l IH]; simpl; intros c Hc; [exact Hc|].
    apply IH, has_sections_cfg_store, Hc. }
  pose proof (for_each_cfg_init_store _ _ _ _ Hsec6 H7) as E7.
  assert (Hsec7 : has_sections (config ext s7)).
  { rewrite E7. clear -Hsec6. revert Hsec6. generalize (config ext s6).
    induction env as [|x l IH]; simpl; intros c Hc; [exact Hc|].
    apply IH, has_sections_cfg_store, Hc. }
  pose proof (for_each_cfg_init_store _ _ _ _ Hsec7 H) as E8.
  rewrite E8, E7, E6, E5, E3. reflexivity.
Qed.

(** *** Reading the configuration after the passes *)

Lemma lookup2_store_eq (section name v : string) (cfg : Config) :
  is_Some (cfg !! section) -> lookup2 (store section name v cfg) section name = Some v.
Proof.
  intros [opts H]. unfold lookup2, store. rewrite H, lookup_insert_eq. simpl.
  apply lookup_insert_eq.
Qed.

Lemma lookup2_store_ne (section name v section' name' : string) (cfg : Config) :
  name <> name' -> lookup2 (store section name v cfg) section' name' = lookup2 cfg section' name'.
Proof.
  intros Hne. unfold lookup2, store. destruct (cfg !! section) as [opts|] eqn:H; [|reflexivity].
  destruct (decide (section = section')) as [<-|Hs].
  - rewrite lookup_insert_eq, H. simpl. apply lookup_insert_ne, Hne.
  - rewrite lookup_insert_ne by done. reflexivity.
Qed.

Lemma lookup2_add_section (section section' name : string) (cfg : Config) :
  lookup2 (add_section section cfg) section' name = lookup2 cfg section' name.
Proof.
  unfold lookup2, add_section. destruct (cfg !! section) eqn:H; [reflexivity|].
  destruct (decide (section = section')) as [<-|Hs].
  - rewrite lookup_insert_eq, H. reflexivity.
  - rewrite lookup_insert_ne by done. reflexivity.
Qed.

Lemma key_kind_is_Some_section (name section : string) (kd : kind) (cfg : Config) :
  key_kind name = Some (section, kd) -> has_sections cfg -> is_Some (cfg !! section).
Proof.
  intros Hk [Hp Hs]. destruct (key_kind_section _ _ _ Hk) as [-> | ->]; assumption.
Qed.

Lemma lookup2_cfg_store_eq (name val section : string) (kd : kind) (ov : bool) (cfg : Config) :
  has_sections cfg -> key_kind name = Some (section, kd) ->
  lookup2 (cfg_store name val ov cfg) section name =
  Some (normal kd (value_for section name val ov cfg)).
Proof.
  intros Hs Hk. unfold cfg_store. rewrite Hk.
  apply lookup2_store_eq. eapply key_kind_is_Some_section; eassumption.
Qed.

Lemma lookup2_cfg_store_ne (n val section name : string) (ov : bool) (cfg : Config) :
  n <> name -> lookup2 (cfg_store n val ov cfg) section name = lookup2 cfg section name.
Proof.
  intros Hne. unfold cfg_store. destruct (key_kind n) as [[sec kd]|]; [|reflexivity].
  apply lookup2_store_ne, Hne.
Qed.

(** A pass over a dictionary: every key of the dictionary gets its value
    (for the default pass: unless the configuration has one), the other
    keys are left as they were. *)
Lemma lookup2_fold_cfg_store (l : Dict.t) (ov : bool) (cfg : Config)
    (name section : string) (kd : kind) :
  has_sections cfg -> NoDup (Dict.keys l) -> key_kind name = Some (section, kd) ->
  lookup2 (fold_left (fun c nv => cfg_store (fst nv) (snd nv) ov c) l cfg) section name =
  match Dict.get name l with
  | Some v => Some (normal kd (value_for section name v ov cfg))
  | None => lookup2 cfg section name
  end.
Proof.
  intros Hs Hnd Hk. revert cfg Hs.
  induction l as [|[n v] l IH]; simpl; intros cfg Hs; [reflexivity|].
  apply NoDup_cons in Hnd as [Hn Hnd].
  rewrite (IH Hnd) by (apply has_sections_cfg_store, Hs).
  destruct (String.eqb_spec n name) as [->|Hne].
  - apply (proj2 (Dict.get_None_keys name l)) in Hn. rewrite Hn.
    apply lookup2_cfg_store_eq; assumption.
  - rewrite (lookup2_cfg_store_ne n v section name ov cfg Hne).
    destruct (Dict.get name l); [|reflexivity].
    unfold value_for. destruct ov; [reflexivity|].
    rewrite (lookup2_cfg_store_ne n v section name false cfg Hne). reflexivity.
Qed.

Lemma has_sections_fold (l : Dict.t) (ov : bool) (cfg : Config) :
  has_sections cfg ->
  has_sections (fold_left (fun c nv => cfg_store (fst nv) (snd nv) ov c) l cfg).
Proof.
  revert cfg. induction l as [|x l IH]; simpl; intros c Hc; [exact Hc|].
  apply IH, has_sections_cfg_store, Hc.
Qed.

Lemma NoDup_defaults : NoDup (Dict.keys defaults).
Proof. apply (@bool_decide_unpack (NoDup (Dict.keys defaults)) _). vm_compute. exact I. Qed.

(** Every key [cfg_init] knows has a default. *)
Lemma key_kind_default (name section : string) (kd : kind) :
  key_kind name = Some (section, kd) -> is_Some (Dict.get name defaults).
Proof.
  unfold key_kind, str_in, proxy_str_keys, proxy_int_keys, settings_int_keys,
    settings_float_keys; simpl.
  repeat match goal with
         | |- context [String.eqb name ?k] =>
             destruct (String.eqb_spec name k) as [->|?]; simpl; [eauto|]
         end.
  discriminate.
Qed.

(** The value of highest precedence for a key: the CLI flag, else the
    environment variable, else the INI file, else the built-in default. *)
Definition by_precedence (flags env : Dict.t) (ini : Config) (section name : string) : string :=
  match Dict.get name flags with
  | Some v => v
  | None =>
      match Dict.get name env with
      | Some v => v
      | None =>
          match lookup2 ini section name with
          | Some v => PyStr.strip v
          | None => default "" (Dict.get name defaults)
          end
      end
  end.

Lemma lookup2_config_after (flags env : Dict.t) (ini : Config) (loc : pyval)
    (name section : string) (kd : kind) :
  NoDup (Dict.keys flags) -> NoDup (Dict.keys env) ->
  key_kind name = Some (section, kd) -> name <> "log" ->
  lookup2 (config_after flags env ini loc) section name =
  Some (normal kd (by_precedence flags env ini section name)).
Proof.
  intros Hf He Hk Hlog. unfold config_after, by_precedence.
  set (c0 := add_section "settings" (add_section "proxy" ini)).
  set (c1 := store "settings" "log" _ c0).
  assert (Hs1 : has_sections c1) by apply has_sections_store, has_sections_add.
  assert (E1 : lookup2 c1 section name = lookup2 ini section name).
  { unfold c1, c0. rewrite lookup2_store_ne by congruence.
    rewrite !lookup2_add_section. reflexivity. }
  rewrite (lookup2_fold_cfg_store flags true _ name section kd);
    [|repeat apply has_sections_fold; exact Hs1|exact Hf|exact Hk].
  destruct (Dict.get name flags); [reflexivity|].
  rewrite (lookup2_fold_cfg_store env true _ name section kd);
    [|apply has_sections_fold; exact Hs1|exact He|exact Hk].
  destruct (Dict.get name env); [reflexivity|].
  rewrite (lookup2_fold_cfg_store defaults false _ name section kd);
    [|exact Hs1|exact NoDup_defaults|exact Hk].
  destruct (key_kind_default _ _ _ Hk) as [d Hd]. rewrite Hd. simpl.
  unfold value_for. rewrite E1. reflexivity.
Qed.

End ConfigurationStore.

Lemma NoDup_keys_del (k : string) (d : Dict.t) :
  NoDup (Dict.keys d) -> NoDup (Dict.keys (Dict.del k d)).
Proof.
  unfold Dict.del, Dict.keys. induction d as [|[a b] d IH]; simpl; intros H.
  - constructor.
  - apply NoDup_cons in H as [Ha Hd].
    destruct (negb (String.eqb a k)); simpl; [|auto].
    apply NoDup_cons. split; [|auto].
    intros Hin. apply Ha. clear -Hin.
    induction d as [|[c e] d IH]; simpl in *; [exact Hin|].
    destruct (negb (String.eqb c k)); simpl in *.
    + apply elem_of_cons in Hin as [->|Hin]; [left | right; auto].
    + right. auto.
Qed.

Lemma NoDup_keys_parse_cli (argv : list string) : NoDup (Dict.keys (parse_cli argv)).
Proof.
  assert (H : forall d, NoDup (Dict.keys d) -> NoDup (Dict.keys (fold_left cli_step argv d))).
  { induction argv as [|a argv IH]; simpl; intros d Hd; [exact Hd|].
    apply IH. unfold cli_step. destruct (cli_flag a) as [[n v]|]; [|exact Hd].
    apply Dict.NoDup_set, Hd. }
  unfold parse_cli. specialize (H [] (NoDup_nil_2 (A:=string))).
  destruct (Dict.get "proxy" _); [|exact H].
  apply NoDup_keys_del, Dict.NoDup_set, H.
Qed.

Lemma NoDup_keys_parse_env (environ : list (string * string)) :
  NoDup (Dict.keys (parse_env environ)).
Proof.
  assert (H : forall d, NoDup (Dict.keys d) -> NoDup (Dict.keys (fold_left env_step environ d))).
  { induction environ as [|[a b] l IH]; simpl; intros d Hd; [exact Hd|].
    apply IH. destruct (_ && _); [|exact Hd]. apply Dict.NoDup_set, Hd. }
  apply H. constructor.
Qed.

(** *** The rest of [parse_config] *)

(** [sys.argv] after the debug options have been looked at. *)
Definition argv_after_debug (argv : list string) : list string :=
  if str_in "--debug" argv then argv
  else if str_in "--uniqlog" argv then argv
  else if str_in "--verbose" argv then
         (if str_in "--foreground" argv then argv else (argv ++ ["--foreground"])%list)
  else argv.

Lemma parse_config_debug_inr (ext : Externals) (argv argv' : list string) (s s' : State ext) :
  parse_config_debug ext argv s = (inr argv', s') -> argv' = argv_after_debug argv.
Proof.
  unfold parse_config_debug, argv_after_debug.
  destruct (str_in "--debug" argv).
  { intros H. apply bind_inr in H as (? & ? & _ & H). inversion H. reflexivity. }
  destruct (str_in "--uniqlog" argv).
  { intros H. apply bind_inr in H as (? & ? & _ & H). inversion H. reflexivity. }
  destruct (str_in "--verbose" argv).
  { intros H. apply bind_inr in H as (? & ? & _ & H). inversion H. reflexivity. }
  intros H. inversion H. reflexivity.
Qed.

Lemma config_get_inr (ext : Externals) (section name v : string) (s s' : State ext) :
  config_get ext section name s = (inr v, s') ->
  s' = s /\ lookup2 (config ext s) section name = Some v.
Proof.
  unfold config_get, lookup2, bind, gets, ret, raise.
  destruct (config ext s !! section) as [opts|]; simpl; [|discriminate].
  destruct (opts !! name); simpl; [|discriminate].
  intros H. inversion H. auto.
Qed.

Lemma config_getint_inr (ext : Externals) (section name : string) (n : Z) (s s' : State ext) :
  config_getint ext section name s = (inr n, s') ->
  s' = s /\ lookup2 (config ext s) section name ≫= PyStr.to_int = Some n.
Proof.
  unfold config_getint. intros H. apply bind_inr in H as (v & s1 & H1 & H).
  apply config_get_inr in H1 as [-> H1]. rewrite H1. simpl.
  destruct (PyStr.to_int v); inversion H. auto.
Qed.

(** Hostonly mode is on: [State.config.getint("proxy", "hostonly") == 1]. *)
Definition hostonly_on (cfg : Config) : Prop :=
  lookup2 cfg "proxy" "hostonly" ≫= PyStr.to_int = Some 1.

Lemma keeps_gateway_branch (ext : Externals) (gateway : Z) (allow_rule : string) :
  keeps_config ext
    (if gateway =? 1
     then (modify (with_listen ext [""]) ;;
           dprint ext "Gateway mode - overriding 'listen' and binding to all interfaces" ;;
           (if str_in allow_rule ["*.*.*.*"; "0.0.0.0/0"]
            then dprint ext "Configure 'allow' to restrict access to trusted subnets"
            else ret tt))%monad
     else ret tt).
Proof.
  repeat first [ apply keeps_ret | apply keeps_dprint
               | apply keeps_modify; intros; reflexivity
               | apply keeps_bind; [|intros] | apply keeps_if ].
Qed.

(** The dependency propagation writes at most the option [allow], and
    nothing when hostonly mode is off. *)
Lemma parse_config_propagate_config (ext : Externals) (s s' : State ext) :
  parse_config_propagate ext s = (inr tt, s') ->
  (forall section name, name <> "allow" ->
     lookup2 (config ext s') section name = lookup2 (config ext s) section name)
  /\ (~ hostonly_on (config ext s) -> config ext s' = config ext s).
Proof.
  unfold parse_config_propagate. intros H.
  apply bind_inr in H as (gateway & s1 & H1 & H).
  apply config_getint_inr in H1 as [-> _].
  apply bind_inr in H as (allow_rule & s2 & H2 & H).
  apply config_get_inr in H2 as [-> _].
  apply bind_inr in H as ([] & s3 & H3 & H).
  apply keeps_gateway_branch in H3.
  apply bind_inr in H as (h & s4 & H4 & H).
  apply config_getint_inr in H4 as [-> H4]. rewrite H3 in H4.
  destruct (Z.eqb_spec h 1) as [->|Hh].
  - split; [|intros Hoff; contradiction].
    apply bind_inr in H as ([] & s5 & H5 & H). inversion H5; subst s5; clear H5.
    apply bind_inr in H as ([] & s6 & H6 & H). inversion H6; subst s6; clear H6.
    apply bind_inr in H as ([] & s7 & H7 & H). apply keeps_dprint in H7.
    apply bind_inr in H as ([] & s8 & H8 & H). apply keeps_dprint in H8.
    simpl in H7. rewrite H7 in H8. clear H7.
    intros section name Hne. rewrite <- H3, <- H8.
    destruct ((gateway =? 0) || _).
    + apply bind_inr in H as ([] & s9 & H9 & H). apply keeps_dprint in H. rewrite H.
      destruct (config ext s8 !! "proxy") as [opts|] eqn:Hp.
      * rewrite (cfg_str_init_run ext _ _ _ _ _ _ _ Hp) in H9. simpl in H9.
        assert (K : keeps_config ext (set_allow ext (PStr "")))
          by (unfold set_allow; apply keeps_modify; intros; reflexivity).
        apply K in H9. rewrite H9. simpl.
        unfold lookup2. destruct (decide ("proxy" = section)) as [<-|Hs].
        -- rewrite lookup_insert_eq, Hp. simpl. apply lookup_insert_ne. congruence.
        -- rewrite lookup_insert_ne by done. reflexivity.
      * exfalso. unfold cfg_str_init in H9.
        apply bind_inr in H9 as (? & ? & Hx & H9). inversion Hx; subst; clear Hx.
        apply bind_inr in H9 as (? & ? & Hy & _). unfold config_set in Hy.
        apply bind_inr in Hy as (c & ? & Hc & Hy). inversion Hc; subst; clear Hc.
        rewrite Hp in Hy. discriminate Hy.
    + inversion H. reflexivity.
  - unfold hostonly_on. inversion H; subst s'. split.
    + intros section name _. rewrite H3. reflexivity.
    + intros _. exact H3.
Qed.

(** ** Multi-processing and multi-threading: admission *)

Section Admission.

Context (ext : Externals).

#[local] Abbreviation State := (State ext).







End Admission.

(** ** Proxy handler *)

(** [p in s] for strings *)
Fixpoint substr_in (p s : string) : bool :=
  PyStr.startswith p s ||
  match s with
  | EmptyString => false
  | String _ s' => substr_in p s'
  end.

(** An upstream entry: [(host, port)]. *)
Definition upstream : Type := string * Z.

(** The request [BaseHTTPRequestHandler.parse_request] has accepted:
    [self.path], [self.command], [self.request_version]. *)
Record Request : Type := {
  path : string;
  command : string;
  request_version : string
}.

(** The easy handle [self.curl]: the request it was created or reset for,
    and the proxy [set_proxy] has configured on it. *)
Record Curl : Type := {
  c_url : string;
  c_method : string;
  c_proxy : option upstream
}.

(** Modelled from the spec: [mcurl.Curl.is_connect], of the module [mcurl]
    that is not part of the sources at hand; it tells whether the method of
    the request is [CONNECT]. *)
Definition is_connect (c : Curl) : bool := String.eqb (c_method c) "CONNECT".

Section Handler.

Context (ext : Externals).

#[local] Abbreviation State := (State ext).
#[local] Abbreviation pyval := (pyval ext).

(** The calls a request makes outside of [Proxy]: to the easy handle, to
    the multi object [State.mcurl], to [wproxy], [keyring] and to the
    response methods of [BaseHTTPRequestHandler]. *)
Inductive event : Type :=
| Dprint (line : string)
| CurlNew (url method version : string) (timeout : pyval)
| CurlReset (url method version : string) (timeout : pyval)
| ReloadProxy
| FindProxyForUrl (url : string)
| SetProxy (server : string) (port : Z) (noproxy : option string)
| KeyringGetPassword (service key : string)
| SetAuth (user : string) (password : option string) (auth_ : string)
| SetDebug (on : bool)
| Bridge
| SetHeaders
| SetTransferDecoding (on : bool)
| SetUseragent (ua : string)
| McurlDo
| McurlSelect (idle_ : pyval)
| McurlRemove
| McurlStop
| SendError (code : Z) (message : string)
| SendResponse (code : Z) (message : string)
| SendHeader (keyword value : string)
| EndHeaders
| WfileFlush.

(** What the collaborators answer during one connection. [fault] tells,
    from the calls made so far and the call being made, whether this call
    raises. *)
Record World : Type := {
  platform : string;                                   (* [sys.platform] *)
  PX_PASSWORD : option string;                         (* [os.environ] *)
  keyring_get_password : string -> string -> option string;
  easyhash : string;                                   (* [self.curl.easyhash] *)
  DIRECT : upstream;                                   (* [wproxy.DIRECT] *)
  find_proxy_for_url : string -> list upstream * string * string;
  str_servers : list upstream -> string;               (* [str(servers)] *)
  noproxy_hosts : list string;                         (* [State.wproxy.noproxy_hosts] *)
  set_proxy : string -> Z -> option string -> bool;    (* [self.curl.set_proxy(...)] *)
  mcurl_do : Curl -> bool;                             (* [State.mcurl.do(self.curl)] *)
  resp : Curl -> Z;                                    (* [self.curl.resp] *)
  errstr : Curl -> string;                             (* [self.curl.errstr] *)
  version_string : string;                             (* [self.version_string()] *)
  fault : list event -> event -> option exn
}.

(** The attributes of the [Proxy] instance the handler writes, and the
    calls it has made. *)
Record Handler : Type := mkHandler {
  curl : option Curl;
  proxy_servers : list upstream;
  close_connection : bool;
  trace : list event
}.

Definition with_curl (x : option Curl) (h : Handler) : Handler :=
  mkHandler x (proxy_servers h) (close_connection h) (trace h).
Definition with_proxy_servers (x : list upstream) (h : Handler) : Handler :=
  mkHandler (curl h) x (close_connection h) (trace h).
Definition with_close_connection (x : bool) (h : Handler) : Handler :=
  mkHandler (curl h) (proxy_servers h) x (trace h).
Definition with_trace (x : list event) (h : Handler) : Handler :=
  mkHandler (curl h) (proxy_servers h) (close_connection h) x.

Context (st : State) (w : World).

Local Open Scope monad_scope.

(** A call is recorded, then it returns or raises. *)
Definition call (e : event) : M Handler unit :=
  fun h =>
    let h' := with_trace (trace h ++ [e])%list h in
    match fault w (trace h) e with
    | Some x => (inl x, h')
    | None => (inr tt, h')
    end.

(** [dprint(line)] *)
Definition hprint (line : string) : M Handler unit :=
  modify (fun h => with_trace (trace h ++ [Dprint line])%list h).

(** [self.send_error(code, message)], of the standard library: the
    response carries [Connection: close], and sending that header sets
    [close_connection] before anything is written. *)
Definition send_error (code : Z) (message : string) : M Handler unit :=
  modify (with_close_connection true) ;;
  call (SendError code message).

Definition upstream_eqb (a b : upstream) : bool :=
  String.eqb (fst a) (fst b) && (snd a =? snd b).

(** The URL given to [find_proxy_for_url]. *)
Definition request_url (req : Request) : string :=
  (if substr_in "://" (path req) then "" else "https://") ++ path req.

(** [",".join(State.wproxy.noproxy_hosts) or None] *)
Definition noproxy_arg : option string :=
  let joined := PyStr.join "," (noproxy_hosts w) in
  if String.eqb joined "" then None else Some joined.

(** [Proxy.get_destination]: [Some netloc] for a direct connection, [None]
    when the request goes through the proxy servers it has stored. *)
Definition get_destination (req : Request) : M Handler (option string) :=
  (* Reload proxy info if timeout exceeded *)
  call ReloadProxy ;;
  (* Find proxy *)
  let url := request_url req in
  call (FindProxyForUrl url) ;;
  let '(servers, netloc, _) := find_proxy_for_url w url in
  match servers with
  | [] => raise IndexError
  | first :: _ =>
      if upstream_eqb first (DIRECT w) then
        hprint (easyhash w ++ ": Direct connection") ;;
        ret (Some netloc)
      else
        hprint (easyhash w ++ ": Proxy = " ++ str_servers w servers) ;;
        modify (with_proxy_servers servers) ;;
        ret None
  end.

(** The branch [if ipport is None] of [do_curl]. The result tells whether
    [do_curl] goes on ([true]) or has returned ([false]). *)
Definition configure_proxy : M Handler bool :=
  hprint (easyhash w ++ ": Configuring proxy settings") ;;
  servers <- gets proxy_servers ;;
  match servers with
  | [] => raise IndexError
  | (server, port) :: _ =>
      let noproxy_hosts_ := noproxy_arg in
      call (SetProxy server port noproxy_hosts_) ;;
      if negb (set_proxy w server port noproxy_hosts_) then
        (* Proxy server has had auth issues so returning failure to client *)
        send_error 401
          ("Proxy server authentication failed: " ++ server ++ ":" ++ PyStr.of_Z port) ;;
        ret false
      else
        modify (fun h => with_curl
                  (option_map (fun c => Build_Curl (c_url c) (c_method c) (Some (server, port)))
                     (curl h)) h) ;;
        kp <- (if negb (String.length (username ext st) =? 0)%nat then
                 match PX_PASSWORD w with
                 | Some p => ret (username ext st, Some p)
                 | None =>
                     call (KeyringGetPassword "Px" (username ext st)) ;;
                     ret (username ext st, keyring_get_password w "Px" (username ext st))
                 end
               else ret ("", None)) ;;
        let '(key, pwd) := kp in
        if (String.length key =? 0)%nat then
          if String.eqb (platform w) "win32" then
            hprint (easyhash w ++ ": Using SSPI to login") ;;
            call (SetAuth ":" pwd (auth ext st)) ;;
            ret true
          else
            hprint "SSPI not available and no username configured" ;;
            send_error 501 "SSPI not available and no username configured" ;;
            ret false
        else
          call (SetAuth key pwd (auth ext st)) ;;
          ret true
  end.

(** The part of [do_curl] after the proxy settings. *)
Definition perform_request : M Handler unit :=
  (* Set debug mode *)
  call (SetDebug (debug ext st)) ;;
  c <- gets curl ;;
  let connect := match c with Some c => is_connect c | None => false end in
  (* Plain HTTP can be bridged directly *)
  (if negb connect then call Bridge else ret tt) ;;
  (* Set headers for request *)
  call SetHeaders ;;
  (* Turn off transfer decoding *)
  call (SetTransferDecoding false) ;;
  (* Set user agent if configured *)
  call (SetUseragent (useragent ext st)) ;;
  call McurlDo ;;
  (match c with
   | Some c =>
       if negb (mcurl_do w c) then
         hprint (easyhash w ++ ": Connection failed: " ++ errstr w c) ;;
         send_error (resp w c) (errstr w c)
       else if connect then
         hprint (easyhash w ++ ": SSL connected") ;;
         call (SendResponse 200 "Connection established") ;;
         call (SendHeader "Proxy-Agent" (version_string w)) ;;
         call EndHeaders ;;
         call (McurlSelect (idle ext st)) ;;
         modify (with_close_connection true)
       else ret tt
   | None => raise (OtherError "AttributeError")
   end) ;;
  call McurlRemove.

(** [Proxy.do_curl] *)
Definition do_curl (req : Request) : M Handler unit :=
  c <- gets curl ;;
  (match c with
   | None =>
       call (CurlNew (path req) (command req) (request_version req) (socktimeout ext st))
   | Some _ =>
       call (CurlReset (path req) (command req) (request_version req) (socktimeout ext st))
   end) ;;
  modify (with_curl (Some (Build_Curl (path req) (command req) None))) ;;
  hprint (easyhash w ++ ": Path = " ++ path req) ;;
  ipport <- get_destination req ;;
  proceed <- match ipport with
             | None => configure_proxy
             | Some _ => hprint (easyhash w ++ ": Skipping auth proxying") ;; ret true
             end ;;
  if proceed : bool then perform_request else ret tt.

(** The attributes of a [Proxy] instance whose name starts with [do_]:
    the methods of the class, none is inherited or set on the instance.
    Each of them is [do_curl] or calls it and does nothing else. *)
Definition do_methods : list string :=
  ["do_curl"; "do_GET"; "do_HEAD"; "do_POST"; "do_PUT"; "do_DELETE"; "do_PATCH";
   "do_CONNECT"].

(** The methods of HTTP among them. *)
Definition proxy_methods : list string :=
  ["GET"; "HEAD"; "POST"; "PUT"; "DELETE"; "PATCH"; "CONNECT"].

(** [except TimeoutError] of [BaseHTTPRequestHandler.handle_one_request]:
    the error is logged and the connection is to be closed. *)
Definition on_timeout (e : exn) : option (M Handler unit) :=
  match e with
  | TimeoutError msg =>
      Some (hprint ("Request timed out: " ++ msg) ;;
            modify (with_close_connection true))
  | _ => None
  end.

(** [BaseHTTPRequestHandler.handle_one_request] of the standard library,
    from the point where the request is parsed: the method is looked up
    by name ([hasattr(self, mname)]); without it the request is answered
    501 and the function returns, with it the method runs and the reply
    is flushed. A timeout closes the connection. *)
Definition base_handle_one_request (req : Request) : M Handler unit :=
  try_except
    (let mname := "do_" ++ command req in
     if negb (str_in mname do_methods) then
       send_error 501 ("Unsupported method (" ++ PyStr.repr (command req) ++ ")")
     else
       do_curl req ;;
       (* actually send the response if not already done *)
       call WfileFlush)
    on_timeout.

(** [except socket.error as error] of [Proxy.handle_one_request].
    [socket.error] is [OSError], of which [ConnectionError] and
    [TimeoutError] are subclasses: this clause takes them all and the
    clause [except ConnectionError] after it is never reached. *)
Definition on_socket_error (e : exn) : option (M Handler unit) :=
  let handler (msg : string) : M Handler unit :=
    modify (with_close_connection true) ;;
    c <- gets curl ;;
    match c with
    | Some _ =>
        call McurlStop ;;
        modify (with_curl None) ;;
        hprint (easyhash w ++ ": " ++ "Socket error: " ++ msg)
    | None => hprint ("Socket error: " ++ msg)
    end in
  match e with
  | OSError msg | ConnectionError msg | TimeoutError msg => Some (handler msg)
  | _ => None
  end.

(** [Proxy.handle_one_request] *)
Definition handle_one_request (req : Request) : M Handler unit :=
  try_except (base_handle_one_request req) on_socket_error.

(** [BaseHTTPRequestHandler.handle] of the standard library: requests are
    handled on the connection until [close_connection] is set. Each
    request comes with the value [parse_request] gives [close_connection]
    ([false] for a keep-alive request). *)
Fixpoint handle (reqs : list (Request * bool)) : M Handler unit :=
  match reqs with
  | [] => ret tt
  | (req, close) :: rest =>
      modify (with_close_connection close) ;;
      handle_one_request req ;;
      cc <- gets close_connection ;;
      if cc : bool then ret tt else handle rest
  end.

End Handler.

Arguments Dprint {ext}.
Arguments ReloadProxy {ext}.
Arguments FindProxyForUrl {ext}.
Arguments SetProxy {ext}.
Arguments KeyringGetPassword {ext}.
Arguments SetAuth {ext}.
Arguments SetDebug {ext}.
Arguments Bridge {ext}.
Arguments SetHeaders {ext}.
Arguments SetTransferDecoding {ext}.
Arguments SetUseragent {ext}.
Arguments McurlDo {ext}.
Arguments McurlSelect {ext}.
Arguments McurlRemove {ext}.
Arguments McurlStop {ext}.
Arguments SendError {ext}.
Arguments SendResponse {ext}.
Arguments SendHeader {ext}.
Arguments EndHeaders {ext}.
Arguments WfileFlush {ext}.
Arguments CurlNew {ext}.
Arguments CurlReset {ext}.

(** *** Reading a trace *)

Section Traces.

Context {ext : Externals}.

#[local] Abbreviation event := (event ext).

Definition is_McurlDo (e : event) : bool :=
  match e with McurlDo => true | _ => false end.

Definition is_McurlRemove (e : event) : bool :=
  match e with McurlRemove => true | _ => false end.

Definition is_SetAuth (e : event) : bool :=
  match e with SetAuth _ _ _ => true | _ => false end.

Definition is_SetProxy (e : event) : bool :=
  match e with SetProxy _ _ _ => true | _ => false end.

(** The upstream is contacted by [State.mcurl.do] and by the splice
    [State.mcurl.select]. *)
Definition contacts_upstream (e : event) : bool :=
  match e with McurlDo | McurlSelect _ => true | _ => false end.

Definition is_SendError (code : Z) (e : event) : bool :=
  match e with SendError c _ => c =? code | _ => false end.

(** [SetProxy] calls name the proxy [up] only. *)
Definition only_proxy (up : upstream) (e : event) : bool :=
  match e with
  | SetProxy server port _ => upstream_eqb (server, port) up
  | _ => true
  end.

(** A monitor for the CONNECT reply: [stage] counts how much of
    [send_response(200, "Connection established")],
    [send_header("Proxy-Agent", ...)], [end_headers()] has been seen, in
    this order; the splice may only start at stage 3. *)
Fixpoint reply_before_splice (stage : nat) (evs : list event) : bool :=
  match evs with
  | [] => true
  | e :: rest =>
      match e with
      | SendResponse code message =>
          if (code =? 200) && String.eqb message "Connection established" && (stage =? 0)%nat
          then reply_before_splice 1 rest else reply_before_splice stage rest
      | SendHeader keyword _ =>
          if String.eqb keyword "Proxy-Agent" && (stage =? 1)%nat
          then reply_before_splice 2 rest else reply_before_splice stage rest
      | EndHeaders =>
          if (stage =? 2)%nat then reply_before_splice 3 rest
          else reply_before_splice stage rest
      | McurlSelect _ => (stage =? 3)%nat && reply_before_splice stage rest
      | _ => reply_before_splice stage rest
      end
  end.

(** The last [n] calls of a trace. *)
Definition last_calls (n : nat) (evs : list event) : list event :=
  drop (length evs - n) evs.

End Traces.

(** Symbolic run of the handler: the monad is unfolded, every call is
    split into the case where it returns and the case where it raises, and
    every answer of a collaborator that [known] does not settle is split
    into its cases. *)
Ltac hsimp :=
  cbv beta iota zeta delta
    [bind ret gets modify raise call hprint send_error try_except
     trace curl proxy_servers close_connection
     with_trace with_curl with_proxy_servers with_close_connection
     fst snd option_map negb is_connect c_method c_proxy c_url].

Ltac hsplit :=
  match goal with
  | |- context [fault ?x ?w ?t ?e] => destruct (fault x w t e) eqn:?
  | |- context [find_proxy_for_url ?x ?w ?u] =>
      destruct (find_proxy_for_url x w u) as [[[|[? ?] ?] ?] ?] eqn:?
  | |- context [upstream_eqb ?a ?b] => destruct (upstream_eqb a b) eqn:?
  | |- context [set_proxy ?x ?w ?a ?b ?c] => destruct (set_proxy x w a b c) eqn:?
  | |- context [PX_PASSWORD ?x ?w] => destruct (PX_PASSWORD x w) eqn:?
  | |- context [String.eqb (platform ?x ?w) ?s] =>
      destruct (String.eqb (platform x w) s) eqn:?
  | |- context [Nat.eqb (String.length (username ?x ?s)) 0] =>
      destruct (Nat.eqb (String.length (username x s)) 0) eqn:?
  | |- context [mcurl_do ?x ?w ?c] => destruct (mcurl_do x w c) eqn:?
  | |- context [String.eqb (command ?r) ?s] => destruct (String.eqb (command r) s) eqn:?
  end.

Ltac run_handler known :=
  repeat first
    [ progress hsimp
    | progress known
    | progress change (Nat.eqb (String.length "") 0) with true
    | progress change (String.eqb "CONNECT" "CONNECT") with true
    | hsplit ].

(** A trace [(t ++ [e1]) ++ [e2] ...] is put as [t ++ [e1; e2; ...]]. *)
Ltac flat_trace := rewrite <- ?app_assoc; cbn [app].

(** *** Example worlds *)

(** A proxy list answered for every URL, the proxies on which the
    configure step fails and those that cannot be reached; no call
    raises. *)
Definition world0 (servers : list upstream) (rejected unreachable : list upstream)
    (plat : string) (pw : option string) : World ext0 :=
  {| platform := plat;
     PX_PASSWORD := pw;
     keyring_get_password := fun _ _ => None;
     easyhash := "easy1";
     DIRECT := ("DIRECT", 0);
     find_proxy_for_url := fun _ => (servers, "example.com:443", "/");
     str_servers := fun l => PyStr.join ", " (map fst l);
     noproxy_hosts := [];
     set_proxy := fun server port _ => negb (existsb (upstream_eqb (server, port)) rejected);
     mcurl_do := fun c =>
       match c_proxy c with
       | Some p => negb (existsb (upstream_eqb p) unreachable)
       | None => true
       end;
     resp := fun _ => 503;
     errstr := fun _ => "Connection refused";
     version_string := "BaseHTTP/0.6 Python/3.11";
     fault := fun _ _ => None |}.

Definition handler0 : Handler ext0 :=
  {| curl := None; proxy_servers := []; close_connection := false; trace := [] |}.

Definition get_request : Request :=
  {| path := "http://example.com/"; command := "GET"; request_version := "HTTP/1.1" |}.

Definition connect_request : Request :=
  {| path := "example.com:443"; command := "CONNECT"; request_version := "HTTP/1.1" |}.

(** The proxies [set_proxy] was called with, in order. *)
Definition proxies_set {ext : Externals} (evs : list (event ext)) : list upstream :=
  omap (fun e => match e with SetProxy server port _ => Some (server, port) | _ => None end) evs.

(** How often [State.mcurl.do] was called. *)
Definition do_count {ext : Externals} (evs : list (event ext)) : nat :=
  length (List.filter is_McurlDo evs).

Definition is_splice {ext : Externals} (e : event ext) : bool :=
  match e with McurlSelect _ => true | _ => false end.

Lemma reply_before_splice_no_splice {ext : Externals} (evs : list (event ext)) (stage : nat) :
  existsb is_splice evs = false -> reply_before_splice stage evs = true.
Proof.
  revert stage. induction evs as [|e evs IH]; intros stage H; [reflexivity|].
  simpl in H. apply orb_false_iff in H as [He H].
  destruct e; simpl; try discriminate He;
    repeat match goal with |- context [if ?b then _ else _] => destruct b end;
    apply IH, H.
Qed.

Lemma reply_before_splice_app {ext : Externals} (evs evs' : list (event ext)) (stage : nat) :
  reply_before_splice stage evs = true -> existsb is_splice evs' = false ->
  reply_before_splice stage (evs ++ evs') = true.
Proof.
  intros H H'. revert stage H. induction evs as [|e evs IH]; intros stage H.
  - apply reply_before_splice_no_splice, H'.
  - destruct e; simpl in *;
      repeat match goal with
             | |- context [if ?b then _ else _] => destruct b
             end;
      try (apply IH, H).
    apply andb_true_iff in H as [H1 H2]. rewrite H1. simpl. apply IH, H2.
Qed.

(** [holds P x] keeps a single copy of the run [x] while it is unfolded. *)
Definition holds {A : Type} (P : A -> Prop) (x : A) : Prop := P x.

Ltac focus_on t :=
  match goal with
  | |- ?G =>
      match eval pattern t in G with
      | ?P _ => change (holds P t)
      end
  end.

Ltac unfocus := unfold holds; hsimp.

(** Closes a case in which a call has raised although none does. *)
Ltac no_fault Hnf :=
  match goal with
  | H : fault _ _ _ _ = Some _ |- _ => rewrite Hnf in H; discriminate H
  end.
(** ** Servers, worker processes and their sockets *)

Lemma config_getint_run (ext : Externals) (s : State ext) (section name v : string) (n : Z) :
  lookup2 (config ext s) section name = Some v ->
  PyStr.to_int v = Some n ->
  config_getint ext section name s = (inr n, s).
Proof.
  intros Hl Hn. unfold config_getint, config_get, bind, gets, ret, raise.
  unfold lookup2 in Hl.
  destruct (config ext s !! section) as [opts|]; [|discriminate Hl]. simpl in Hl.
  rewrite Hl, Hn. reflexivity.
Qed.

Module Pool.

(** A server address [(listen, port)]; a listening socket is named by the
    address the parent process has bound it to. *)
Definition address : Type := string * Z.

(** A [ThreadedTCPServer]: its [server_address] and its [socket]. *)
Record Httpd : Type := mkHttpd {
  server_address : address;
  socket : address
}.

(** What [run_pool] and [start_worker] do outside of [State]. *)
Inductive event : Type :=
| Bind (a : address)                      (* [TCPServer.__init__]: bind and listen *)
| Banner (a : address)                    (* [print_banner(listen, port)] *)
| ProcessStart (child : nat)              (* [multiprocessing.Process(...).start()] *)
| PipeSend (child : nat) (sock : address) (* [pipein.send(...)] *)
| ThreadStart (h : Httpd)                 (* [threading.Thread(target = serve_forever)] *)
| ServeForever (h : Httpd).               (* [serve_forever(httpd)] in the main thread *)

Section Run.

Context (ext : Externals).

(** The platform the process runs on. *)
Record Host : Type := {
  sys_platform : string;                        (* [sys.platform] *)
  has_fromshare : bool;                         (* [hasattr(socket, "fromshare")] *)
  (** [str(exc)] of the [OSError] binding an address raises, if it does *)
  bind_error : address -> option string
}.

Context (host : Host).

Record Proc : Type := mkProc {
  state : State ext;
  calls : list event
}.

Local Open Scope monad_scope.

(** A computation on [State], run in the process. *)
Definition in_state {A : Type} (m : M (State ext) A) : M Proc A :=
  fun p => let (r, s') := m (state p) in (r, mkProc s' (calls p)).

Definition emit (e : event) : M Proc unit :=
  modify (fun p => mkProc (state p) (calls p ++ [e])%list).

(** The thread pool of [ThreadedTCPServer.__init__]: the [except] clause
    repeats what the [try] has done without the thread name, so an
    exception of [getint] or of [ThreadPoolExecutor] (which wants a
    positive [max_workers]) is raised again. *)
Definition make_thread_pool : M Proc unit :=
  threads <- in_state (config_getint ext "settings" "threads") ;;
  if threads <=? 0 then raise (ValueError "max_workers must be greater than 0")
  else ret tt.

(** The loop [for listen in State.listen] of [run_pool]; [None] when the
    function has returned from inside the loop. *)
Fixpoint bind_all (port : Z) (listens : list string) (httpds : list Httpd)
  : M Proc (option (list Httpd)) :=
  match listens with
  | [] => ret (Some httpds)
  | listen :: rest =>
      (* Setup server for each listen address *)
      emit (Bind (listen, port)) ;;
      match bind_error host (listen, port) with
      | Some exc =>
          (if substr_in "attempt was made" exc
           then in_state (pprint ext "Px failed to start - port in use")
           else in_state (pprint ext exc)) ;;
          ret None
      | None =>
          make_thread_pool ;;
          emit (Banner (listen, port)) ;;
          bind_all port rest (httpds ++ [mkHttpd (listen, port) (listen, port)])%list
      end
  end.

(** [start_httpds] *)
Definition start_httpds (httpds : list Httpd) : M Proc unit :=
  (* Start server in a thread for each listen address *)
  for_each (removelast httpds) (fun httpd => emit (ThreadStart httpd)) ;;
  (* Start server in main thread for last listen address *)
  match last httpds with
  | Some httpd => emit (ServeForever httpd)
  | None => raise IndexError
  end.

(** One round of [for i in range(workers-1)]; [p.pid] is set when
    [p.start()] has returned, the loop that waits for it is not entered. *)
Definition start_child (mainsocks : list address) (i : nat) : M Proc unit :=
  emit (ProcessStart i) ;;
  for_each mainsocks (fun mainsock => emit (PipeSend i mainsock)).

(** [run_pool] *)
Definition run_pool : M Proc unit :=
  port <- in_state (config_getint ext "proxy" "port") ;;
  listens <- gets (fun p => listen ext (state p)) ;;
  bound <- bind_all port listens [] ;;
  match bound with
  | None => ret tt
  | Some httpds =>
      let mainsocks := map socket httpds in
      (if negb (String.eqb (sys_platform host) "darwin")
          && (String.eqb (sys_platform host) "linux" || has_fromshare host)
       then
         workers <- in_state (config_getint ext "settings" "workers") ;;
         for_each (seq 0 (Z.to_nat (workers - 1))) (start_child mainsocks)
       else ret tt) ;;
      start_httpds httpds
  end.



(** The servers of the addresses [listens] on the port [port], each on
    its own socket. *)
Definition servers (port : Z) (listens : list string) : list Httpd :=
  map (fun l => mkHttpd (l, port) (l, port)) listens.





(** *** Runs *)

Lemma emit_run (e : event) (p : Proc) :
  emit e p = (inr tt, mkProc (state p) (calls p ++ [e])).
Proof. reflexivity. Qed.

Lemma in_state_run {A : Type} (m : M (State ext) A) (p : Proc) (a : A) :
  m (state p) = (inr a, state p) -> in_state m p = (inr a, p).
Proof. intros H. unfold in_state. rewrite H. destruct p; reflexivity. Qed.

Lemma for_each_emit {A : Type} (f : A -> event) (l : list A) (p : Proc) :
  for_each l (fun x => emit (f x)) p = (inr tt, mkProc (state p) (calls p ++ map f l)).
Proof.
  revert p. induction l as [|x l IH]; intros p; simpl.
  - rewrite app_nil_r. destruct p; reflexivity.
  - unfold bind. rewrite emit_run, IH. simpl. rewrite <- app_assoc. reflexivity.
Qed.






(** The calls that start [n] children on the sockets [socks]. *)
Definition spawns (socks : list address) (first n : nat) : list event :=
  flat_map (fun i => ProcessStart i :: map (PipeSend i) socks) (seq first n).

Lemma start_children_run (socks : list address) (first n : nat) (p : Proc) :
  for_each (seq first n) (start_child socks) p =
  (inr tt, mkProc (state p) (calls p ++ spawns socks first n)).
Proof.
  revert first p. induction n as [|n IH]; intros first p; simpl.
  - unfold spawns. simpl. rewrite app_nil_r. destruct p; reflexivity.
  - unfold bind at 1. unfold start_child at 1, bind at 1. rewrite emit_run, for_each_emit.
    cbn [state calls]. rewrite IH. cbn [state calls].
    unfold spawns. simpl. rewrite <- !app_assoc. reflexivity.
Qed.











Lemma spawns_S (socks : list address) (first n : nat) :
  spawns socks first (S n) =
  ProcessStart first :: (map (PipeSend first) socks ++ spawns socks (S first) n)%list.
Proof. reflexivity. Qed.













(** Whether [run_pool] starts worker processes on this platform. *)
Definition multiprocess : bool :=
  negb (String.eqb (sys_platform host) "darwin")
  && (String.eqb (sys_platform host) "linux" || has_fromshare host).

(** *** What the servers leave of [State]

    [run_pool] reads the configuration and prints; it writes no
    attribute of [State]. *)
Definition prints {A : Type} (m : M Proc A) : Prop :=
  forall p r q, m p = (r, q) -> exists out, state q = with_stdout ext out (state p).

Lemma prints_refl (s : State ext) : s = with_stdout ext (stdout ext s) s.
Proof. destruct s; reflexivity. Qed.

Lemma prints_ret {A : Type} (a : A) : prints (ret a).
Proof. intros p r q [= <- <-]. eexists. apply prints_refl. Qed.

Lemma prints_raise {A : Type} (e : exn) : prints (@raise Proc A e).
Proof. intros p r q [= <- <-]. eexists. apply prints_refl. Qed.

Lemma prints_gets {A : Type} (f : Proc -> A) : prints (gets f).
Proof. intros p r q [= <- <-]. eexists. apply prints_refl. Qed.

Lemma prints_emit (e : event) : prints (emit e).
Proof. intros p r q [= <- <-]. eexists. apply prints_refl. Qed.

Lemma prints_bind {A B : Type} (m : M Proc A) (f : A -> M Proc B) :
  prints m -> (forall a, prints (f a)) -> prints (bind m f).
Proof.
  intros Hm Hf p r q. unfold bind.
  destruct (m p) as [[e|a] p1] eqn:E; intros H.
  - inversion H; subst. exact (Hm _ _ _ E).
  - destruct (Hm _ _ _ E) as (out1 & E1). destruct (Hf a _ _ _ H) as (out2 & E2).
    exists out2. rewrite E2, E1. reflexivity.
Qed.

Lemma prints_if {A : Type} (b : bool) (m1 m2 : M Proc A) :
  prints m1 -> prints m2 -> prints (if b then m1 else m2).
Proof. destruct b; auto. Qed.

Lemma prints_for_each {A : Type} (l : list A) (body : A -> M Proc unit) :
  (forall x, prints (body x)) -> prints (for_each l body).
Proof.
  intros Hb. induction l as [|x l IH]; simpl.
  - apply prints_ret.
  - apply prints_bind; [apply Hb | intros _; exact IH].
Qed.

Lemma prints_pprint (line : string) : prints (in_state (pprint ext line)).
Proof.
  intros p r q. unfold in_state, pprint, modify. intros [= <- <-].
  exists (stdout ext (state p) ++ [line])%list. reflexivity.
Qed.

Lemma prints_getint (section name : string) :
  prints (in_state (config_getint ext section name)).
Proof.
  intros p r q. unfold in_state, config_getint, config_get, bind, gets, ret, raise.
  destruct (config ext (state p) !! section) as [opts|];
    [destruct (opts !! name) as [v|]; [destruct (PyStr.to_int v)|]|];
    intros [= <- <-]; eexists; apply prints_refl.
Qed.

Lemma prints_make_thread_pool : prints make_thread_pool.
Proof.
  unfold make_thread_pool. apply prints_bind; [apply prints_getint|].
  intros threads. apply prints_if; [apply prints_raise | apply prints_ret].
Qed.

Lemma prints_bind_all (port : Z) (listens : list string) (httpds : list Httpd) :
  prints (bind_all port listens httpds).
Proof.
  revert httpds. induction listens as [|l listens IH]; intros httpds; simpl.
  - apply prints_ret.
  - apply prints_bind; [apply prints_emit|]. intros _.
    destruct (bind_error host (l, port)) as [exc|].
    + apply prints_bind; [|intros _; apply prints_ret].
      apply prints_if; apply prints_pprint.
    + apply prints_bind; [apply prints_make_thread_pool|]. intros _.
      apply prints_bind; [apply prints_emit|]. intros _. apply IH.
Qed.

Lemma prints_start_httpds (httpds : list Httpd) : prints (start_httpds httpds).
Proof.
  unfold start_httpds. apply prints_bind.
  - apply prints_for_each. intros h. apply prints_emit.
  - intros _. destruct (last httpds); [apply prints_emit | apply prints_raise].
Qed.

Lemma prints_run_pool : prints run_pool.
Proof.
  unfold run_pool. apply prints_bind; [apply prints_getint|]. intros port.
  apply prints_bind; [apply prints_gets|]. intros listens.
  apply prints_bind; [apply prints_bind_all|]. intros [httpds|]; [|apply prints_ret].
  apply prints_bind; [|intros _; apply prints_start_httpds].
  apply prints_if; [|apply prints_ret].
  apply prints_bind; [apply prints_getint|]. intros workers.
  apply prints_for_each. intros i. unfold start_child.
  apply prints_bind; [apply prints_emit|]. intros _.
  apply prints_for_each. intros sock. apply prints_emit.
Qed.

End Run.

End Pool.

(** ** [test] and [parse_config] *)

Section ParseConfig.

Context (ext : Externals).

Local Open Scope monad_scope.

(** The platform [run_pool] finds itself on. *)
Definition host : Pool.Host :=
  {| Pool.sys_platform := sys_platform ext;
     Pool.has_fromshare := has_fromshare ext;
     Pool.bind_error := bind_error ext |}.

(** A computation of the process seen from [State]: the calls it makes
    outside of [State] are not kept. *)
Definition in_process {A : Type} (m : M (Pool.Proc ext) A) : M (State ext) A :=
  fun s => let (r, p) := m (Pool.mkProc ext s []) in (r, Pool.state ext p).

(** [test]. The query runs in a thread of its own, which in the end
    signals the process; what that thread prints and when it ends the
    process is not part of this run. Once the servers are started the
    call of [run_pool] does not come back in the process; here it
    returns with the servers recorded as started. *)
Definition test (testurl : string) : M (State ext) unit :=
  (* Get Px configuration *)
  listens <- gets (listen ext) ;;
  match listens with
  | [] => raise IndexError
  | listen0 :: _ =>
      port <- config_getint ext "proxy" "port" ;;
      (* Run testurl query in a thread *)
      (* Tweak Px configuration for test - only 1 process and thread required *)
      config_set ext "settings" "workers" "1" ;;
      config_set ext "settings" "threads" "1" ;;
      (* Run Px to respond to query *)
      in_process (Pool.run_pool ext host)
  end.

(** [parse_config]. The search for the INI file is replaced by its
    result: [State.ini] is taken as it is, and [ini] is what
    [State.config.read(State.ini)] has loaded. On Windows the console
    that [windows.attach_console] attaches is outside of the model. *)
Definition parse_config (argv : list string) (environ : list (string * string))
    (ini : Config) : M (State ext) unit :=
  argv <- parse_config_debug ext argv ;;
  (if str_in "-h" argv || str_in "--help" argv
   then pprint ext (HELP ext) ;; sys_exit ext
   else ret tt) ;;
  (* Load CLI flags and environment variables *)
  let flags := parse_cli argv in
  let env := parse_env environ in
  parse_config_init ext flags env ini ;;
  parse_config_propagate ext ;;
  (* Handle actions *)
  argv <- parse_config_actions ext argv ;;
  (* Discover proxy info from OS *)
  parse_config_discover ext ;;
  (* Test the proxy with user specified URL if --test=URL *)
  match Dict.get "test" flags with
  | Some testurl => test testurl
  | None =>
      match Dict.get "test" env with
      | Some testurl => test testurl
      | None => ret tt
      end
  end.

(** *** What follows the dependency propagation

    The actions, the discovery of the proxy and the test print, set
    [State.wproxy], [State.proxy_last_reload] and [State.mcurl], and the
    test writes two options; every other attribute stays. *)
Definition tail_state (c : Config) (out : list string) (w : option Wproxy)
    (t : option (float ext)) (mc : bool) (s : State ext) : State ext :=
  with_config ext c
    (with_stdout ext out
       (with_wproxy ext w (with_proxy_last_reload ext t (with_mcurl ext mc s)))).

Definition quiet {A : Type} (m : M (State ext) A) : Prop :=
  forall s r s', m s = (r, s') ->
    exists out w t mc, s' = tail_state (config ext s) out w t mc s.

Lemma tail_state_refl (s : State ext) :
  s = tail_state (config ext s) (stdout ext s) (wproxy ext s) (proxy_last_reload ext s)
        (mcurl ext s) s.
Proof. destruct s; reflexivity. Qed.

Lemma quiet_ret {A : Type} (a : A) : quiet (ret a).
Proof. intros s r s' [= <- <-]. do 4 eexists. apply tail_state_refl. Qed.

Lemma quiet_raise {A : Type} (e : exn) : quiet (@raise (State ext) A e).
Proof. intros s r s' [= <- <-]. do 4 eexists. apply tail_state_refl. Qed.

Lemma quiet_gets {A : Type} (f : State ext -> A) : quiet (gets f).
Proof. intros s r s' [= <- <-]. do 4 eexists. apply tail_state_refl. Qed.

Lemma quiet_bind {A B : Type} (m : M (State ext) A) (f : A -> M (State ext) B) :
  quiet m -> (forall a, quiet (f a)) -> quiet (bind m f).
Proof.
  intros Hm Hf s r s'. unfold bind.
  destruct (m s) as [[e|a] s1] eqn:E; intros H.
  - inversion H; subst. exact (Hm _ _ _ E).
  - destruct (Hm _ _ _ E) as (o1 & w1 & t1 & m1 & E1).
    destruct (Hf a _ _ _ H) as (o2 & w2 & t2 & m2 & E2).
    exists o2, w2, t2, m2. rewrite E2, E1. reflexivity.
Qed.

Lemma quiet_if {A : Type} (b : bool) (m1 m2 : M (State ext) A) :
  quiet m1 -> quiet m2 -> quiet (if b then m1 else m2).
Proof. destruct b; auto. Qed.

Lemma quiet_pprint (line : string) : quiet (pprint ext line).
Proof.
  intros s r s' [= <- <-].
  exists (stdout ext s ++ [line])%list, (wproxy ext s), (proxy_last_reload ext s), (mcurl ext s).
  destruct s; reflexivity.
Qed.

Lemma quiet_stdout_write (text : string) : quiet (stdout_write ext text).
Proof. exact (quiet_pprint text). Qed.

Lemma quiet_with_wproxy (w : option Wproxy) : quiet (modify (with_wproxy ext w)).
Proof.
  intros s r s' [= <- <-].
  exists (stdout ext s), w, (proxy_last_reload ext s), (mcurl ext s).
  destruct s; reflexivity.
Qed.

Lemma quiet_with_proxy_last_reload (t : option (float ext)) :
  quiet (modify (with_proxy_last_reload ext t)).
Proof.
  intros s r s' [= <- <-].
  exists (stdout ext s), (wproxy ext s), t, (mcurl ext s).
  destruct s; reflexivity.
Qed.

Lemma quiet_with_mcurl (mc : bool) : quiet (modify (with_mcurl ext mc)).
Proof.
  intros s r s' [= <- <-].
  exists (stdout ext s), (wproxy ext s), (proxy_last_reload ext s), mc.
  destruct s; reflexivity.
Qed.

Ltac quiet_step :=
  first
    [ apply quiet_ret | apply quiet_raise | apply quiet_gets
    | apply quiet_pprint | apply quiet_stdout_write
    | apply quiet_with_wproxy | apply quiet_with_proxy_last_reload | apply quiet_with_mcurl
    | apply quiet_bind; [|intros]
    | apply quiet_if
    | match goal with
      | |- quiet (match ?x with _ => _ end) => destruct x
      end ].

Lemma quiet_external (o : option exn) : quiet (external ext o).
Proof. unfold external. repeat quiet_step. Qed.

Lemma quiet_external_value {A : Type} (o : exn + A) : quiet (external_value ext o).
Proof. unfold external_value. repeat quiet_step. Qed.

Lemma quiet_config_get (section name : string) : quiet (config_get ext section name).
Proof. unfold config_get. repeat quiet_step. Qed.

Ltac quiet_tac :=
  repeat first [ apply quiet_external | apply quiet_external_value
               | apply quiet_config_get | quiet_step ].

Lemma quiet_actions (argv : list string) : quiet (parse_config_actions ext argv).
Proof. unfold parse_config_actions, sys_exit. quiet_tac. Qed.

Lemma quiet_discover : quiet (parse_config_discover ext).
Proof. unfold parse_config_discover. quiet_tac. Qed.

(** [State.config.set] on a section that exists *)
Lemma config_set_inr (section name v : string) (s s' : State ext) :
  config_set ext section name v s = (inr tt, s') ->
  s' = with_config ext (store section name v (config ext s)) s.
Proof.
  unfold config_set, store, bind, gets, modify, raise.
  destruct (config ext s !! section); intros [= <-]; reflexivity.
Qed.

(** The configuration a test leaves: one worker process, one thread. *)
Definition test_config (flags env : Dict.t) (c : Config) : Config :=
  if Dict.mem "test" flags || Dict.mem "test" env
  then store "settings" "threads" "1" (store "settings" "workers" "1" c)
  else c.

Lemma lookup2_test_config (flags env : Dict.t) (c : Config) (section name : string) :
  name <> "workers" -> name <> "threads" ->
  lookup2 (test_config flags env c) section name = lookup2 c section name.
Proof.
  intros Hw Ht. unfold test_config.
  destruct (Dict.mem "test" flags || Dict.mem "test" env); [|reflexivity].
  rewrite !lookup2_store_ne by congruence. reflexivity.
Qed.

Lemma test_inr (testurl : string) (s s' : State ext) :
  test testurl s = (inr tt, s') ->
  exists out,
    s' = with_stdout ext out
           (with_config ext
              (store "settings" "threads" "1" (store "settings" "workers" "1" (config ext s)))
              s).
Proof.
  unfold test. intros H.
  apply bind_inr in H as (listens & s1 & H1 & H). inversion H1; subst; clear H1.
  destruct (listen ext s1) as [|listen0 rest]; [discriminate H|].
  apply bind_inr in H as (port & s2 & H2 & H).
  apply config_getint_inr in H2 as [-> _].
  apply bind_inr in H as ([] & s3 & H3 & H). apply config_set_inr in H3. subst s3.
  apply bind_inr in H as ([] & s4 & H4 & H). apply config_set_inr in H4. subst s4.
  unfold in_process in H.
  destruct (Pool.run_pool ext host _) as [r p] eqn:E. inversion H; subst; clear H.
  destruct (Pool.prints_run_pool ext host _ _ _ E) as (out & Eout).
  exists out. rewrite Eout. reflexivity.
Qed.

(** [parse_config], when it returns, has gone through [parse_config_init]
    with the flags of the command line the debug options leave, then
    through the dependency propagation, and has left the configuration of
    that point but for the two options of a test. *)
Lemma parse_config_inr (argv : list string) (environ : list (string * string))
    (ini : Config) (s s' : State ext) :
  parse_config argv environ ini s = (inr tt, s') ->
  exists s0 s1 s2 out w t mc,
    parse_config_debug ext argv s = (inr (argv_after_debug argv), s0)
    /\ parse_config_init ext (parse_cli (argv_after_debug argv)) (parse_env environ) ini s0
       = (inr tt, s1)
    /\ parse_config_propagate ext s1 = (inr tt, s2)
    /\ s' = tail_state
              (test_config (parse_cli (argv_after_debug argv)) (parse_env environ)
                 (config ext s2))
              out w t mc s2.
Proof.
  unfold parse_config. intros H.
  apply bind_inr in H as (argv' & s0 & H0 & H).
  pose proof (parse_config_debug_inr ext _ _ _ _ H0) as ->.
  apply bind_inr in H as ([] & s0' & Hhelp & H).
  assert (s0' = s0) as ->.
  { destruct (str_in "-h" _ || str_in "--help" _); [|inversion Hhelp; reflexivity].
    unfold pprint, sys_exit, bind, modify, raise in Hhelp. discriminate Hhelp. }
  apply bind_inr in H as ([] & s1 & H1 & H).
  apply bind_inr in H as ([] & s2 & H2 & H).
  apply bind_inr in H as (argv2 & s3 & H3 & H).
  apply bind_inr in H as ([] & s4 & H4 & H).
  destruct (quiet_actions _ _ _ _ H3) as (o3 & w3 & t3 & m3 & E3).
  destruct (quiet_discover _ _ _ H4) as (o4 & w4 & t4 & m4 & E4).
  rewrite E3 in E4. clear E3 H3 H4.
  exists s0, s1, s2. unfold test_config, Dict.mem.
  destruct (Dict.get "test" (parse_cli (argv_after_debug argv))) as [u|].
  { apply test_inr in H as (out & E). exists out, w4, t4, m4.
    split; [exact H0|]. split; [exact H1|]. split; [exact H2|].
    rewrite E, E4. reflexivity. }
  destruct (Dict.get "test" (parse_env environ)) as [u|].
  { apply test_inr in H as (out & E). exists out, w4, t4, m4.
    split; [exact H0|]. split; [exact H1|]. split; [exact H2|].
    rewrite E, E4. reflexivity. }
  inversion H; subst s'. exists o4, w4, t4, m4.
  split; [exact H0|]. split; [exact H1|]. split; [exact H2|]. exact E4.
Qed.

End ParseConfig.

(** ** Proxy management: [reload_proxy] under concurrent callers

    Every handler thread calls [reload_proxy] at the start of a request.
    The threads of a process interleave; [State.state_lock] serializes the
    part between [acquire] and [release]. Time is what [time.time()]
    returns, read as an exact number of seconds that never decreases. *)

Module Reload.

(** The modes of [wproxy] that [reload_proxy] tells apart: the two set up
    from the Px configuration, and those [wproxy.Wproxy()] detects. *)
Inductive wmode : Type := MODE_CONFIG | MODE_CONFIG_PAC | MODE_DETECTED (n : nat).

(** A [wproxy.Wproxy] object: its mode, and which load produced it. *)
Record Wproxy : Type := { mode : wmode; generation : nat }.

Definition configured (w : Wproxy) : bool :=
  match mode w with
  | MODE_CONFIG | MODE_CONFIG_PAC => true
  | MODE_DETECTED _ => false
  end.

(** Where a thread is in [reload_proxy]. *)
Inductive pc : Type :=
| Idle        (* not in [reload_proxy] *)
| WantLock    (* mode checked, at [State.state_lock.acquire()] *)
| Locked      (* lock held, before the check of the time *)
| Loading     (* refresh needed, in [wproxy.Wproxy(...)] *)
| Stamping    (* [State.wproxy] assigned, before [State.proxy_last_reload = time.time()] *)
| Unlocking.  (* in the [finally] clause, before [release()] *)

Definition in_critical (p : pc) : bool :=
  match p with
  | Locked | Loading | Stamping | Unlocking => true
  | Idle | WantLock => false
  end.

(** The shared [State], the lock, the clock, the threads, and the times
    recorded by the refreshes so far (newest first). *)
Record Sys : Type := mkSys {
  wproxy : Wproxy;
  proxy_last_reload : option Q;
  proxyreload : Q;
  state_lock : option nat;
  clock : Q;
  pcs : nat -> pc;
  refreshes : list Q
}.

Definition set_pc (t : nat) (p : pc) (f : nat -> pc) : nat -> pc :=
  fun u => if Nat.eqb u t then p else f u.

(** [State.proxy_last_reload is not None and
     time.time() - State.proxy_last_reload < State.proxyreload] *)
Definition within_window (s : Sys) : Prop :=
  match proxy_last_reload s with
  | Some l => (clock s - l < proxyreload s)%Q
  | None => False
  end.

Inductive step : Sys -> Sys -> Prop :=
| step_tick (s : Sys) (now : Q) :
    (clock s <= now)%Q ->
    step s (mkSys (wproxy s) (proxy_last_reload s) (proxyreload s) (state_lock s)
              now (pcs s) (refreshes s))
| step_return (s : Sys) (t : nat) :
    (* proxies specified in Px config *)
    pcs s t = Idle -> configured (wproxy s) = true ->
    step s s
| step_enter (s : Sys) (t : nat) :
    pcs s t = Idle -> configured (wproxy s) = false ->
    step s (mkSys (wproxy s) (proxy_last_reload s) (proxyreload s) (state_lock s)
              (clock s) (set_pc t WantLock (pcs s)) (refreshes s))
| step_acquire (s : Sys) (t : nat) :
    pcs s t = WantLock -> state_lock s = None ->
    step s (mkSys (wproxy s) (proxy_last_reload s) (proxyreload s) (Some t)
              (clock s) (set_pc t Locked (pcs s)) (refreshes s))
| step_skip (s : Sys) (t : nat) :
    (* "Skip proxy refresh" *)
    pcs s t = Locked -> within_window s ->
    step s (mkSys (wproxy s) (proxy_last_reload s) (proxyreload s) (state_lock s)
              (clock s) (set_pc t Unlocking (pcs s)) (refreshes s))
| step_refresh (s : Sys) (t : nat) :
    pcs s t = Locked -> ~ within_window s ->
    step s (mkSys (wproxy s) (proxy_last_reload s) (proxyreload s) (state_lock s)
              (clock s) (set_pc t Loading (pcs s)) (refreshes s))
| step_load (s : Sys) (t : nat) (w : Wproxy) :
    (* [State.wproxy = wproxy.Wproxy(...)] *)
    pcs s t = Loading ->
    step s (mkSys w (proxy_last_reload s) (proxyreload s) (state_lock s)
              (clock s) (set_pc t Stamping (pcs s)) (refreshes s))
| step_load_raises (s : Sys) (t : nat) :
    (* [wproxy.Wproxy(...)] raises: the [finally] clause is next *)
    pcs s t = Loading ->
    step s (mkSys (wproxy s) (proxy_last_reload s) (proxyreload s) (state_lock s)
              (clock s) (set_pc t Unlocking (pcs s)) (refreshes s))
| step_stamp (s : Sys) (t : nat) :
    (* [State.proxy_last_reload = time.time()] *)
    pcs s t = Stamping ->
    step s (mkSys (wproxy s) (Some (clock s)) (proxyreload s) (state_lock s)
              (clock s) (set_pc t Unlocking (pcs s)) (clock s :: refreshes s))
| step_release (s : Sys) (t : nat) :
    pcs s t = Unlocking ->
    step s (mkSys (wproxy s) (proxy_last_reload s) (proxyreload s) None
              (clock s) (set_pc t Idle (pcs s)) (refreshes s)).

(** The executions: any number of steps of any threads. *)
Inductive reachable (s0 : Sys) : Sys -> Prop :=
| reach_start : reachable s0 s0
| reach_step (s s' : Sys) : reachable s0 s -> step s s' -> reachable s0 s'.

(** The state [parse_config] leaves: no thread is in [reload_proxy], the
    lock is free, and the load at startup, if there was one, is the only
    refresh on record. *)
Definition initial (s : Sys) : Prop :=
  (forall t, pcs s t = Idle)
  /\ state_lock s = None
  /\ match proxy_last_reload s with
     | Some l => refreshes s = [l] /\ (l <= clock s)%Q
     | None => refreshes s = []
     end.

(** Two refreshes in a row are at least [gap] apart. *)
Fixpoint spaced (gap : Q) (l : list Q) : Prop :=
  match l with
  | a :: (b :: _) as rest => (b + gap <= a)%Q /\ spaced gap rest
  | _ => True
  end.

(** The invariant of the executions. *)
Record Inv (s : Sys) : Prop := {
  inv_mutex : forall t, in_critical (pcs s t) = true -> state_lock s = Some t;
  inv_held : forall t, state_lock s = Some t -> in_critical (pcs s t) = true;
  inv_last : proxy_last_reload s = head (refreshes s);
  inv_past : Forall (fun x => (x <= clock s)%Q) (refreshes s);
  inv_spaced : spaced (proxyreload s) (refreshes s);
  inv_due : forall t l, (pcs s t = Loading \/ pcs s t = Stamping) ->
                        proxy_last_reload s = Some l ->
                        (l + proxyreload s <= clock s)%Q
}.

Lemma set_pc_eq (t : nat) (p : pc) (f : nat -> pc) : set_pc t p f t = p.
Proof. unfold set_pc. rewrite Nat.eqb_refl. reflexivity. Qed.

Lemma set_pc_cases (t u : nat) (p : pc) (f : nat -> pc) :
  (u = t /\ set_pc t p f u = p) \/ (u <> t /\ set_pc t p f u = f u).
Proof.
  unfold set_pc. destruct (Nat.eqb_spec u t); [left | right]; auto.
Qed.

Lemma Inv_initial (s : Sys) : initial s -> Inv s.
Proof.
  intros (Hidle & Hlock & Hlast). split.
  - intros t H. rewrite Hidle in H. discriminate.
  - intros t H. rewrite Hlock in H. discriminate.
  - destruct (proxy_last_reload s); [destruct Hlast as [-> _] | rewrite Hlast]; reflexivity.
  - destruct (proxy_last_reload s); [destruct Hlast as [-> Hle] | rewrite Hlast];
      repeat constructor. exact Hle.
  - destruct (proxy_last_reload s); [destruct Hlast as [-> _] | rewrite Hlast]; exact I.
  - intros t l [H|H]; rewrite Hidle in H; discriminate.
Qed.

(** The thread in the critical section is the only one there. *)
Lemma Inv_alone (s : Sys) (t u : nat) :
  Inv s -> in_critical (pcs s t) = true -> in_critical (pcs s u) = true -> u = t.
Proof.
  intros HI Ht Hu. apply (inv_mutex s HI) in Ht, Hu. congruence.
Qed.

Lemma Inv_step (s s' : Sys) : Inv s -> step s s' -> Inv s'.
Proof.
  intros HI Hstep.
  destruct Hstep as [s now Hnow | s t Hpc Hcfg | s t Hpc Hcfg | s t Hpc Hlock
                    | s t Hpc Hwin | s t Hpc Hwin | s t w Hpc | s t Hpc | s t Hpc | s t Hpc].
  - (* tick *)
    destruct HI as [Hm Hh Hl Hp Hs Hd]. split; simpl; auto.
    + eapply Forall_impl; [exact Hp|]. simpl. intros x Hx. lra.
    + intros t l Ht Hlast. specialize (Hd t l Ht Hlast). lra.
  - exact HI.
  - (* enter *)
    destruct HI as [Hm Hh Hl Hp Hs Hd]. split; simpl; auto.
    + intros u Hu. destruct (set_pc_cases t u WantLock (pcs s)) as [[-> E]|[Hne E]];
        rewrite E in Hu; [discriminate | auto].
    + intros u Hu. apply Hh in Hu.
      destruct (set_pc_cases t u WantLock (pcs s)) as [[-> E]|[Hne E]]; rewrite E;
        [first [reflexivity | rewrite Hpc in Hu; discriminate Hu] | exact Hu].
    + intros u l Hu. destruct (set_pc_cases t u WantLock (pcs s)) as [[-> E]|[Hne E]];
        rewrite E in Hu; [destruct Hu; discriminate | eauto].
  - (* acquire *)
    destruct HI as [Hm Hh Hl Hp Hs Hd]. split; simpl; auto.
    + intros u Hu. destruct (set_pc_cases t u Locked (pcs s)) as [[-> E]|[Hne E]];
        rewrite E in Hu; [reflexivity|].
      apply Hm in Hu. congruence.
    + intros u [= <-]. rewrite set_pc_eq. reflexivity.
    + intros u l Hu. destruct (set_pc_cases t u Locked (pcs s)) as [[-> E]|[Hne E]];
        rewrite E in Hu; [destruct Hu; discriminate | eauto].
  - (* skip *)
    assert (Ht : in_critical (pcs s t) = true) by (rewrite Hpc; reflexivity).
    destruct HI as [Hm Hh Hl Hp Hs Hd]. split; simpl; auto.
    + intros u Hu. destruct (set_pc_cases t u Unlocking (pcs s)) as [[-> E]|[Hne E]];
        rewrite E in Hu; auto.
    + intros u Hu. apply Hh in Hu.
      destruct (set_pc_cases t u Unlocking (pcs s)) as [[-> E]|[Hne E]]; rewrite E;
        [first [reflexivity | rewrite Hpc in Hu; discriminate Hu] | exact Hu].
    + intros u l Hu. destruct (set_pc_cases t u Unlocking (pcs s)) as [[-> E]|[Hne E]];
        rewrite E in Hu; [destruct Hu; discriminate | eauto].
  - (* refresh needed *)
    assert (Ht : in_critical (pcs s t) = true) by (rewrite Hpc; reflexivity).
    destruct HI as [Hm Hh Hl Hp Hs Hd]. split; simpl; auto.
    + intros u Hu. destruct (set_pc_cases t u Loading (pcs s)) as [[-> E]|[Hne E]];
        rewrite E in Hu; auto.
    + intros u Hu. apply Hh in Hu.
      destruct (set_pc_cases t u Loading (pcs s)) as [[-> E]|[Hne E]]; rewrite E;
        [first [reflexivity | rewrite Hpc in Hu; discriminate Hu] | exact Hu].
    + intros u l Hu Hlast.
      destruct (set_pc_cases t u Loading (pcs s)) as [[-> E]|[Hne E]];
        rewrite E in Hu; [|eauto].
      unfold within_window in Hwin. rewrite Hlast in Hwin. lra.
  - (* load *)
    assert (Ht : in_critical (pcs s t) = true) by (rewrite Hpc; reflexivity).
    destruct HI as [Hm Hh Hl Hp Hs Hd]. split; simpl; auto.
    + intros u Hu. destruct (set_pc_cases t u Stamping (pcs s)) as [[-> E]|[Hne E]];
        rewrite E in Hu; auto.
    + intros u Hu. apply Hh in Hu.
      destruct (set_pc_cases t u Stamping (pcs s)) as [[-> E]|[Hne E]]; rewrite E;
        [first [reflexivity | rewrite Hpc in Hu; discriminate Hu] | exact Hu].
    + intros u l Hu Hlast.
      destruct (set_pc_cases t u Stamping (pcs s)) as [[-> E]|[Hne E]];
        rewrite E in Hu; eauto.
  - (* load raises *)
    assert (Ht : in_critical (pcs s t) = true) by (rewrite Hpc; reflexivity).
    destruct HI as [Hm Hh Hl Hp Hs Hd]. split; simpl; auto.
    + intros u Hu. destruct (set_pc_cases t u Unlocking (pcs s)) as [[-> E]|[Hne E]];
        rewrite E in Hu; auto.
    + intros u Hu. apply Hh in Hu.
      destruct (set_pc_cases t u Unlocking (pcs s)) as [[-> E]|[Hne E]]; rewrite E;
        [first [reflexivity | rewrite Hpc in Hu; discriminate Hu] | exact Hu].
    + intros u l Hu. destruct (set_pc_cases t u Unlocking (pcs s)) as [[-> E]|[Hne E]];
        rewrite E in Hu; [destruct Hu; discriminate | eauto].
  - (* stamp *)
    assert (Ht : in_critical (pcs s t) = true) by (rewrite Hpc; reflexivity).
    pose proof (Inv_alone s t) as Halone.
    destruct HI as [Hm Hh Hl Hp Hs Hd]. split; simpl; auto.
    + intros u Hu. destruct (set_pc_cases t u Unlocking (pcs s)) as [[-> E]|[Hne E]];
        rewrite E in Hu; auto.
    + intros u Hu. apply Hh in Hu.
      destruct (set_pc_cases t u Unlocking (pcs s)) as [[-> E]|[Hne E]]; rewrite E;
        [first [reflexivity | rewrite Hpc in Hu; discriminate Hu] | exact Hu].
    + constructor; [lra|]. exact Hp.
    + destruct (refreshes s) as [|b rest] eqn:Er; [exact I|]. split; [|exact Hs].
      apply (Hd t b); [auto|]. rewrite Hl. reflexivity.
    + intros u l Hu _.
      destruct (set_pc_cases t u Unlocking (pcs s)) as [[-> E]|[Hne E]];
        rewrite E in Hu; [destruct Hu; discriminate|].
      exfalso. apply Hne. apply Halone; [split; assumption | exact Ht |].
      destruct Hu as [Hu|Hu]; rewrite Hu; reflexivity.
  - (* release *)
    assert (Ht : in_critical (pcs s t) = true) by (rewrite Hpc; reflexivity).
    pose proof (Inv_alone s t) as Halone.
    destruct HI as [Hm Hh Hl Hp Hs Hd]. split; simpl; auto.
    + intros u Hu. destruct (set_pc_cases t u Idle (pcs s)) as [[-> E]|[Hne E]];
        rewrite E in Hu; [discriminate|].
      exfalso. apply Hne. apply Halone; [split; assumption | exact Ht | exact Hu].
    + intros u Hu. discriminate Hu.
    + intros u l Hu. destruct (set_pc_cases t u Idle (pcs s)) as [[-> E]|[Hne E]];
        rewrite E in Hu; [destruct Hu; discriminate | eauto].
Qed.

Lemma Inv_reachable (s0 s : Sys) : initial s0 -> reachable s0 s -> Inv s.
Proof.
  intros H0 Hr. induction Hr as [|s s' _ IH Hstep].
  - apply Inv_initial, H0.
  - eapply Inv_step; eassumption.
Qed.

(** No step changes the refresh interval. *)
Lemma reachable_proxyreload (s0 s : Sys) :
  reachable s0 s -> proxyreload s = proxyreload s0.
Proof.
  intros Hr. induction Hr as [|s s' _ IH Hstep]; [reflexivity|].
  rewrite <- IH. destruct Hstep; reflexivity.
Qed.

End Reload.

(** Refreshes that are spaced in a row are spaced pairwise. *)
Lemma spaced_pairwise (gap : Q) (l : list Q) :
  (0 <= gap)%Q -> Reload.spaced gap l ->
  forall (i j : nat) (a b : Q),
    (i < j)%nat -> l !! i = Some a -> l !! j = Some b -> (b + gap <= a)%Q.
Proof.
  intros Hgap. induction l as [|x l IH]; intros Hs i j a b Hij Ha Hb.
  - discriminate Ha.
  - destruct l as [|y l]; [destruct j as [|[|j]], i; simpl in *; try discriminate; lia|].
    destruct Hs as [Hxy Hs].
    destruct i as [|i], j as [|j]; try lia; simpl in Ha, Hb.
    + injection Ha as <-.
      destruct j as [|j]; simpl in Hb.
      * injection Hb as <-. exact Hxy.
      * assert (H : (b + gap <= y)%Q)
          by (apply (IH Hs 0%nat (S j) y b); [lia | reflexivity | exact Hb]).
        lra.
    + apply (IH Hs i j a b); [lia | exact Ha | exact Hb].
Qed.

(** An execution with one refresh after the one at startup. *)
Definition reload_s0 : Reload.Sys :=
  Reload.mkSys {| Reload.mode := Reload.MODE_DETECTED 0; Reload.generation := 0 |}
    (Some 0%Q) 60%Q None 0%Q (fun _ => Reload.Idle) [0%Q].

Definition reload_s7 : Reload.Sys :=
  Reload.mkSys {| Reload.mode := Reload.MODE_DETECTED 0; Reload.generation := 1 |}
    (Some 100%Q) 60%Q None 100%Q
    (Reload.set_pc 1 Reload.Idle (Reload.set_pc 1 Reload.Unlocking
       (Reload.set_pc 1 Reload.Stamping (Reload.set_pc 1 Reload.Loading
          (Reload.set_pc 1 Reload.Locked (Reload.set_pc 1 Reload.WantLock
             (fun _ => Reload.Idle)))))))
    [100%Q; 0%Q].

Lemma reload_s7_reachable : Reload.reachable reload_s0 reload_s7.
Proof.
  unfold reload_s7.
  eapply Reload.reach_step;
    [| apply (Reload.step_release
                (Reload.mkSys _ (Some 100%Q) 60%Q (Some 1%nat) 100%Q _ [100%Q; 0%Q]) 1%nat);
       reflexivity].
  eapply Reload.reach_step;
    [| apply (Reload.step_stamp
                (Reload.mkSys _ (Some 0%Q) 60%Q (Some 1%nat) 100%Q _ [0%Q]) 1%nat);
       reflexivity].
  eapply Reload.reach_step;
    [| apply (Reload.step_load
                (Reload.mkSys {| Reload.mode := Reload.MODE_DETECTED 0; Reload.generation := 0 |}
                   (Some 0%Q) 60%Q (Some 1%nat) 100%Q _ [0%Q]) 1%nat);
       reflexivity].
  eapply Reload.reach_step;
    [| apply (Reload.step_refresh
                (Reload.mkSys _ (Some 0%Q) 60%Q (Some 1%nat) 100%Q _ [0%Q]) 1%nat);
       [reflexivity | unfold Reload.within_window; simpl; intros H; vm_compute in H;
                      discriminate H]].
  eapply Reload.reach_step;
    [| apply (Reload.step_tick
                (Reload.mkSys _ (Some 0%Q) 60%Q (Some 1%nat) 0%Q _ [0%Q]) 100%Q);
       simpl; intros H; vm_compute in H; discriminate H].
  eapply Reload.reach_step;
    [| apply (Reload.step_acquire
                (Reload.mkSys _ (Some 0%Q) 60%Q None 0%Q _ [0%Q]) 1%nat);
       reflexivity].
  eapply Reload.reach_step;
    [| apply (Reload.step_enter reload_s0 1%nat); reflexivity].
  apply Reload.reach_start.
Defined.

Lemma reload_s0_initial : Reload.initial reload_s0.
Proof.
  split; [reflexivity|]. split; [reflexivity|]. simpl. split; [reflexivity|].
  intros H. vm_compute in H. discriminate H.
Defined.

(** With the proxies taken from the Px configuration nothing ever moves:
    every call returns at its first test. *)
Lemma reload_configured_frozen (s0 s : Reload.Sys) :
  Reload.initial s0 ->
  Reload.configured (Reload.wproxy s0) = true ->
  Reload.reachable s0 s ->
  Reload.wproxy s = Reload.wproxy s0
  /\ Reload.refreshes s = Reload.refreshes s0
  /\ forall t, Reload.pcs s t = Reload.Idle.
Proof.
  intros (Hidle & _ & _) Hcfg Hr.
  induction Hr as [|s s' _ IH Hstep]; [auto|].
  destruct IH as (Hw & Hrf & Hi).
  destruct Hstep as [s now Hnow | s t Hpc Hc | s t Hpc Hc | s t Hpc Hlk
                    | s t Hpc Hwin | s t Hpc Hwin | s t w Hpc | s t Hpc | s t Hpc | s t Hpc];
    simpl; auto;
    try (rewrite Hi in Hpc; discriminate Hpc).
  rewrite Hw in Hc. congruence.
Qed.

(** A thread that holds the lock while the last refresh is within the
    window can only skip: whatever step is taken next, the proxy
    information and the record of the refreshes stay, and the thread is
    still at the test or on its way out. *)
Lemma reload_within_window_skips (s s' : Reload.Sys) (t : nat) :
  Reload.Inv s ->
  Reload.step s s' ->
  Reload.within_window s ->
  Reload.pcs s t = Reload.Locked ->
  Reload.wproxy s' = Reload.wproxy s
  /\ Reload.refreshes s' = Reload.refreshes s
  /\ (Reload.pcs s' t = Reload.Locked \/ Reload.pcs s' t = Reload.Unlocking).
Proof.
  intros HI Hstep Hwin Ht.
  assert (Hcrit : Reload.in_critical (Reload.pcs s t) = true) by (rewrite Ht; reflexivity).
  assert (Halone : forall u, Reload.in_critical (Reload.pcs s u) = true -> u = t)
    by (intros u Hu; exact (Reload.Inv_alone s t u HI Hcrit Hu)).
  destruct Hstep as [s now Hnow | s u Hpc Hc | s u Hpc Hc | s u Hpc Hlk
                    | s u Hpc Hw | s u Hpc Hw | s u w Hpc | s u Hpc | s u Hpc | s u Hpc];
    cbn [Reload.wproxy Reload.refreshes Reload.pcs];
    try (exfalso; assert (u = t) as -> by (apply Halone; rewrite Hpc; reflexivity);
         congruence);
    try contradiction;
    (split; [reflexivity|]; split; [reflexivity|]); auto.
  - (* another thread enters *)
    destruct (Reload.set_pc_cases u t Reload.WantLock (Reload.pcs s)) as [[-> E]|[_ E]];
      [congruence | rewrite E; auto].
  - (* another thread is at [acquire] *)
    destruct (Reload.set_pc_cases u t Reload.Locked (Reload.pcs s)) as [[-> E]|[_ E]];
      rewrite E; auto.
  - (* the skip *)
    destruct (Reload.set_pc_cases u t Reload.Unlocking (Reload.pcs s)) as [[-> E]|[_ E]];
      rewrite E; auto.
Qed.
(** *** More on the calls of a request *)

Definition is_Keyring {ext : Externals} (e : event ext) : bool :=
  match e with KeyringGetPassword _ _ => true | _ => false end.

(** The credentials [set_auth] was called with, in order. *)
Definition auth_calls {ext : Externals} (evs : list (event ext))
  : list (string * option string * string) :=
  omap (fun e => match e with SetAuth u p a => Some (u, p, a) | _ => None end) evs.

(** An error response: [send_error]. *)
Definition is_error_reply {ext : Externals} (e : event ext) : bool :=
  match e with SendError _ _ => true | _ => false end.

(** The calls after which the connection is not to be used for another
    request: an error response and the splice of a tunnel. *)
Definition closes {ext : Externals} (evs : list (event ext)) : bool :=
  existsb is_error_reply evs || existsb is_splice evs.

Lemma closes_cons {ext : Externals} (e : event ext) (evs : list (event ext)) :
  closes (e :: evs) = is_error_reply e || is_splice e || closes evs.
Proof.
  unfold closes. simpl.
  destruct (is_error_reply e), (is_splice e), (existsb is_error_reply evs); reflexivity.
Qed.

Lemma perform_request_quiet (ext : Externals) (st : State ext) (w : World ext)
    (h : Handler ext) :
  let out := perform_request ext st w h in
  exists evs,
    trace ext (snd out) = (trace ext h ++ evs)%list
    /\ existsb is_SetProxy evs = false
    /\ auth_calls evs = []
    /\ existsb is_Keyring evs = false
    /\ proxy_servers ext (snd out) = proxy_servers ext h
    /\ (fst out = inr tt -> last evs = Some McurlRemove)
    /\ (fst out = inr tt ->
        close_connection ext (snd out) = close_connection ext h || closes evs)
    /\ ((forall t e, fault ext w t e = None) -> is_Some (curl ext h) ->
        fst out = inr tt /\ existsb is_McurlDo evs = true).
Proof.
  intros out. subst out.
  focus_on (perform_request ext st w h).
  destruct h as [c ps cc t].
  unfold perform_request.
  destruct c as [[u m px]|]; [destruct (String.eqb m "CONNECT") eqn:Hm|];
    run_handler ltac:(rewrite ?Hm);
    unfocus; flat_trace; (eexists; split; [reflexivity|]);
    (split; [reflexivity|]); (split; [reflexivity|]); (split; [reflexivity|]);
    (split; [reflexivity|]);
    (split; [first [reflexivity | discriminate] |]);
    (split; [first [discriminate | intros _; cbv; destruct cc; reflexivity] |]);
    intros Hnf Hc; first [ no_fault Hnf | split; reflexivity | destruct Hc; discriminate ].
Qed.

Lemma last_cons_some {A : Type} (x y : A) (l : list A) :
  last l = Some y -> last (x :: l) = Some y.
Proof. intros H. rewrite last_cons, H. reflexivity. Qed.

(** At the end of a symbolic run that has reached [perform_request]: its
    calls are named [evs] and what [perform_request_quiet] tells about them
    is put in the context. *)
Ltac reach_perform_request :=
  match goal with
  | |- holds _ (perform_request ?e ?s ?w ?h) =>
      let evs := fresh "evs" in
      let Ht := fresh "Ht" in
      destruct (perform_request_quiet e s w h)
        as (evs & Ht & Hquiet_proxy & Hquiet_auth & Hquiet_keyring & Hquiet_servers
            & Hquiet_last & Hquiet_close & Hquiet_live);
      unfold holds;
      let r := fresh "r" in
      let c1 := fresh "c" in
      let ps1 := fresh "ps" in
      let cc1 := fresh "cc" in
      let t1 := fresh "t" in
      destruct (perform_request e s w h) as [r [c1 ps1 cc1 t1]];
      cbn [trace proxy_servers curl close_connection snd fst] in Ht, Hquiet_servers, Hquiet_last, Hquiet_close, Hquiet_live;
      subst
  end.


(** A method of HTTP that [Proxy] defines is found by its name. *)
Lemma proxy_methods_defined (c : string) :
  str_in c proxy_methods = true -> str_in ("do_" ++ c) do_methods = true.
Proof.
  unfold str_in at 1, proxy_methods. cbn [existsb].
  repeat match goal with
         | |- context [String.eqb c ?k] =>
             destruct (String.eqb_spec c k) as [->|_]; [intros _; reflexivity|]; cbn [orb]
         end.
  intros H. discriminate H.
Qed.

(** The calls that only log or stop the easy handle. *)
Definition is_cleanup {ext : Externals} (e : event ext) : bool :=
  match e with McurlStop | Dprint _ => true | _ => false end.

Lemma handlers_quiet (ext : Externals) (w : World ext) (e : exn) (h : Handler ext) :
  let out := try_except (try_except (raise e) (on_timeout ext)) (on_socket_error ext w) h in
  exists evs,
    trace ext (snd out) = (trace ext h ++ evs)%list
    /\ forallb is_cleanup evs = true
    /\ (close_connection ext h = true -> close_connection ext (snd out) = true).
Proof.
  intros out. subst out.
  destruct h as [c ps cc t]. unfold on_timeout, on_socket_error.
  destruct e, c; run_handler idtac; flat_trace;
    first [ exists []; rewrite app_nil_r; split; [reflexivity|]; split; [reflexivity | auto]
          | eexists; split; [reflexivity|]; split; [reflexivity | auto] ].
Qed.

(** *** [State.listen] over the passes of [parse_config] *)

(** The interfaces a [listen] value names: its stripped fields that are
    not empty. *)
Definition interfaces_of (fields : list string) : list string :=
  List.filter (fun x => negb (String.length x =? 0)%nat) (map PyStr.strip fields).

Definition interfaces (v : string) : list string :=
  interfaces_of (PyStr.split "," v).

Lemma str_in_In (x : string) (l : list string) : str_in x l = true <-> In x l.
Proof.
  unfold str_in. rewrite existsb_exists. split.
  - intros (y & Hy & E). apply String.eqb_eq in E. subst. exact Hy.
  - intros H. exists x. split; [exact H | apply String.eqb_refl].
Qed.

Lemma get_In (k v : string) (d : Dict.t) : Dict.get k d = Some v -> In (k, v) d.
Proof.
  induction d as [|[k' v'] d IH]; simpl; [discriminate|].
  destruct (String.eqb_spec k' k) as [->|Hne].
  - intros [= ->]. left. reflexivity.
  - intros H. right. apply IH, H.
Qed.

Section Listen.

Context (ext : Externals).

#[local] Abbreviation State := (State ext).
#[local] Abbreviation pyval := (pyval ext).

Local Open Scope monad_scope.

Lemma set_listen_step_run (intf : string) (s : State) :
  exists added,
    set_listen_step ext intf s = (inr tt, with_listen ext (listen ext s ++ added)%list s)
    /\ ((added = [] /\ (String.length (PyStr.strip intf) = 0%nat
                        \/ In (PyStr.strip intf) (listen ext s)))
        \/ (added = [PyStr.strip intf] /\ PyStr.strip intf <> ""
            /\ ~ In (PyStr.strip intf) (listen ext s))).
Proof.
  unfold set_listen_step, bind, gets, modify, ret.
  destruct (Nat.eqb_spec (String.length (PyStr.strip intf)) 0) as [E|E]; simpl.
  - exists []. rewrite app_nil_r. split; [destruct s; reflexivity|]. left. auto.
  - destruct (str_in (PyStr.strip intf) (listen ext s)) eqn:Hin; simpl.
    + exists []. rewrite app_nil_r. split; [destruct s; reflexivity|]. left.
      split; [reflexivity|]. right. apply str_in_In, Hin.
    + exists [PyStr.strip intf]. split; [reflexivity|]. right.
      split; [reflexivity|]. split.
      * intros Hs. rewrite Hs in E. apply E. reflexivity.
      * intros H. apply str_in_In in H. congruence.
Qed.

Lemma for_each_set_listen_step (fields : list string) (s : State) :
  exists added,
    for_each fields (set_listen_step ext) s
    = (inr tt, with_listen ext (listen ext s ++ added)%list s)
    /\ (NoDup (listen ext s) -> NoDup (listen ext s ++ added)%list)
    /\ Forall (fun x => x <> "" /\ exists field, In field fields /\ x = PyStr.strip field) added
    /\ (forall x, In x (interfaces_of fields) -> In x (listen ext s ++ added)%list).
Proof.
  revert s. induction fields as [|f fields IH]; intros s.
  - exists []. rewrite app_nil_r. split; [destruct s; reflexivity|].
    split; [auto|]. split; [constructor|]. intros x [].
  - destruct (set_listen_step_run f s) as (a1 & Hrun & Ha1).
    destruct (IH (with_listen ext (listen ext s ++ a1)%list s)) as (a2 & Hrest & Hnd & Hall & Hin).
    exists (a1 ++ a2)%list. simpl. unfold bind at 1. rewrite Hrun, Hrest.
    split; [rewrite app_assoc; destruct s; reflexivity|].
    split; [|split].
    + intros Hs. rewrite app_assoc. apply Hnd. simpl.
      destruct Ha1 as [[-> _] | (-> & _ & Hnew)]; [rewrite app_nil_r; exact Hs|].
      apply NoDup_app. split; [exact Hs|]. split; [|apply NoDup_singleton].
      intros x Hx Hx'. apply list_elem_of_singleton in Hx'. subst x.
      apply Hnew. apply list_elem_of_In. exact Hx.
    + apply Forall_app. split.
      * destruct Ha1 as [[-> _] | (-> & Hne & _)]; [constructor|].
        constructor; [|constructor]. split; [exact Hne|]. exists f. split; [left|]; reflexivity.
      * eapply Forall_impl; [exact Hall|]. simpl.
        intros x (Hne & field & Hf & ->). split; [exact Hne|]. exists field.
        split; [right; exact Hf | reflexivity].
    + intros x Hx. rewrite app_assoc. simpl in Hin.
      unfold interfaces_of in Hx. simpl in Hx.
      destruct (Nat.eqb_spec (String.length (PyStr.strip f)) 0) as [E|E]; simpl in Hx.
      * apply Hin, Hx.
      * destruct Hx as [<-|Hx]; [|apply Hin, Hx].
        apply in_or_app. left.
        destruct Ha1 as [[-> [Hz|Hold]] | (-> & _ & _)].
        -- contradiction.
        -- rewrite app_nil_r. exact Hold.
        -- apply in_or_app. right. left. reflexivity.
Qed.

Lemma set_listen_run (v : pyval) (s : State) :
  exists added,
    set_listen ext v s = (inr tt, with_listen ext (listen ext s ++ added)%list s)
    /\ (NoDup (listen ext s) -> NoDup (listen ext s ++ added)%list)
    /\ Forall (fun x => x <> "" /\ exists field, In field (PyStr.split "," (py_str ext v))
                                               /\ x = PyStr.strip field) added
    /\ (forall x, In x (interfaces (py_str ext v)) -> In x (listen ext s ++ added)%list).
Proof. apply for_each_set_listen_step. Qed.

(** Computations that leave [State.listen] alone. *)
Definition keeps_listen {A : Type} (m : M State A) : Prop :=
  forall s a s', m s = (inr a, s') -> listen ext s' = listen ext s.

Lemma keeps_listen_ret {A : Type} (a : A) : keeps_listen (ret a).
Proof. intros s a' s' [= _ <-]. reflexivity. Qed.

Lemma keeps_listen_raise {A : Type} (e : exn) : keeps_listen (@raise State A e).
Proof. intros s a s' [=]. Qed.

Lemma keeps_listen_gets {A : Type} (f : State -> A) : keeps_listen (gets f).
Proof. intros s a s' [= _ <-]. reflexivity. Qed.

Lemma keeps_listen_bind {A B : Type} (m : M State A) (f : A -> M State B) :
  keeps_listen m -> (forall a, keeps_listen (f a)) -> keeps_listen (bind m f).
Proof.
  intros Hm Hf s b s' H. apply bind_inr in H as (a & s1 & H1 & H2).
  rewrite (Hf a _ _ _ H2). apply (Hm _ _ _ H1).
Qed.

Lemma keeps_listen_modify (f : State -> State) :
  (forall s, listen ext (f s) = listen ext s) -> keeps_listen (modify f).
Proof. intros Hf s a s' [= _ <-]. apply Hf. Qed.

Lemma keeps_listen_if {A : Type} (b : bool) (m1 m2 : M State A) :
  keeps_listen m1 -> keeps_listen m2 -> keeps_listen (if b then m1 else m2).
Proof. destruct b; auto. Qed.

Ltac keeps_listen_tac :=
  repeat first
    [ apply keeps_listen_ret | apply keeps_listen_raise | apply keeps_listen_gets
    | apply keeps_listen_modify; intros; reflexivity
    | apply keeps_listen_bind; [|intros]
    | apply keeps_listen_if
    | match goal with
      | |- keeps_listen (match ?x with _ => _ end) => destruct x
      end ].

Lemma keeps_listen_callbacks (name : string) (p : pyval -> M State unit) (v : pyval) :
  callbacks ext name = Some p -> name <> "listen" -> keeps_listen (p v).
Proof.
  unfold callbacks.
  repeat match goal with
         | |- context [String.eqb name ?k] => destruct (String.eqb_spec name k)
         end;
    intros [= <-] Hne; try congruence.
  - unfold set_pac, sys_exit, pprint. keeps_listen_tac.
  - unfold set_allow. keeps_listen_tac.
  - unfold set_noproxy. keeps_listen_tac.
  - unfold set_useragent. keeps_listen_tac.
  - unfold set_username. keeps_listen_tac.
  - unfold set_auth. keeps_listen_tac.
  - unfold set_debug. keeps_listen_tac.
  - unfold set_idle. keeps_listen_tac.
  - unfold set_socktimeout. keeps_listen_tac.
  - unfold set_proxyreload. keeps_listen_tac.
Qed.

Lemma keeps_listen_apply_proc (name : string) (v : pyval) :
  name <> "listen" -> keeps_listen (apply_proc ext (callbacks ext name) v).
Proof.
  intros Hne. unfold apply_proc. destruct (callbacks ext name) as [p|] eqn:E.
  - eapply keeps_listen_callbacks; eassumption.
  - apply keeps_listen_ret.
Qed.

(** One call of [cfg_init] that returns: [State.listen] has kept its
    entries, and for the key [listen] it holds every interface of the
    value that was stored. *)
Lemma cfg_init_listen (name val : string) (ov : bool) (s s' : State) :
  has_sections (config ext s) ->
  cfg_init ext name val ov s = (inr tt, s') ->
  incl (listen ext s) (listen ext s')
  /\ (name = "listen" ->
      incl (interfaces (value_for "proxy" "listen" val ov (config ext s))) (listen ext s')).
Proof.
  intros [[po Hp] [so Hs]]. unfold cfg_init.
  destruct (String.eqb_spec name "listen") as [->|Hne].
  - change (str_in "listen" proxy_str_keys) with true. cbv iota.
    rewrite (cfg_str_init_run ext _ _ _ _ _ _ _ Hp). cbv zeta.
    change (callbacks ext "listen") with (Some (set_listen ext)).
    unfold apply_proc.
    match goal with |- context [set_listen ext ?v ?s0] =>
      destruct (set_listen_run v s0) as (added & Hrun & _ & _ & Hin); rewrite Hrun end.
    intros [= <-]. simpl. split.
    + intros x Hx. apply in_or_app. left. exact Hx.
    + intros _ x Hx. apply Hin. exact Hx.
  - assert (K : forall v, keeps_listen (apply_proc ext (callbacks ext name) v))
      by (intros v; apply keeps_listen_apply_proc, Hne).
    assert (R : forall s1, listen ext s1 = listen ext s ->
                incl (listen ext s) (listen ext s1)
                /\ (name = "listen" ->
                    incl (interfaces (value_for "proxy" "listen" val ov (config ext s)))
                      (listen ext s1))).
    { intros s1 E. rewrite E. split; [apply incl_refl | intros; congruence]. }
    destruct (str_in name proxy_str_keys).
    { rewrite (cfg_str_init_run ext _ _ _ _ _ _ _ Hp). cbv zeta.
      intros H. apply K in H. apply R. exact H. }
    destruct (str_in name proxy_int_keys).
    { rewrite (cfg_int_init_run ext _ _ _ _ _ _ _ Hp). cbv zeta.
      destruct (PyStr.to_int _); intros H; apply K in H; apply R; exact H. }
    destruct (str_in name settings_int_keys).
    { rewrite (cfg_int_init_run ext _ _ _ _ _ _ _ Hs). cbv zeta.
      destruct (PyStr.to_int _); intros H; apply K in H; apply R; exact H. }
    destruct (str_in name settings_float_keys).
    { rewrite (cfg_float_init_run ext _ _ _ _ _ _ _ Hs). cbv zeta.
      destruct (float_of_str ext _); intros H; apply K in H; apply R; exact H. }
    intros [= <-]. apply R. reflexivity.
Qed.

Lemma value_for_lookup (section name val : string) (ov : bool) (c1 c2 : Config) :
  lookup2 c1 section name = lookup2 c2 section name ->
  value_for section name val ov c1 = value_for section name val ov c2.
Proof. intros H. unfold value_for. rewrite H. reflexivity. Qed.

(** A pass of [cfg_init] over a dictionary: [State.listen] keeps its
    entries and gains the interfaces of the value the pass stores for
    [listen]. *)
Lemma for_each_cfg_init_listen (l : Dict.t) (ov : bool) (s s' : State) :
  has_sections (config ext s) ->
  ov = true \/ NoDup (Dict.keys l) ->
  for_each l (fun nv => cfg_init ext (fst nv) (snd nv) ov) s = (inr tt, s') ->
  incl (listen ext s) (listen ext s')
  /\ (forall v, In ("listen", v) l ->
      incl (interfaces (value_for "proxy" "listen" v ov (config ext s))) (listen ext s')).
Proof.
  revert s. induction l as [|[n v0] l IH]; simpl; intros s Hs Hov H.
  - inversion H; subst. split; [apply incl_refl | intros v []].
  - apply bind_inr in H as ([] & s1 & H1 & H2). simpl in H1.
    pose proof (cfg_init_store ext _ _ _ _ _ Hs H1) as Hcfg.
    destruct (cfg_init_listen _ _ _ _ _ Hs H1) as [Hgrow Hhere].
    assert (Hs1 : has_sections (config ext s1))
      by (rewrite Hcfg; apply has_sections_cfg_store, Hs).
    assert (Hov' : ov = true \/ NoDup (Dict.keys l)).
    { destruct Hov as [->|Hnd]; [left; reflexivity | right].
      apply NoDup_cons in Hnd as [_ Hnd]. exact Hnd. }
    destruct (IH s1 Hs1 Hov' H2) as [Hgrow' Hrest].
    split; [eapply incl_tran; eassumption|].
    intros v [[= -> ->] | Hin].
    + eapply incl_tran; [apply Hhere; reflexivity | exact Hgrow'].
    + specialize (Hrest v Hin).
      destruct Hov as [->|Hnd]; [exact Hrest|].
      assert (Hne : n <> "listen").
      { apply NoDup_cons in Hnd as [Hn _]. intros ->. apply Hn.
        apply list_elem_of_In. change "listen" with (fst ("listen", v)).
        apply in_map, Hin. }
      rewrite (value_for_lookup "proxy" "listen" v ov (config ext s) (config ext s1));
        [exact Hrest|].
      rewrite Hcfg. symmetry. apply lookup2_cfg_store_ne, Hne.
Qed.

(** [parse_config_init], when it returns: [State.listen] has kept the
    entries it had and holds the interfaces of every source of the key
    [listen], the file (or the default [127.0.0.1]), the environment and
    the command line. *)
Lemma parse_config_init_listen (flags env : Dict.t) (ini : Config) (s s' : State) :
  NoDup (Dict.keys env) -> NoDup (Dict.keys flags) ->
  parse_config_init ext flags env ini s = (inr tt, s') ->
  incl (listen ext s) (listen ext s')
  /\ incl (interfaces (match lookup2 ini "proxy" "listen" with
                       | Some v => PyStr.strip v
                       | None => "127.0.0.1"
                       end)) (listen ext s')
  /\ (forall v, Dict.get "listen" env = Some v -> incl (interfaces v) (listen ext s'))
  /\ (forall v, Dict.get "listen" flags = Some v -> incl (interfaces v) (listen ext s')).
Proof.
  intros Hnde Hndf. unfold parse_config_init. intros H.
  apply bind_inr in H as ([] & s1 & H1 & H). inversion H1; subst s1; clear H1.
  apply bind_inr in H as ([] & s2 & H2 & H).
  apply bind_inr in H as ([] & s3 & H3 & H).
  apply bind_inr in H as (loc & s4 & H4 & H). inversion H4; subst; clear H4.
  apply bind_inr in H as ([] & s5 & H5 & H).
  apply bind_inr in H as ([] & s6 & H6 & H).
  apply bind_inr in H as ([] & s7 & H7 & H).
  assert (E3 : config ext s4 = add_section "settings" (add_section "proxy" ini)
               /\ listen ext s4 = listen ext s).
  { unfold ensure_section, bind, gets, modify, ret, add_section in *.
    simpl in H2. destruct (ini !! "proxy") eqn:Ep; inversion H2; subst s2; clear H2;
      simpl in H3; simpl;
      match type of H3 with context [match ?x with _ => _ end] => destruct x eqn:Es end;
      inversion H3; subst s4; simpl; rewrite ?Es; auto. }
  destruct E3 as [E3 El4].
  pose proof (has_sections_add ini) as Hsec. rewrite <- E3 in Hsec.
  assert (E5 : config ext s5 =
               store "settings" "log" (normal ext KInt (py_str ext (location ext s4)))
                 (config ext s4)
               /\ listen ext s5 = listen ext s4).
  { destruct Hsec as [_ [so Hso]].
    rewrite (cfg_int_init_run ext _ _ _ _ _ _ _ Hso) in H5.
    cbv zeta in H5. unfold value_for, apply_proc in H5.
    unfold store, normal. rewrite Hso.
    destruct (PyStr.to_int (py_str ext (location ext s4)));
      inversion H5; split; reflexivity. }
  destruct E5 as [E5 El5].
  assert (Hsec5 : has_sections (config ext s5))
    by (rewrite E5; apply has_sections_store, Hsec).
  pose proof (for_each_cfg_init_store ext _ _ _ _ Hsec5 H6) as E6.
  assert (Hsec6 : has_sections (config ext s6)).
  { rewrite E6. clear -Hsec5. revert Hsec5. generalize (config ext s5).
    induction defaults as [|x l IH]; simpl; intros c Hc; [exact Hc|].
    apply IH, has_sections_cfg_store, Hc. }
  pose proof (for_each_cfg_init_store ext _ _ _ _ Hsec6 H7) as E7.
  assert (Hsec7 : has_sections (config ext s7)).
  { rewrite E7. clear -Hsec6. revert Hsec6. generalize (config ext s6).
    induction env as [|x l IH]; simpl; intros c Hc; [exact Hc|].
    apply IH, has_sections_cfg_store, Hc. }
  destruct (for_each_cfg_init_listen _ _ _ _ Hsec5 (or_intror NoDup_defaults) H6)
    as [G6 D6].
  destruct (for_each_cfg_init_listen _ _ _ _ Hsec6 (or_introl eq_refl) H7) as [G7 D7].
  destruct (for_each_cfg_init_listen _ _ _ _ Hsec7 (or_introl eq_refl) H) as [G8 D8].
  split; [|split; [|split]].
  - rewrite <- El4, <- El5. eapply incl_tran; [exact G6|]. eapply incl_tran; eassumption.
  - assert (Hd : In ("listen", "127.0.0.1") defaults) by (vm_compute; tauto).
    specialize (D6 _ Hd).
    assert (Hl : lookup2 (config ext s5) "proxy" "listen" = lookup2 ini "proxy" "listen").
    { rewrite E5, E3. rewrite lookup2_store_ne by discriminate.
      rewrite !lookup2_add_section. reflexivity. }
    unfold value_for in D6. rewrite Hl in D6.
    eapply incl_tran; [exact D6|]. eapply incl_tran; eassumption.
  - intros v Hv. apply get_In in Hv. specialize (D7 _ Hv).
    eapply incl_tran; [exact D7 | exact G8].
  - intros v Hv. apply get_In in Hv. exact (D8 _ Hv).
Qed.

(** The dependency propagation either replaces [State.listen] by the
    single entry [""] or leaves it alone. *)
Lemma parse_config_propagate_listen (s s' : State) :
  parse_config_propagate ext s = (inr tt, s') ->
  listen ext s' = [""] \/ listen ext s' = listen ext s.
Proof.
  unfold parse_config_propagate. intros H.
  apply bind_inr in H as (gateway & s1 & H1 & H).
  apply config_getint_inr in H1 as [-> _].
  apply bind_inr in H as (allow_rule & s2 & H2 & H).
  apply config_get_inr in H2 as [-> _].
  apply bind_inr in H as ([] & s3 & H3 & H).
  apply bind_inr in H as (h & s4 & H4 & H).
  apply config_getint_inr in H4 as [-> H4].
  assert (Hallow : forall s5 s6,
            cfg_str_init ext "proxy" "allow" "" (Some (set_allow ext)) true s5 = (inr tt, s6) ->
            listen ext s6 = listen ext s5).
  { intros s5 s6 H5. destruct (config ext s5 !! "proxy") as [opts|] eqn:Hp.
    - rewrite (cfg_str_init_run ext _ _ _ _ _ _ _ Hp) in H5. simpl in H5.
      inversion H5. reflexivity.
    - exfalso. unfold cfg_str_init in H5.
      apply bind_inr in H5 as (? & ? & Hx & H5). inversion Hx; subst; clear Hx.
      apply bind_inr in H5 as (? & ? & Hy & _). unfold config_set in Hy.
      apply bind_inr in Hy as (c & ? & Hc & Hy). inversion Hc; subst; clear Hc.
      rewrite Hp in Hy. discriminate Hy. }
  destruct (Z.eqb_spec h 1) as [->|Hh].
  - left.
    apply bind_inr in H as ([] & s5 & H5 & H). inversion H5; subst s5; clear H5.
    apply bind_inr in H as ([] & s6 & H6 & H). inversion H6; subst s6; clear H6.
    apply bind_inr in H as ([] & s7 & H7 & H). inversion H7; subst s7; clear H7.
    apply bind_inr in H as ([] & s8 & H8 & H). inversion H8; subst s8; clear H8.
    destruct ((gateway =? 0) || _).
    + apply bind_inr in H as ([] & s9 & H9 & H). inversion H; subst s'; clear H.
      simpl. rewrite (Hallow _ _ H9). reflexivity.
    + inversion H. reflexivity.
  - inversion H; subst s'; clear H.
    destruct (gateway =? 1).
    + left.
      apply bind_inr in H3 as ([] & s5 & H5 & H3). inversion H5; subst s5; clear H5.
      apply bind_inr in H3 as ([] & s6 & H6 & H3). inversion H6; subst s6; clear H6.
      destruct (str_in allow_rule _); inversion H3; reflexivity.
    + right. inversion H3. reflexivity.
Qed.

End Listen.
(** *** The attributes of [State] over the passes of [parse_config] *)

Section StateAttributes.

Context (ext : Externals).

#[local] Abbreviation State := (State ext).
#[local] Abbreviation pyval := (pyval ext).

Local Open Scope monad_scope.

(** What a callback that returns has written: its own attribute, and
    nothing else. *)
Record frame (name : string) (s s' : State) : Prop := {
  frame_config : config ext s' = config ext s;
  frame_stdout : stdout ext s' = stdout ext s;
  frame_dlog : dlog ext s' = dlog ext s;
  frame_hostonly : hostonly ext s' = hostonly ext s;
  frame_pac : name <> "pac" -> pac ext s' = pac ext s;
  frame_listen : name <> "listen" -> listen ext s' = listen ext s;
  frame_allow : name <> "allow" -> allow ext s' = allow ext s;
  frame_noproxy : name <> "noproxy" -> noproxy ext s' = noproxy ext s;
  frame_useragent : name <> "useragent" -> useragent ext s' = useragent ext s;
  frame_username : name <> "username" -> username ext s' = username ext s;
  frame_auth : name <> "auth" -> auth ext s' = auth ext s;
  frame_debug : name <> "log" ->
                debug ext s' = debug ext s /\ location ext s' = location ext s;
  frame_idle : name <> "idle" -> idle ext s' = idle ext s;
  frame_socktimeout : name <> "socktimeout" ->
                      socktimeout ext s' = socktimeout ext s
                      /\ defaulttimeout ext s' = defaulttimeout ext s;
  frame_proxyreload : name <> "proxyreload" -> proxyreload ext s' = proxyreload ext s
}.

Lemma frame_refl (name : string) (s : State) : frame name s s.
Proof. constructor; intros; auto. Qed.

Ltac frame_done :=
  constructor; intros; try split; first [reflexivity | congruence].

Lemma callbacks_frame (name : string) (p : pyval -> M State unit) (v : pyval)
    (s s' : State) :
  callbacks ext name = Some p -> p v s = (inr tt, s') -> frame name s s'.
Proof.
  unfold callbacks.
  repeat match goal with
         | |- context [String.eqb name ?k] => destruct (String.eqb_spec name k)
         end;
    intros [= <-]; subst name.
  - unfold set_pac, sys_exit, pprint, bind, modify, ret, raise.
    repeat match goal with
           | |- context [if ?b then _ else _] => destruct b
           | |- context [match file_url_to_local_path ext ?x with _ => _ end] =>
               destruct (file_url_to_local_path ext x)
           end;
      intros [= <-]; frame_done.
  - destruct (set_listen_run ext v s) as (added & -> & _). intros [= <-]. frame_done.
  - unfold set_allow, modify. intros [= <-]. frame_done.
  - unfold set_noproxy, modify. intros [= <-]. frame_done.
  - unfold set_useragent, modify. intros [= <-]. frame_done.
  - unfold set_username, modify. intros [= <-]. frame_done.
  - unfold set_auth, modify, raise. destruct (getauth_ok ext _); intros [= <-]. frame_done.
  - unfold set_debug, bind, gets, modify, ret. destruct (negb _ && _); intros [= <-]; frame_done.
  - unfold set_idle, modify. intros [= <-]. frame_done.
  - unfold set_socktimeout, bind, modify, raise.
    destruct v; repeat match goal with |- context [if ?b then _ else _] => destruct b end;
      intros [= <-]; frame_done.
  - unfold set_proxyreload, modify. intros [= <-]. frame_done.
Qed.

(** The value a [cfg_*_init] helper hands to the callback. *)
Definition py_value (kd : kind) (v : string) : pyval :=
  match kd with
  | KStr => PStr v
  | KInt => match PyStr.to_int v with Some n => PInt n | None => PStr v end
  | KFloat => match float_of_str ext v with Some x => PFloat x | None => PStr v end
  end.

(** One call of [cfg_init] on a key it knows: the option is stored, a
    message is printed when the value does not parse, and the callback of
    the key is called on the value. *)
Lemma cfg_init_run (name val : string) (ov : bool) (s : State) (section : string)
    (kd : kind) :
  has_sections (config ext s) ->
  key_kind name = Some (section, kd) ->
  exists out,
    cfg_init ext name val ov s =
    apply_proc ext (callbacks ext name)
      (py_value kd (value_for section name val ov (config ext s)))
      (with_config ext (cfg_store ext name val ov (config ext s)) (with_stdout ext out s)).
Proof.
  intros [[po Hp] [so Hs]] Hk. unfold cfg_store. rewrite Hk. revert Hk.
  unfold cfg_init, key_kind, store, normal, py_value.
  destruct (str_in name proxy_str_keys).
  { intros [= <- <-]. rewrite (cfg_str_init_run ext _ _ _ _ _ _ _ Hp), Hp. cbv zeta.
    exists (stdout ext s). destruct s; reflexivity. }
  destruct (str_in name proxy_int_keys).
  { intros [= <- <-]. rewrite (cfg_int_init_run ext _ _ _ _ _ _ _ Hp), Hp. cbv zeta.
    destruct (PyStr.to_int _); eexists; [instantiate (1 := stdout ext s)|];
      destruct s; reflexivity. }
  destruct (str_in name settings_int_keys).
  { intros [= <- <-]. rewrite (cfg_int_init_run ext _ _ _ _ _ _ _ Hs), Hs. cbv zeta.
    destruct (PyStr.to_int _); eexists; [instantiate (1 := stdout ext s)|];
      destruct s; reflexivity. }
  destruct (str_in name settings_float_keys).
  { intros [= <- <-]. rewrite (cfg_float_init_run ext _ _ _ _ _ _ _ Hs), Hs. cbv zeta.
    destruct (float_of_str ext _); eexists; [instantiate (1 := stdout ext s)|];
      destruct s; reflexivity. }
  discriminate.
Qed.

Lemma cfg_init_unknown (name val : string) (ov : bool) (s : State) :
  key_kind name = None -> cfg_init ext name val ov s = (inr tt, s).
Proof.
  unfold cfg_init, key_kind.
  repeat match goal with |- context [if ?b then _ else _] => destruct b end;
    first [discriminate | reflexivity].
Qed.

(** One call of [cfg_init] that returns: besides the configuration and
    the messages, only the attribute of the key has changed. *)
Lemma cfg_init_frame (name val : string) (ov : bool) (s s' : State) :
  has_sections (config ext s) ->
  cfg_init ext name val ov s = (inr tt, s') ->
  config ext s' = cfg_store ext name val ov (config ext s)
  /\ exists out, frame name (with_config ext (config ext s') (with_stdout ext out s)) s'.
Proof.
  intros Hs H. split; [exact (cfg_init_store ext _ _ _ _ _ Hs H)|].
  destruct (key_kind name) as [[section kd]|] eqn:Hk.
  - destruct (cfg_init_run name val ov s section kd Hs Hk) as (out & E).
    rewrite E in H. exists out. unfold apply_proc in H.
    destruct (callbacks ext name) as [p|] eqn:Hc.
    + pose proof (callbacks_frame _ _ _ _ _ Hc H) as F.
      rewrite (frame_config _ _ _ F). exact F.
    + inversion H. apply frame_refl.
  - rewrite (cfg_init_unknown _ _ _ _ Hk) in H. inversion H; subst s'.
    exists (stdout ext s). destruct s. apply frame_refl.
Qed.

(** An invariant of [State] that the call of [cfg_init] on the key [k]
    establishes and the calls on the other keys preserve. *)
Section Invariant.

Variable (k : string) (I : State -> Prop).

Hypothesis establish : forall val ov s s',
  has_sections (config ext s) -> cfg_init ext k val ov s = (inr tt, s') -> I s'.

Hypothesis preserve : forall name val ov s s',
  name <> k -> has_sections (config ext s) -> I s ->
  cfg_init ext name val ov s = (inr tt, s') -> I s'.

Lemma for_each_cfg_init_inv (l : Dict.t) (ov : bool) (s s' : State) :
  has_sections (config ext s) ->
  I s \/ In k (Dict.keys l) ->
  for_each l (fun nv => cfg_init ext (fst nv) (snd nv) ov) s = (inr tt, s') ->
  I s' /\ has_sections (config ext s').
Proof.
  revert s. induction l as [|[n v0] l IH]; simpl; intros s Hs Hi H.
  - inversion H; subst. split; [|exact Hs]. destruct Hi as [Hi|[]]. exact Hi.
  - apply bind_inr in H as ([] & s1 & H1 & H2). simpl in H1.
    assert (Hs1 : has_sections (config ext s1)).
    { rewrite (cfg_init_store ext _ _ _ _ _ Hs H1). apply has_sections_cfg_store, Hs. }
    apply (IH s1 Hs1); [|exact H2].
    destruct (String.eqb_spec n k) as [->|Hne].
    + left. exact (establish _ _ _ _ Hs H1).
    + destruct Hi as [Hi|[Hk|Hk]]; [left | congruence | right; exact Hk].
      exact (preserve _ _ _ _ _ Hne Hs Hi H1).
Qed.

Hypothesis has_default : In k (Dict.keys defaults).

Lemma parse_config_init_inv (flags env : Dict.t) (ini : Config) (s s' : State) :
  parse_config_init ext flags env ini s = (inr tt, s') ->
  I s' /\ has_sections (config ext s').
Proof.
  unfold parse_config_init. intros H.
  apply bind_inr in H as ([] & s1 & H1 & H). inversion H1; subst s1; clear H1.
  apply bind_inr in H as ([] & s2 & H2 & H).
  apply bind_inr in H as ([] & s3 & H3 & H).
  apply bind_inr in H as (loc & s4 & H4 & H). inversion H4; subst; clear H4.
  apply bind_inr in H as ([] & s5 & H5 & H).
  apply bind_inr in H as ([] & s6 & H6 & H).
  apply bind_inr in H as ([] & s7 & H7 & H).
  assert (E3 : config ext s4 = add_section "settings" (add_section "proxy" ini)).
  { unfold ensure_section, bind, gets, modify, ret, add_section in *.
    simpl in H2. destruct (ini !! "proxy") eqn:Ep; inversion H2; subst s2; clear H2;
      simpl in H3; simpl;
      match type of H3 with context [match ?x with _ => _ end] => destruct x eqn:Es end;
      inversion H3; subst s4; simpl; rewrite ?Es; auto. }
  pose proof (has_sections_add ini) as Hsec. rewrite <- E3 in Hsec.
  assert (Hsec5 : has_sections (config ext s5)).
  { destruct Hsec as [Hpr [so Hso]].
    rewrite (cfg_int_init_run ext _ _ _ _ _ _ _ Hso) in H5.
    cbv zeta in H5. unfold apply_proc in H5.
    assert (Hst : forall v, has_sections (<["settings" := <["log" := v]> so]> (config ext s4))).
    { intros v. split; [rewrite lookup_insert_ne by done; exact Hpr
                       | rewrite lookup_insert_eq; eauto]. }
    destruct (PyStr.to_int _); inversion H5; apply Hst. }
  destruct (for_each_cfg_init_inv _ _ _ _ Hsec5 (or_intror has_default) H6) as [I6 Hsec6].
  destruct (for_each_cfg_init_inv _ _ _ _ Hsec6 (or_introl I6) H7) as [I7 Hsec7].
  exact (for_each_cfg_init_inv _ _ _ _ Hsec7 (or_introl I7) H).
Qed.

Hypothesis insensitive : forall s1 s2,
  (forall section name, name <> "workers" -> name <> "threads" ->
     lookup2 (config ext s1) section name = lookup2 (config ext s2) section name) ->
  noproxy ext s1 = noproxy ext s2 ->
  useragent ext s1 = useragent ext s2 -> username ext s1 = username ext s2 ->
  auth ext s1 = auth ext s2 -> pac ext s1 = pac ext s2 ->
  I s1 -> I s2.

Hypothesis not_allow : k <> "allow".

Lemma parse_config_propagate_inv (s s' : State) :
  has_sections (config ext s) -> I s ->
  parse_config_propagate ext s = (inr tt, s') -> I s'.
Proof.
  intros Hsec Hi. unfold parse_config_propagate. intros H.
  apply bind_inr in H as (gateway & s1 & H1 & H).
  apply config_getint_inr in H1 as [-> _].
  apply bind_inr in H as (allow_rule & s2 & H2 & H).
  apply config_get_inr in H2 as [-> _].
  apply bind_inr in H as ([] & s3 & H3 & H).
  apply bind_inr in H as (h & s4 & H4 & H).
  apply config_getint_inr in H4 as [-> H4].
  assert (I3 : I s3 /\ has_sections (config ext s3)).
  { destruct (gateway =? 1).
    - apply bind_inr in H3 as ([] & s5 & H5 & H3). inversion H5; subst s5; clear H5.
      apply bind_inr in H3 as ([] & s6 & H6 & H3). inversion H6; subst s6; clear H6.
      destruct (str_in allow_rule _); inversion H3; subst s3;
        (split; [eapply insensitive; [..|exact Hi]; reflexivity | exact Hsec]).
    - inversion H3; subst s3. auto. }
  destruct I3 as [I3 Hsec3].
  destruct (h =? 1); [|inversion H; subst; exact I3].
  apply bind_inr in H as ([] & s5 & H5 & H). inversion H5; subst s5; clear H5.
  apply bind_inr in H as ([] & s6 & H6 & H). inversion H6; subst s6; clear H6.
  apply bind_inr in H as ([] & s7 & H7 & H). inversion H7; subst s7; clear H7.
  apply bind_inr in H as ([] & s8 & H8 & H). inversion H8; subst s8; clear H8.
  destruct ((gateway =? 0) || _).
  - apply bind_inr in H as ([] & s9 & H9 & H). inversion H; subst s'; clear H.
    assert (I9 : I s9).
    { refine (preserve "allow" "" true _ _ _ _ _ H9);
        [congruence | exact Hsec3 | eapply insensitive; [..|exact I3]; reflexivity]. }
    eapply insensitive; [..|exact I9]; reflexivity.
  - inversion H; subst s'.
    eapply insensitive; [..|exact I3]; reflexivity.
Qed.

(** [parse_config], when it returns, has established the invariant. *)
Lemma parse_config_inv (argv : list string) (environ : list (string * string))
    (ini : Config) (s s' : State) :
  parse_config ext argv environ ini s = (inr tt, s') -> I s'.
Proof.
  intros H.
  apply parse_config_inr in H as (s0 & s1 & s2 & out & w & t & mc & _ & Hinit & Hprop & ->).
  apply parse_config_init_inv in Hinit as [I1 Hsec1].
  pose proof (parse_config_propagate_inv _ _ Hsec1 I1 Hprop) as I2.
  eapply insensitive; [..|exact I2]; try reflexivity.
  intros section name Hw Ht. symmetry. apply lookup2_test_config; assumption.
Qed.

End Invariant.

(** *** Nothing else gets into [State.listen] *)

Lemma interfaces_of_In (x : string) (fields : list string) :
  In x (interfaces_of fields) <-> x <> "" /\ exists f, In f fields /\ x = PyStr.strip f.
Proof.
  unfold interfaces_of. rewrite filter_In, in_map_iff. split.
  - intros [(f & <- & Hf) Hlen]. split; [|eauto].
    intros E. rewrite E in Hlen. discriminate Hlen.
  - intros [Hne (f & Hf & ->)]. split; [eauto|].
    destruct (PyStr.strip f); [contradiction | reflexivity].
Qed.

Lemma cfg_init_listen_upper (name val : string) (ov : bool) (s s' : State) :
  has_sections (config ext s) ->
  cfg_init ext name val ov s = (inr tt, s') ->
  forall x, In x (listen ext s') ->
    In x (listen ext s)
    \/ (name = "listen"
        /\ In x (interfaces (value_for "proxy" "listen" val ov (config ext s)))).
Proof.
  intros Hs H x Hx. destruct (String.eqb_spec name "listen") as [->|Hne].
  - destruct (cfg_init_run "listen" val ov s _ _ Hs eq_refl) as (out & E).
    rewrite E in H. revert H.
    change (callbacks ext "listen") with (Some (set_listen ext)).
    unfold apply_proc, py_value.
    match goal with |- context [set_listen ext ?v ?s0] =>
      destruct (set_listen_run ext v s0) as (added & Hrun & _ & Hall & _); rewrite Hrun end.
    intros [= <-]. simpl in Hx. apply in_app_or in Hx as [Hx|Hx]; [left; exact Hx|].
    right. split; [reflexivity|].
    rewrite Forall_forall in Hall. apply list_elem_of_In in Hx.
    destruct (Hall x Hx) as (Hne & f & Hf & ->).
    apply interfaces_of_In. split; [exact Hne|]. exists f. split; [exact Hf | reflexivity].
  - left. destruct (cfg_init_frame _ _ _ _ _ Hs H) as (_ & out & F).
    rewrite (frame_listen _ _ _ F Hne) in Hx. exact Hx.
Qed.

Lemma for_each_cfg_init_listen_upper (l : Dict.t) (ov : bool) (s s' : State) :
  has_sections (config ext s) ->
  ov = true \/ NoDup (Dict.keys l) ->
  for_each l (fun nv => cfg_init ext (fst nv) (snd nv) ov) s = (inr tt, s') ->
  forall x, In x (listen ext s') ->
    In x (listen ext s)
    \/ exists v, In ("listen", v) l
                 /\ In x (interfaces (value_for "proxy" "listen" v ov (config ext s))).
Proof.
  revert s. induction l as [|[n v0] l IH]; simpl; intros s Hs Hov H x Hx.
  - inversion H; subst. left. exact Hx.
  - apply bind_inr in H as ([] & s1 & H1 & H2). simpl in H1.
    pose proof (cfg_init_store ext _ _ _ _ _ Hs H1) as Hcfg.
    assert (Hs1 : has_sections (config ext s1))
      by (rewrite Hcfg; apply has_sections_cfg_store, Hs).
    assert (Hov' : ov = true \/ NoDup (Dict.keys l)).
    { destruct Hov as [->|Hnd]; [left; reflexivity | right].
      apply NoDup_cons in Hnd as [_ Hnd]. exact Hnd. }
    destruct (IH s1 Hs1 Hov' H2 x Hx) as [Hx1 | (v & Hin & Hv)].
    + destruct (cfg_init_listen_upper _ _ _ _ _ Hs H1 x Hx1) as [Hx0 | [-> Hv]].
      * left. exact Hx0.
      * right. exists v0. split; [left; reflexivity | exact Hv].
    + right. exists v. split; [right; exact Hin|].
      destruct Hov as [->|Hnd]; [exact Hv|].
      assert (Hne : n <> "listen").
      { apply NoDup_cons in Hnd as [Hn _]. intros ->. apply Hn.
        apply list_elem_of_In. change "listen" with (fst ("listen", v)).
        apply in_map, Hin. }
      rewrite (value_for_lookup "proxy" "listen" v ov (config ext s) (config ext s1));
        [exact Hv|].
      rewrite Hcfg. symmetry. apply lookup2_cfg_store_ne, Hne.
Qed.

Lemma In_get (k v : string) (d : Dict.t) :
  NoDup (Dict.keys d) -> In (k, v) d -> Dict.get k d = Some v.
Proof.
  induction d as [|[k' v'] d IH]; simpl; [intros _ []|].
  intros Hnd [[= -> ->]|Hin].
  - rewrite String.eqb_refl. reflexivity.
  - apply NoDup_cons in Hnd as [Hn Hnd].
    destruct (String.eqb_spec k' k) as [->|Hne]; [|apply IH; assumption].
    exfalso. apply Hn. apply list_elem_of_In. change k with (fst (k, v)).
    apply in_map, Hin.
Qed.

Lemma parse_config_init_listen_upper (flags env : Dict.t) (ini : Config) (s s' : State) :
  NoDup (Dict.keys env) -> NoDup (Dict.keys flags) ->
  parse_config_init ext flags env ini s = (inr tt, s') ->
  forall x, In x (listen ext s') ->
    In x (listen ext s)
    \/ In x (interfaces (match lookup2 ini "proxy" "listen" with
                         | Some v => PyStr.strip v
                         | None => "127.0.0.1"
                         end))
    \/ (exists v, Dict.get "listen" env = Some v /\ In x (interfaces v))
    \/ (exists v, Dict.get "listen" flags = Some v /\ In x (interfaces v)).
Proof.
  intros Hnde Hndf. unfold parse_config_init. intros H.
  apply bind_inr in H as ([] & s1 & H1 & H). inversion H1; subst s1; clear H1.
  apply bind_inr in H as ([] & s2 & H2 & H).
  apply bind_inr in H as ([] & s3 & H3 & H).
  apply bind_inr in H as (loc & s4 & H4 & H). inversion H4; subst; clear H4.
  apply bind_inr in H as ([] & s5 & H5 & H).
  apply bind_inr in H as ([] & s6 & H6 & H).
  apply bind_inr in H as ([] & s7 & H7 & H).
  assert (E3 : config ext s4 = add_section "settings" (add_section "proxy" ini)
               /\ listen ext s4 = listen ext s).
  { unfold ensure_section, bind, gets, modify, ret, add_section in *.
    simpl in H2. destruct (ini !! "proxy") eqn:Ep; inversion H2; subst s2; clear H2;
      simpl in H3; simpl;
      match type of H3 with context [match ?x with _ => _ end] => destruct x eqn:Es end;
      inversion H3; subst s4; simpl; rewrite ?Es; auto. }
  destruct E3 as [E3 El4].
  pose proof (has_sections_add ini) as Hsec. rewrite <- E3 in Hsec.
  assert (E5 : config ext s5 =
               store "settings" "log" (normal ext KInt (py_str ext (location ext s4)))
                 (config ext s4)
               /\ listen ext s5 = listen ext s4).
  { destruct Hsec as [_ [so Hso]].
    rewrite (cfg_int_init_run ext _ _ _ _ _ _ _ Hso) in H5.
    cbv zeta in H5. unfold value_for, apply_proc in H5.
    unfold store, normal. rewrite Hso.
    destruct (PyStr.to_int (py_str ext (location ext s4)));
      inversion H5; split; reflexivity. }
  destruct E5 as [E5 El5].
  assert (Hsec5 : has_sections (config ext s5))
    by (rewrite E5; apply has_sections_store, Hsec).
  pose proof (for_each_cfg_init_store ext _ _ _ _ Hsec5 H6) as E6.
  assert (Hsec6 : has_sections (config ext s6)).
  { rewrite E6. clear -Hsec5. revert Hsec5. generalize (config ext s5).
    induction defaults as [|x l IH]; simpl; intros c Hc; [exact Hc|].
    apply IH, has_sections_cfg_store, Hc. }
  pose proof (for_each_cfg_init_store ext _ _ _ _ Hsec6 H7) as E7.
  assert (Hsec7 : has_sections (config ext s7)).
  { rewrite E7. clear -Hsec6. revert Hsec6. generalize (config ext s6).
    induction env as [|x l IH]; simpl; intros c Hc; [exact Hc|].
    apply IH, has_sections_cfg_store, Hc. }
  intros x Hx.
  destruct (for_each_cfg_init_listen_upper _ _ _ _ Hsec7 (or_introl eq_refl) H x Hx)
    as [Hx7 | (v & Hin & Hv)].
  2: { right. right. right. exists v. split; [apply In_get; assumption | exact Hv]. }
  destruct (for_each_cfg_init_listen_upper _ _ _ _ Hsec6 (or_introl eq_refl) H7 x Hx7)
    as [Hx6 | (v & Hin & Hv)].
  2: { right. right. left. exists v. split; [apply In_get; assumption | exact Hv]. }
  destruct (for_each_cfg_init_listen_upper _ _ _ _ Hsec5 (or_intror NoDup_defaults) H6
              x Hx6) as [Hx5 | (v & Hin & Hv)].
  - left. rewrite El5, El4 in Hx5. exact Hx5.
  - right. left.
    assert (Hv0 : v = "127.0.0.1").
    { pose proof (In_get _ _ _ NoDup_defaults Hin) as Hg. vm_compute in Hg.
      congruence. }
    subst v.
    assert (Hl : lookup2 (config ext s5) "proxy" "listen" = lookup2 ini "proxy" "listen").
    { rewrite E5, E3. rewrite lookup2_store_ne by discriminate.
      rewrite !lookup2_add_section. reflexivity. }
    unfold value_for in Hv. rewrite Hl in Hv. exact Hv.
Qed.

End StateAttributes.
(** ** File locations *)

(** [s[i] == c] for an index inside [s] *)
Definition char_is (i : nat) (c : ascii) (s : string) : bool :=
  match String.get i s with
  | Some a => Ascii.eqb a c
  | None => false
  end.

Lemma length_append (s1 s2 : string) :
  String.length (s1 ++ s2) = (String.length s1 + String.length s2)%nat.
Proof.
  induction s1 as [|a s1 IH]; [reflexivity|].
  change (String.length (String a (s1 ++ s2)) = S (String.length s1 + String.length s2)).
  simpl. rewrite IH. reflexivity.
Qed.

Lemma startswith_append (p s : string) : PyStr.startswith p (p ++ s) = true.
Proof.
  unfold PyStr.startswith. induction p as [|a p IH].
  - change ("" ++ s) with s. destruct s; reflexivity.
  - change (String.prefix (String a p) (String a (p ++ s)) = true). simpl.
    destruct (Ascii.ascii_dec a a); [exact IH | congruence].
Qed.

Module FileUrl.

(** [file_url_to_local_path], on the network location [parts.netloc] and
    the unquoted path [urllib.parse.unquote(parts.path)] of the URL;
    [None] when the function falls off its end. *)
Definition file_url_to_local_path (netloc path : string) : option string :=
  if PyStr.startswith "/" path && negb (PyStr.startswith "//" path) then
    if (String.length netloc =? 2)%nat && char_is 1 ":" netloc
    then Some (netloc ++ path)
    else Some ("C:" ++ path)
  else if (2 <? String.length path)%nat && char_is 1 ":" path
  then Some path
  else None.

End FileUrl.

Module Log.

(** What [get_logfile] reads besides its argument. *)
Record Env : Type := {
  process_name : string;             (* [multiprocessing.current_process().name] *)
  argv : list string;                (* [sys.argv] *)
  cwd : string;                      (* [os.getcwd()] *)
  script_dir : string;               (* [get_script_dir()] *)
  now : string;                      (* the text of [time.time()] *)
  path_join : string -> string -> string  (* [os.path.join] *)
}.

(** A file path, or [sys.stdout]. *)
Inductive target : Type :=
| File (path : string)
| Stdout.

Section GetLogfile.

Context (env : Env).

(** [get_logfile], for a location that is an [int]. *)
Definition get_logfile (location : Z) : option target :=
  let name := process_name env in
  let name := if str_in "--quit" (argv env) then "quit" else name in
  if location =? LOG_SCRIPTDIR then
    (* --log=1 - log to script directory = --debug *)
    Some (File (path_join env (script_dir env) ("debug-" ++ name ++ ".log")))
  else if location =? LOG_CWD then
    (* --log=2 - log to working directory *)
    Some (File (path_join env (cwd env) ("debug-" ++ name ++ ".log")))
  else if location =? LOG_UNIQLOG then
    (* --log=3 - log to working directory with unique filename = --uniqlog *)
    let name := match find (PyStr.startswith "--port=") (argv env) with
                | Some arg => PyStr.drop 7 arg ++ "-" ++ name   (* Add --port to filename *)
                | None => name
                end in
    let name := name ++ "-" ++ now env in
    Some (File (path_join env (cwd env) ("debug-" ++ name ++ ".log")))
  else if location =? LOG_STDOUT then
    (* --verbose | --log=4 - log to stdout *)
    Some Stdout
  else
    (* --log=0 - no logging *)
    None.

End GetLogfile.

End Log.

(** * Theorems *)

(** ** The [--proxy] synonym *)

(** After [parse_cli] there is no [proxy] key, whatever the command line. *)
Lemma parse_cli_no_proxy_key (argv : list string) :
  Dict.get "proxy" (parse_cli argv) = None.
Proof. rewrite get_parse_cli. reflexivity. Qed.

(** When a [--proxy] flag is given, its value is what [server] holds. *)
Lemma parse_cli_server_from_proxy (argv : list string) (v : string) :
  last_flag "proxy" argv = Some v ->
  Dict.get "server" (parse_cli argv) = Some v.
Proof. intros H. rewrite get_parse_cli, H. reflexivity. Qed.

(** C10, as stated, fails: a [--proxy] flag wins over a later [--server]
    flag, whereas of two [--server] flags the later one wins. On the
    command line [px --proxy=B --server=A] the effective server is [B];
    spelling the first flag [--server=B] gives [A]. *)
Lemma parse_cli_proxy_beats_later_server :
  parse_cli ["px"; "--proxy=B"; "--server=A"] = [("server", "B")] /\
  parse_cli ["px"; "--server=B"; "--server=A"] = [("server", "A")] /\
  Dict.get "server" (parse_cli (["px"] ++ ["--proxy=" ++ "B"] ++ ["--server=A"]))
  <> Dict.get "server" (parse_cli (["px"] ++ ["--server=" ++ "B"] ++ ["--server=A"])).
Proof. repeat split; try reflexivity. simpl. discriminate. Qed.

(** C10 (amended): [--proxy=X] is stored under [server] and the key [proxy]
    is removed; on every command line that has no [--proxy] flag before it
    and no [--server] flag after it, [--proxy=X] and [--server=X] give the
    same dictionary of flags. *)
Theorem parse_cli_proxy_synonym (pre post : list string) (x : string) :
  no_flag "proxy" pre = true ->
  no_flag "server" post = true ->
  Dict.get "proxy" (parse_cli (pre ++ ("--proxy=" ++ x) :: post)) = None /\
  forall k : string,
    Dict.get k (parse_cli (pre ++ ("--proxy=" ++ x) :: post)) =
    Dict.get k (parse_cli (pre ++ ("--server=" ++ x) :: post)).
Proof.
  intros Hpre Hpost. split; [apply parse_cli_no_proxy_key|].
  intros k. rewrite !get_parse_cli.
  apply no_flag_last in Hpre, Hpost.
  assert (Hcons : forall k' a l, last_flag k' (a :: l) =
            match last_flag k' l with
            | Some v => Some v
            | None => match cli_flag a with
                      | Some (n, v) => if String.eqb n k' then Some v else None
                      | None => None
                      end
            end) by reflexivity.
  rewrite !last_flag_app, !Hcons, cli_flag_proxy, cli_flag_server, Hpre, Hpost.
  destruct (String.eqb_spec k "proxy") as [->|Hp]; [reflexivity|].
  destruct (String.eqb_spec k "server") as [->|Hs].
  - simpl. destruct (last_flag "proxy" post); reflexivity.
  - destruct (String.eqb_spec "proxy" k); [congruence|].
    destruct (String.eqb_spec "server" k); [congruence|]. reflexivity.
Qed.

Lemma parse_cli_proxy_synonym_witness :
  no_flag "proxy" ["px"; "--port=1"] = true /\
  no_flag "server" ["--verbose"] = true /\
  Dict.get "server" (parse_cli (["px"; "--port=1"] ++ ("--proxy=" ++ "up:8080") :: ["--verbose"]))
  = Dict.get "server" (parse_cli (["px"; "--port=1"] ++ ("--server=" ++ "up:8080") :: ["--verbose"])).
Proof.
  split; [reflexivity|]. split; [reflexivity|].
  apply (parse_cli_proxy_synonym ["px"; "--port=1"] ["--verbose"] "up:8080");
    reflexivity.
Defined.

(** ** Configuration precedence *)

(** C2, as stated, fails for the key [allow]: with [--hostonly=1] (and no
    gateway mode) the dependency propagation replaces the rule given on the
    command line by the empty rule. *)
Lemma parse_config_hostonly_purges_allow :
  let argv := ["px"; "--hostonly=1"; "--allow=10.0.0.0/8"] in
  let r := parse_config ext0 argv [] ∅ (initial_State ext0) in
  fst r = inr tt /\
  Dict.get "allow" (parse_cli argv) = Some "10.0.0.0/8" /\
  by_precedence (parse_cli argv) (parse_env []) ∅ "proxy" "allow" = "10.0.0.0/8" /\
  lookup2 (config ext0 (snd r)) "proxy" "allow" = Some "" /\
  lookup2 (config ext0 (snd r)) "proxy" "allow"
  <> Some (by_precedence (parse_cli argv) (parse_env []) ∅ "proxy" "allow").
Proof. vm_compute. repeat split; discriminate. Qed.

(** The key [log] escapes the precedence too: its INI value is overwritten
    by the location chosen by [--debug], [--uniqlog] or [--verbose] even
    when none of them is given. *)
Lemma parse_config_log_ignores_ini :
  let ini : Config := {[ "settings" := {[ "log" := "4" ]} ]} in
  let r := parse_config ext0 ["px"] [] ini (initial_State ext0) in
  fst r = inr tt /\ lookup2 (config ext0 (snd r)) "settings" "log" = Some "0".
Proof. vm_compute. split; reflexivity. Qed.

(** A test ([--test=URL] or [PX_TEST]) is asked for. *)
Definition test_requested (flags env : Dict.t) : bool :=
  Dict.mem "test" flags || Dict.mem "test" env.

(** The configuration [parse_config] leaves is the one the precedence
    passes and the dependency propagation have made, but for the two
    options a test overwrites. *)
Lemma parse_config_stored (ext : Externals) (argv : list string)
    (environ : list (string * string)) (ini : Config) (s s' : State ext) :
  parse_config ext argv environ ini s = (inr tt, s') ->
  let flags := parse_cli (argv_after_debug argv) in
  let env := parse_env environ in
  exists c : Config,
    config ext s' = test_config flags env c
    /\ forall name section kd,
         key_kind name = Some (section, kd) ->
         name <> "log" ->
         (name = "allow" -> ~ hostonly_on c) ->
         lookup2 c section name
         = Some (normal ext kd (by_precedence flags env ini section name)).
Proof.
  intros H flags env.
  apply parse_config_inr in H as (s0 & s1 & s2 & out & w & t & mc & _ & Hinit & Hprop & ->).
  exists (config ext s2). split; [reflexivity|].
  intros name section kd Hk Hlog Hallow.
  apply parse_config_init_config in Hinit.
  apply parse_config_propagate_config in Hprop as [Hother Hoff].
  assert (E : lookup2 (config ext s2) section name = lookup2 (config ext s1) section name).
  { destruct (String.eqb_spec name "allow") as [->|Hne].
    - specialize (Hallow eq_refl).
      assert (Hh : lookup2 (config ext s2) "proxy" "hostonly"
                   = lookup2 (config ext s1) "proxy" "hostonly")
        by (apply Hother; discriminate).
      unfold hostonly_on in Hallow, Hoff. rewrite Hh in Hallow.
      rewrite (Hoff Hallow). reflexivity.
    - apply Hother, Hne. }
  rewrite E, Hinit.
  apply lookup2_config_after;
    first [apply NoDup_keys_parse_cli | apply NoDup_keys_parse_env | assumption].
Qed.

(** C2 (amended): when [parse_config] returns, the option stored in
    [State.config] under a key other than [log] is the value of its source
    of highest precedence -- CLI flag, else [PX_*] environment variable,
    else INI file, else built-in default -- read through [int] or [float]
    for the numeric keys. For [allow] this holds when hostonly mode is
    off, and when a test is asked for ([--test=URL] or [PX_TEST]) the
    options [workers] and [threads] are ["1"] whatever their sources
    say. *)
Theorem config_precedence (ext : Externals) (argv : list string)
    (environ : list (string * string)) (ini : Config) (s s' : State ext)
    (name section : string) (kd : kind) :
  parse_config ext argv environ ini s = (inr tt, s') ->
  key_kind name = Some (section, kd) ->
  name <> "log" ->
  (name = "allow" -> ~ hostonly_on (config ext s')) ->
  let flags := parse_cli (argv_after_debug argv) in
  let env := parse_env environ in
  lookup2 (config ext s') section name =
  Some (if test_requested flags env
           && (String.eqb name "workers" || String.eqb name "threads")
        then "1"
        else normal ext kd (by_precedence flags env ini section name)).
Proof.
  intros H Hk Hlog Hallow flags env.
  destruct (parse_config_stored ext argv environ ini s s' H) as (c & Ec & Hc).
  fold flags env in Ec, Hc. rewrite Ec in *.
  assert (Hstored : lookup2 c section name
                    = Some (normal ext kd (by_precedence flags env ini section name))).
  { apply Hc; [exact Hk | exact Hlog|]. intros ->. specialize (Hallow eq_refl).
    unfold hostonly_on in *. rewrite lookup2_test_config in Hallow by discriminate.
    exact Hallow. }
  assert (Hsec : name = "workers" \/ name = "threads" -> section = "settings"
                 /\ is_Some (c !! "settings")).
  { intros Hn.
    assert (section = "settings") as ->
      by (destruct Hn as [-> | ->]; vm_compute in Hk; congruence).
    split; [reflexivity|]. unfold lookup2 in Hstored.
    destruct (c !! "settings"); [eauto | discriminate Hstored]. }
  unfold test_requested, test_config.
  destruct (Dict.mem "test" flags || Dict.mem "test" env); cbn [andb]; [|exact Hstored].
  destruct (String.eqb_spec name "workers") as [->|Hw]; cbn [orb].
  { destruct Hsec as [-> Hs]; [auto|].
    rewrite lookup2_store_ne by discriminate. apply lookup2_store_eq, Hs. }
  destruct (String.eqb_spec name "threads") as [->|Ht].
  { destruct Hsec as [-> [opts Hs]]; [auto|].
    apply lookup2_store_eq. unfold store. rewrite Hs, lookup_insert_eq. eauto. }
  rewrite !lookup2_store_ne by congruence. exact Hstored.
Qed.

(** The case of the claim: INI [port=1000], [PX_PORT=2000] and
    [--port=3000] give the port 3000. *)
Lemma config_precedence_witness :
  let argv := ["px"; "--port=3000"] in
  let environ := [("PX_PORT", "2000")] in
  let ini : Config := {[ "proxy" := {[ "port" := "1000" ]} ]} in
  let r := parse_config ext0 argv environ ini (initial_State ext0) in
  fst r = inr tt /\ lookup2 (config ext0 (snd r)) "proxy" "port" = Some "3000".
Proof.
  intros argv environ ini r. split; [vm_compute; reflexivity|].
  refine (eq_trans
            (config_precedence ext0 argv environ ini (initial_State ext0) (snd r)
               "port" "proxy" KInt _ _ _ _) _).
  - apply run_result. vm_compute. reflexivity.
  - vm_compute. reflexivity.
  - intros H. vm_compute in H. discriminate H.
  - intros H. vm_compute in H. discriminate H.
  - vm_compute. reflexivity.
Defined.

(** The same case for any collaborators and any other settings: the port
    given on the command line is the one stored, which [run_pool] reads. *)
Corollary config_precedence_port (ext : Externals) (argv : list string)
    (environ : list (string * string)) (ini : Config) (s s' : State ext) :
  parse_config ext argv environ ini s = (inr tt, s') ->
  lookup2 ini "proxy" "port" = Some "1000" ->
  Dict.get "port" (parse_env environ) = Some "2000" ->
  Dict.get "port" (parse_cli (argv_after_debug argv)) = Some "3000" ->
  lookup2 (config ext s') "proxy" "port" = Some "3000".
Proof.
  intros H _ _ Hcli.
  destruct (parse_config_stored ext argv environ ini s s' H) as (c & Ec & Hc).
  rewrite Ec, lookup2_test_config by discriminate.
  rewrite (Hc "port" "proxy" KInt); [|reflexivity|discriminate|discriminate].
  unfold by_precedence. rewrite Hcli. reflexivity.
Qed.

(** A test overrides the precedence for [workers] and [threads]: with
    [--workers=4] on the command line and a test asked for, the option
    stored is ["1"]. (Port 80 cannot be bound here, so that [run_pool],
    and with it [parse_config], returns.) *)
Lemma parse_config_test_single_worker :
  let argv := ["px"; "--workers=4"; "--port=80"; "--test=http://example.com"] in
  let r := parse_config ext0 argv [] ∅ (initial_State ext0) in
  fst r = inr tt /\
  by_precedence (parse_cli argv) (parse_env []) ∅ "settings" "workers" = "4" /\
  lookup2 (config ext0 (snd r)) "settings" "workers" = Some "1" /\
  lookup2 (config ext0 (snd r)) "settings" "threads" = Some "1" /\
  stdout ext0 (snd r) = ["Permission denied"].
Proof. vm_compute. repeat split; reflexivity. Qed.

(** ** Values that do not parse *)

(** C8 fails on the code: an INI value that is not an integer is not
    replaced by the built-in default; it stays in the configuration. With
    [port = abc] in the file, [cfg_int_init("proxy", "port", "3128")]
    prints the message and leaves [abc], not [3128]; [run_pool] then
    fails on it with [ValueError]. With [gateway = abc] it is
    [parse_config] itself that fails, in the dependency propagation. *)
Lemma cfg_int_init_keeps_bad_value :
  let ini : Config := {[ "proxy" := {[ "port" := "abc" ]} ]} in
  let s := with_config ext0 ini (initial_State ext0) in
  let r := cfg_int_init ext0 "proxy" "port" "3128" None false s in
  let started := parse_config ext0 ["px"] [] ini (initial_State ext0) in
  let ini' : Config := {[ "proxy" := {[ "gateway" := "abc" ]} ]} in
  fst r = inr tt /\
  lookup2 (config ext0 (snd r)) "proxy" "port" = Some "abc" /\
  lookup2 (config ext0 (snd r)) "proxy" "port" <> Some "3128" /\
  stdout ext0 (snd r) = ["Invalid integer value for proxy:port"] /\
  fst started = inr tt /\
  lookup2 (config ext0 (snd started)) "proxy" "port" = Some "abc" /\
  fst (Pool.run_pool ext0 (host ext0) (Pool.mkProc ext0 (snd started) []))
  = inl (ValueError "invalid literal for int()") /\
  fst (parse_config ext0 ["px"] [] ini' (initial_State ext0))
  = inl (ValueError "invalid literal for int()").
Proof. vm_compute. repeat split; discriminate. Qed.

(** C8, what the code does instead: for a key whose INI value does not
    parse as an integer (as a float), [cfg_int_init] ([cfg_float_init])
    prints the error, stores the stripped INI text itself under that key,
    gives that text to the callback of the key, and changes no other
    option. The built-in default is not used. *)
Theorem cfg_init_invalid_value (ext : Externals) (section name dflt : string)
    (proc : option (pyval ext -> M (State ext) unit)) (s : State ext)
    (opts : gmap string string) (v : string) :
  config ext s !! section = Some opts ->
  opts !! name = Some v ->
  (PyStr.to_int (PyStr.strip v) = None ->
   cfg_int_init ext section name dflt proc false s =
   apply_proc ext proc (PStr (PyStr.strip v))
     (with_config ext (store section name (PyStr.strip v) (config ext s))
        (with_stdout ext
           (stdout ext s ++ [("Invalid integer value for " ++ section ++ ":" ++ name)%string])%list
           s)))
  /\ (float_of_str ext (PyStr.strip v) = None ->
      cfg_float_init ext section name dflt proc false s =
      apply_proc ext proc (PStr (PyStr.strip v))
        (with_config ext (store section name (PyStr.strip v) (config ext s))
           (with_stdout ext
              (stdout ext s ++ [("Invalid float value for " ++ section ++ ":" ++ name)%string])%list
              s)))
  /\ (forall section' name', name' <> name ->
        lookup2 (store section name (PyStr.strip v) (config ext s)) section' name'
        = lookup2 (config ext s) section' name')
  /\ lookup2 (store section name (PyStr.strip v) (config ext s)) section name
     = Some (PyStr.strip v).
Proof.
  intros Hsec Hopt.
  assert (Hval : value_for section name dflt false (config ext s) = PyStr.strip v).
  { unfold value_for, lookup2. rewrite Hsec. simpl. rewrite Hopt. reflexivity. }
  repeat split.
  - intros Hbad. rewrite (cfg_int_init_run ext _ _ _ _ _ _ _ Hsec).
    cbv zeta. rewrite Hval, Hbad. unfold store. rewrite Hsec. reflexivity.
  - intros Hbad. rewrite (cfg_float_init_run ext _ _ _ _ _ _ _ Hsec).
    cbv zeta. rewrite Hval, Hbad. unfold store. rewrite Hsec. reflexivity.
  - intros section' name' Hne. apply lookup2_store_ne. congruence.
  - apply lookup2_store_eq. rewrite Hsec. eauto.
Qed.

Lemma cfg_init_invalid_value_witness :
  let opts : gmap string string := {[ "idle" := " soon " ]} in
  let ini : Config := {[ "settings" := opts ]} in
  let s := with_config ext0 ini (initial_State ext0) in
  PyStr.to_int (PyStr.strip " soon ") = None /\
  idle ext0 (snd (cfg_int_init ext0 "settings" "idle" "30" (Some (set_idle ext0)) false s))
  = PStr "soon".
Proof.
  intros opts ini s. split; [reflexivity|].
  assert (H1 : config ext0 s !! "settings" = Some opts) by (vm_compute; reflexivity).
  assert (H2 : opts !! "idle" = Some " soon ") by (vm_compute; reflexivity).
  destruct (cfg_init_invalid_value ext0 "settings" "idle" "30" (Some (set_idle ext0))
              s opts " soon " H1 H2) as [Hint _].
  rewrite (Hint eq_refl). vm_compute. reflexivity.
Defined.

(** ** Admission *)



(** ** Proxy reload *)

(** C6: in every interleaving of the threads that call [reload_proxy],
    with a clock that does not go back and a refresh interval that is not
    negative: the refreshes on record are at least [State.proxyreload]
    seconds apart, however many threads call; while a thread reloads, no
    other does and the last refresh is at least [State.proxyreload]
    seconds old; a thread that finds the last refresh within the window
    leaves the proxy information as it is and skips; and with the proxies
    taken from the Px configuration ([MODE_CONFIG], [MODE_CONFIG_PAC])
    there is no refresh at all. *)
Theorem reload_proxy_at_most_once (s0 s : Reload.Sys) :
  Reload.initial s0 ->
  (0 <= Reload.proxyreload s0)%Q ->
  Reload.reachable s0 s ->
  (forall (i j : nat) (a b : Q),
     (i < j)%nat -> Reload.refreshes s !! i = Some a -> Reload.refreshes s !! j = Some b ->
     (b + Reload.proxyreload s0 <= a)%Q)
  /\ (forall (t u : nat) (l : Q),
        Reload.pcs s t = Reload.Loading \/ Reload.pcs s t = Reload.Stamping ->
        (Reload.in_critical (Reload.pcs s u) = true -> u = t)
        /\ (Reload.proxy_last_reload s = Some l ->
            (l + Reload.proxyreload s0 <= Reload.clock s)%Q))
  /\ (forall (s' : Reload.Sys) (t : nat),
        Reload.step s s' -> Reload.within_window s -> Reload.pcs s t = Reload.Locked ->
        Reload.wproxy s' = Reload.wproxy s
        /\ Reload.refreshes s' = Reload.refreshes s
        /\ (Reload.pcs s' t = Reload.Locked \/ Reload.pcs s' t = Reload.Unlocking))
  /\ (Reload.configured (Reload.wproxy s0) = true ->
      Reload.wproxy s = Reload.wproxy s0
      /\ Reload.refreshes s = Reload.refreshes s0
      /\ forall t, Reload.pcs s t = Reload.Idle).
Proof.
  intros H0 Hgap Hr.
  pose proof (Reload.Inv_reachable s0 s H0 Hr) as HI.
  pose proof (Reload.reachable_proxyreload s0 s Hr) as Hp.
  split.
  { pose proof (Reload.inv_spaced s HI) as Hs. rewrite Hp in Hs.
    exact (spaced_pairwise _ _ Hgap Hs). }
  split.
  { intros t u l Ht. split.
    - intros Hu. apply (Reload.Inv_alone s t u HI); [|exact Hu].
      destruct Ht as [Ht|Ht]; rewrite Ht; reflexivity.
    - intros Hl. rewrite <- Hp. exact (Reload.inv_due s HI t l Ht Hl). }
  split.
  { intros s' t Hstep Hwin Ht. exact (reload_within_window_skips s s' t HI Hstep Hwin Ht). }
  intros Hcfg. exact (reload_configured_frozen s0 s H0 Hcfg Hr).
Qed.

Lemma reload_proxy_at_most_once_witness :
  Reload.refreshes reload_s7 = [100%Q; 0%Q] /\ (0 + 60 <= 100)%Q.
Proof.
  split; [reflexivity|].
  assert (Hgap : (0 <= Reload.proxyreload reload_s0)%Q)
    by (intros H; vm_compute in H; discriminate H).
  exact (proj1 (reload_proxy_at_most_once reload_s0 reload_s7 reload_s0_initial Hgap
                  reload_s7_reachable)
           0%nat 1%nat 100%Q 0%Q ltac:(lia) eq_refl eq_refl).
Defined.
(** ** The request handler *)

(** C4: when the configure step rejects the chosen upstream, the handler
    answers 401 "Proxy server authentication failed" with the host and port
    of the upstream and returns: no credential is installed, the driver is
    not invoked. This holds whichever call raises; when no call raises the
    401 is sent and [do_curl] returns. *)
Theorem do_curl_proxy_rejected (ext : Externals) (st : State ext) (w : World ext)
    (req : Request) (h : Handler ext) (server : string) (port : Z)
    (more : list upstream) (netloc p : string) :
  find_proxy_for_url ext w (request_url req) = ((server, port) :: more, netloc, p) ->
  upstream_eqb (server, port) (DIRECT ext w) = false ->
  set_proxy ext w server port (noproxy_arg ext w) = false ->
  let out := do_curl ext st w req h in
  let reply := SendError 401
                 ("Proxy server authentication failed: " ++ server ++ ":" ++ PyStr.of_Z port) in
  exists evs,
    trace ext (snd out) = (trace ext h ++ evs)%list
    /\ existsb is_SetAuth evs = false
    /\ existsb contacts_upstream evs = false
    /\ (fst out = inr tt -> last evs = Some reply)
    /\ ((forall t e, fault ext w t e = None) ->
        fst out = inr tt /\ last_calls 2 evs = [SetProxy server port (noproxy_arg ext w); reply]).
Proof.
  intros Hfind Hdirect Hset out reply. subst out reply.
  focus_on (do_curl ext st w req h).
  destruct h as [c ps cc t].
  unfold do_curl, get_destination, configure_proxy.
  destruct c; run_handler ltac:(rewrite ?Hfind, ?Hdirect, ?Hset);
    unfocus; flat_trace; (eexists; split; [reflexivity|]);
    (split; [reflexivity|]); (split; [reflexivity|]);
    (split; [first [reflexivity | discriminate] |]);
    intros Hnf; first [ no_fault Hnf | split; reflexivity ].
Qed.

Lemma do_curl_proxy_rejected_witness :
  let w := world0 [("a", 1); ("b", 2); ("DIRECT", 0)] [("a", 1)] [] "linux" None in
  let out := do_curl ext0 (initial_State ext0) w get_request handler0 in
  set_proxy ext0 w "a" 1 (noproxy_arg ext0 w) = false /\
  fst out = inr tt /\
  last (trace ext0 (snd out)) = Some (SendError 401 "Proxy server authentication failed: a:1").
Proof.
  intros w out. split; [reflexivity|].
  destruct (do_curl_proxy_rejected ext0 (initial_State ext0) w get_request handler0
              "a" 1 [("b", 2); ("DIRECT", 0)] "example.com:443" "/"
              eq_refl eq_refl eq_refl) as (evs & Htrace & _ & _ & Hlast & Hnf).
  destruct (Hnf (fun _ _ => eq_refl)) as [Hret _].
  split; [exact Hret|].
  fold out in Htrace. rewrite Htrace. exact (Hlast Hret).
Defined.

(** C3, as stated, fails: with no username and no SSPI the handler answers
    501 only when the configure step has accepted the upstream; when it
    rejects it, the answer is 401 and no 501 is sent. *)
Lemma do_curl_no_credential_proxy_rejected :
  let st := initial_State ext0 in
  let w := world0 [("a", 1)] [("a", 1)] [] "linux" None in
  let out := do_curl ext0 st w get_request handler0 in
  username ext0 st = "" /\ platform ext0 w = "linux" /\
  fst out = inr tt /\
  existsb (is_SendError 501) (trace ext0 (snd out)) = false /\
  last (trace ext0 (snd out)) = Some (SendError 401 "Proxy server authentication failed: a:1").
Proof. intros st w out. repeat split; vm_compute; reflexivity. Qed.

(** C3 (amended): for a request routed to an upstream the configure step
    accepts, with no username configured and not on Windows, the handler
    answers 501 "SSPI not available and no username configured" and
    returns; the upstream is not contacted and no credential is installed.
    This holds whichever call raises; when no call raises the 501 is sent
    and [do_curl] returns. *)
Theorem do_curl_no_credential (ext : Externals) (st : State ext) (w : World ext)
    (req : Request) (h : Handler ext) (server : string) (port : Z)
    (more : list upstream) (netloc p : string) :
  find_proxy_for_url ext w (request_url req) = ((server, port) :: more, netloc, p) ->
  upstream_eqb (server, port) (DIRECT ext w) = false ->
  set_proxy ext w server port (noproxy_arg ext w) = true ->
  username ext st = "" ->
  String.eqb (platform ext w) "win32" = false ->
  let out := do_curl ext st w req h in
  let reply := SendError 501 "SSPI not available and no username configured" in
  exists evs,
    trace ext (snd out) = (trace ext h ++ evs)%list
    /\ existsb contacts_upstream evs = false
    /\ existsb is_SetAuth evs = false
    /\ (fst out = inr tt -> last evs = Some reply)
    /\ ((forall t e, fault ext w t e = None) ->
        fst out = inr tt /\
        last_calls 3 evs = [SetProxy server port (noproxy_arg ext w);
                            Dprint "SSPI not available and no username configured";
                            reply]).
Proof.
  intros Hfind Hdirect Hset Huser Hplat out reply. subst out reply.
  focus_on (do_curl ext st w req h).
  destruct h as [c ps cc t].
  unfold do_curl, get_destination, configure_proxy. rewrite Huser.
  destruct c; run_handler ltac:(rewrite ?Hfind, ?Hdirect, ?Hset, ?Hplat);
    unfocus; flat_trace; (eexists; split; [reflexivity|]);
    (split; [reflexivity|]); (split; [reflexivity|]);
    (split; [first [reflexivity | discriminate] |]);
    intros Hnf; first [ no_fault Hnf | split; reflexivity ].
Qed.

Lemma do_curl_no_credential_witness :
  let st := initial_State ext0 in
  let w := world0 [("a", 1); ("DIRECT", 0)] [] [] "linux" None in
  let out := do_curl ext0 st w get_request handler0 in
  username ext0 st = "" /\ String.eqb (platform ext0 w) "win32" = false /\
  fst out = inr tt /\
  last (trace ext0 (snd out))
  = Some (SendError 501 "SSPI not available and no username configured").
Proof.
  intros st w out. split; [reflexivity|]. split; [reflexivity|].
  destruct (do_curl_no_credential ext0 st w get_request handler0
              "a" 1 [("DIRECT", 0)] "example.com:443" "/"
              eq_refl eq_refl eq_refl eq_refl eq_refl) as (evs & Htrace & _ & _ & Hlast & Hnf).
  destruct (Hnf (fun _ _ => eq_refl)) as [Hret _].
  split; [exact Hret|].
  fold out in Htrace. rewrite Htrace. exact (Hlast Hret).
Defined.

(** *** CONNECT *)

(** A CONNECT request on which the driver succeeds, at the level of
    [do_curl]. *)
Lemma do_curl_connect_run (ext : Externals) (st : State ext) (w : World ext)
    (req : Request) (h : Handler ext) :
  command req = "CONNECT" ->
  (forall px, mcurl_do ext w (Build_Curl (path req) "CONNECT" px) = true) ->
  let out := do_curl ext st w req h in
  exists evs,
    trace ext (snd out) = (trace ext h ++ evs)%list
    /\ reply_before_splice 0 evs = true
    /\ (fst out = inr tt -> close_connection ext (snd out) = true)
    /\ ((forall t e, fault ext w t e = None) -> existsb is_McurlDo evs = true ->
        fst out = inr tt /\
        last_calls 6 evs = [Dprint (easyhash ext w ++ ": SSL connected");
                            SendResponse 200 "Connection established";
                            SendHeader "Proxy-Agent" (version_string ext w);
                            EndHeaders; McurlSelect (idle ext st); McurlRemove]).
Proof.
  intros Hcmd Hdo out. subst out.
  focus_on (do_curl ext st w req h).
  destruct h as [c ps cc t].
  unfold do_curl, get_destination, configure_proxy, perform_request. rewrite Hcmd.
  destruct c; run_handler ltac:(rewrite ?Hdo);
    unfocus; flat_trace; (eexists; split; [reflexivity|]);
    (split; [reflexivity|]);
    (split; [first [reflexivity | discriminate] |]);
    intros Hnf Hd;
    first [ no_fault Hnf | discriminate Hd | split; reflexivity ].
Qed.

(** What the two [except] clauses around a request do with an exception:
    they make calls that are no splice, and when they return the
    connection is to be closed. *)
Lemma handlers_run (ext : Externals) (w : World ext) (e : exn) (h : Handler ext) :
  let out := try_except (try_except (raise e) (on_timeout ext)) (on_socket_error ext w) h in
  exists evs,
    trace ext (snd out) = (trace ext h ++ evs)%list
    /\ existsb is_splice evs = false
    /\ existsb is_McurlDo evs = false
    /\ (fst out = inr tt -> close_connection ext (snd out) = true).
Proof.
  intros out. subst out.
  destruct h as [c ps cc t]. unfold on_timeout, on_socket_error.
  destruct e, c; run_handler idtac; flat_trace;
    first [ exists []; rewrite app_nil_r; repeat split; first [reflexivity | discriminate]
          | eexists; split; [reflexivity|]; split; [reflexivity|]; split; [reflexivity|];
            first [reflexivity | discriminate] ].
Qed.

Lemma try_except_bind {S A B : Type} (m : M S A) (k : A -> M S B)
    (h1 h2 : exn -> option (M S B)) (s : S) :
  try_except (try_except (bind m k) h1) h2 s =
  match m s with
  | (inl e, s') => try_except (try_except (raise e) h1) h2 s'
  | (inr a, s') => try_except (try_except (k a) h1) h2 s'
  end.
Proof. unfold try_except, bind, raise. destruct (m s) as [[e|a] s']; reflexivity. Qed.

Lemma last_calls_snoc {ext : Externals} (n : nat) (evs : list (event ext)) (e : event ext) :
  (n <= length evs)%nat -> last_calls (S n) (evs ++ [e]) = (last_calls n evs ++ [e])%list.
Proof.
  intros Hn. unfold last_calls. rewrite length_app. simpl.
  replace (length evs + 1 - S n)%nat with (length evs - n)%nat by lia.
  apply drop_app_le. lia.
Qed.

Lemma try_except_call {ext : Externals} (w : World ext) (e : event ext)
    (h1 h2 : exn -> option (M (Handler ext) unit)) (h : Handler ext) :
  try_except (try_except (call ext w e) h1) h2 h =
  match fault ext w (trace ext h) e with
  | Some x => try_except (try_except (raise x) h1) h2 (with_trace ext (trace ext h ++ [e]) h)
  | None => (inr tt, with_trace ext (trace ext h ++ [e]) h)
  end.
Proof. unfold try_except, call, raise. destruct (fault ext w (trace ext h) e); reflexivity. Qed.

(** A CONNECT request on which the driver succeeds, at the level of
    [handle_one_request]. *)
Lemma handle_one_request_connect_run (ext : Externals) (st : State ext) (w : World ext)
    (req : Request) (h : Handler ext) :
  command req = "CONNECT" ->
  (forall px, mcurl_do ext w (Build_Curl (path req) "CONNECT" px) = true) ->
  let out := handle_one_request ext st w req h in
  exists evs,
    trace ext (snd out) = (trace ext h ++ evs)%list
    /\ reply_before_splice 0 evs = true
    /\ (fst out = inr tt -> close_connection ext (snd out) = true)
    /\ ((forall t e, fault ext w t e = None) -> existsb is_McurlDo evs = true ->
        fst out = inr tt /\
        last_calls 7 evs = [Dprint (easyhash ext w ++ ": SSL connected");
                            SendResponse 200 "Connection established";
                            SendHeader "Proxy-Agent" (version_string ext w);
                            EndHeaders; McurlSelect (idle ext st); McurlRemove;
                            WfileFlush]).
Proof.
  intros Hcmd Hdo out. subst out.
  unfold handle_one_request, base_handle_one_request. cbv zeta. rewrite Hcmd.
  change (str_in ("do_" ++ "CONNECT") do_methods) with true. cbn [negb].
  rewrite try_except_bind.
  destruct (do_curl_connect_run ext st w req h Hcmd Hdo) as (evs & Ht & Hm & Hcc & Hlive).
  destruct (do_curl ext st w req h) as [[e|[]] h1]; simpl in Ht, Hcc, Hlive.
  - (* [do_curl] raises *)
    destruct (handlers_run ext w e h1) as (evs' & Ht' & Hs' & Hd' & Hcc').
    exists (evs ++ evs')%list. rewrite Ht', Ht, app_assoc.
    split; [reflexivity|]. split; [apply reply_before_splice_app; assumption|].
    split; [exact Hcc'|].
    intros Hnf Hd. exfalso.
    rewrite existsb_app, Hd', orb_false_r in Hd.
    destruct (Hlive Hnf Hd) as [[=] _].
  - (* [do_curl] returns, [self.wfile.flush()] follows *)
    rewrite try_except_call.
    destruct (fault ext w (trace ext h1) WfileFlush) as [e|] eqn:Hf.
    + pose proof (handlers_run ext w e (with_trace ext (trace ext h1 ++ [WfileFlush]) h1))
        as (evs' & Ht' & Hs' & _ & Hcc').
      exists (evs ++ WfileFlush :: evs')%list.
      split.
      { rewrite Ht'. simpl. rewrite Ht, <- !app_assoc. reflexivity. }
      split.
      { apply reply_before_splice_app; [exact Hm|]. simpl. exact Hs'. }
      split; [exact Hcc'|].
      intros Hnf _. rewrite Hnf in Hf. discriminate Hf.
    + exists (evs ++ [WfileFlush])%list. simpl.
      split; [rewrite Ht, <- app_assoc; reflexivity|].
      split; [apply reply_before_splice_app; [exact Hm | reflexivity]|].
      split; [intros _; apply Hcc; reflexivity|].
      intros Hnf Hd. split; [reflexivity|].
      rewrite existsb_app in Hd. simpl in Hd. rewrite orb_false_r in Hd.
      destruct (Hlive Hnf Hd) as [_ Hl].
      assert (Hlen : (6 <= length evs)%nat).
      { unfold last_calls in Hl. apply (f_equal length) in Hl.
        rewrite length_drop in Hl. simpl in Hl. lia. }
      rewrite (last_calls_snoc 6 evs WfileFlush Hlen), Hl. reflexivity.
Qed.

(** C5: for a CONNECT request on which the driver succeeds, the reply
    [200 Connection established] with its [Proxy-Agent] header and the end
    of the headers is sent before the splice starts
    ([reply_before_splice]); when the request has been handled the
    connection is marked close, so that [handle] takes no further request
    from it. When no call raises and the driver has been invoked, the
    handler returns after the reply, the splice, [mcurl.remove] and the
    flush, in this order. *)
Theorem connect_reply_then_close (ext : Externals) (st : State ext) (w : World ext)
    (req : Request) (h : Handler ext) :
  command req = "CONNECT" ->
  (forall px, mcurl_do ext w (Build_Curl (path req) "CONNECT" px) = true) ->
  let out := handle_one_request ext st w req h in
  (exists evs,
     trace ext (snd out) = (trace ext h ++ evs)%list
     /\ reply_before_splice 0 evs = true
     /\ (fst out = inr tt -> close_connection ext (snd out) = true)
     /\ ((forall t e, fault ext w t e = None) -> existsb is_McurlDo evs = true ->
         fst out = inr tt /\
         last_calls 7 evs = [Dprint (easyhash ext w ++ ": SSL connected");
                             SendResponse 200 "Connection established";
                             SendHeader "Proxy-Agent" (version_string ext w);
                             EndHeaders; McurlSelect (idle ext st); McurlRemove;
                             WfileFlush]))
  /\ (forall (close : bool) (rest : list (Request * bool)),
        handle ext st w ((req, close) :: rest) h = handle ext st w [(req, close)] h).
Proof.
  intros Hcmd Hdo out. split.
  - exact (handle_one_request_connect_run ext st w req h Hcmd Hdo).
  - intros close rest. simpl. unfold bind, modify, gets, ret.
    destruct (handle_one_request_connect_run ext st w req
                (with_close_connection ext close h) Hcmd Hdo) as (_ & _ & _ & Hcc & _).
    destruct (handle_one_request ext st w req (with_close_connection ext close h))
      as [[e|[]] h1]; [reflexivity|].
    simpl in Hcc. rewrite (Hcc eq_refl). reflexivity.
Qed.

Lemma connect_reply_then_close_witness :
  let st := with_username ext0 "u" (initial_State ext0) in
  let w := world0 [("a", 1); ("DIRECT", 0)] [] [] "linux" (Some "secret") in
  let out := handle_one_request ext0 st w connect_request handler0 in
  command connect_request = "CONNECT" /\
  fst out = inr tt /\
  close_connection ext0 (snd out) = true /\
  reply_before_splice 0 (trace ext0 (snd out)) = true /\
  last_calls 7 (trace ext0 (snd out))
  = [Dprint "easy1: SSL connected"; SendResponse 200 "Connection established";
     SendHeader "Proxy-Agent" "BaseHTTP/0.6 Python/3.11"; EndHeaders;
     McurlSelect (PInt 30); McurlRemove; WfileFlush].
Proof.
  intros st w out. split; [reflexivity|].
  assert (Hdo : forall px, mcurl_do ext0 w (Build_Curl (path connect_request) "CONNECT" px) = true)
    by (intros [p|]; reflexivity).
  destruct (connect_reply_then_close ext0 st w connect_request handler0 eq_refl Hdo)
    as [(evs & Ht & Hm & Hcc & Hlive) _].
  change (trace ext0 (snd out) = evs) in Ht.
  change (fst out = inr tt -> close_connection ext0 (snd out) = true) in Hcc.
  rewrite Ht.
  assert (Hd : existsb is_McurlDo evs = true)
    by (rewrite <- Ht; vm_compute; reflexivity).
  destruct (Hlive (fun _ _ => eq_refl) Hd) as [Hret Hlast].
  split; [exact Hret|]. split; [exact (Hcc Hret)|]. split; [exact Hm|]. exact Hlast.
Defined.

(** *** Upstream lists *)

(** C7, as stated, fails: only the first entry of the upstream list is
    ever used. With the list [a:1, b:2, DIRECT], [a:1] unreachable and
    [b:2] reachable, the request is tried through [a:1] once, the client is
    sent the error of the driver, and [b:2] is never configured. *)
Lemma do_curl_no_fallback :
  let st := with_username ext0 "u" (initial_State ext0) in
  let w := world0 [("a", 1); ("b", 2); ("DIRECT", 0)] [] [("a", 1)] "linux" (Some "secret") in
  let out := do_curl ext0 st w get_request handler0 in
  mcurl_do ext0 w (Build_Curl (path get_request) "GET" (Some ("b", 2))) = true /\
  fst out = inr tt /\
  proxies_set (trace ext0 (snd out)) = [("a", 1)] /\
  do_count (trace ext0 (snd out)) = 1%nat /\
  last_calls 2 (trace ext0 (snd out)) = [SendError 503 "Connection refused"; McurlRemove].
Proof. intros st w out. repeat split; vm_compute; reflexivity. Qed.

(** C7 (amended): for a request routed through an upstream list, only the
    first entry is configured on the driver and the driver is invoked at
    most once; when it fails on that entry the client is sent the error
    of the driver and no other entry is tried. *)
Theorem do_curl_first_proxy_only (ext : Externals) (st : State ext) (w : World ext)
    (req : Request) (h : Handler ext) (server : string) (port : Z)
    (more : list upstream) (netloc p : string) :
  find_proxy_for_url ext w (request_url req) = ((server, port) :: more, netloc, p) ->
  upstream_eqb (server, port) (DIRECT ext w) = false ->
  let out := do_curl ext st w req h in
  let c := Build_Curl (path req) (command req) (Some (server, port)) in
  exists evs,
    trace ext (snd out) = (trace ext h ++ evs)%list
    /\ (proxies_set evs = [] \/ proxies_set evs = [(server, port)])
    /\ (do_count evs <= 1)%nat
    /\ ((forall t e, fault ext w t e = None) ->
        existsb is_McurlDo evs = true ->
        mcurl_do ext w c = false ->
        fst out = inr tt /\
        proxies_set evs = [(server, port)] /\
        last_calls 2 evs = [SendError (resp ext w c) (errstr ext w c); McurlRemove]).
Proof.
  intros Hfind Hdirect out c. subst out c.
  focus_on (do_curl ext st w req h).
  destruct h as [c ps cc t].
  unfold do_curl, get_destination, configure_proxy, perform_request.
  destruct c; run_handler ltac:(rewrite ?Hfind, ?Hdirect);
    unfocus; flat_trace; (eexists; split; [reflexivity|]);
    (split; [first [left; reflexivity | right; reflexivity] |]);
    (split; [cbv; lia |]);
    intros Hnf Hd Hfail;
    first [ no_fault Hnf | discriminate Hd | congruence
          | split; [reflexivity|]; split; reflexivity ].
Qed.

Lemma do_curl_first_proxy_only_witness :
  let st := with_username ext0 "u" (initial_State ext0) in
  let w := world0 [("a", 1); ("b", 2); ("DIRECT", 0)] [] [("a", 1)] "linux" (Some "secret") in
  let out := do_curl ext0 st w get_request handler0 in
  upstream_eqb ("a", 1) (DIRECT ext0 w) = false /\
  proxies_set (trace ext0 (snd out)) = [("a", 1)].
Proof.
  intros st w out. split; [reflexivity|].
  destruct (do_curl_first_proxy_only ext0 st w get_request handler0 "a" 1
              [("b", 2); ("DIRECT", 0)] "example.com:443" "/" eq_refl eq_refl)
    as (evs & Ht & _ & _ & Hlive).
  change (trace ext0 (snd out) = evs) in Ht. rewrite Ht.
  assert (Hd : existsb is_McurlDo evs = true)
    by (rewrite <- Ht; vm_compute; reflexivity).
  destruct (Hlive (fun _ _ => eq_refl) Hd eq_refl) as (_ & Hp & _). exact Hp.
Defined.

(** *** Release of the easy handle *)

(** C9, as stated, fails: on the path that answers 401 (and likewise on
    the 501 path) [do_curl] returns right after [send_error];
    [mcurl.remove] is not called. *)
Lemma do_curl_401_skips_remove :
  let w := world0 [("a", 1); ("DIRECT", 0)] [("a", 1)] [] "linux" None in
  let out := do_curl ext0 (initial_State ext0) w get_request handler0 in
  fst out = inr tt /\
  existsb (is_SendError 401) (trace ext0 (snd out)) = true /\
  existsb is_McurlRemove (trace ext0 (snd out)) = false.
Proof. intros w out. repeat split; vm_compute; reflexivity. Qed.

(** C9 (amended): when [do_curl] returns after the driver has been invoked
    ([State.mcurl.do] was called), its last call is [mcurl.remove] on the
    easy handle; when it returns without invoking the driver it has sent
    401 or 501 as its last call and has not called [mcurl.remove]. When no
    call raises and the driver has been invoked, [do_curl] returns. *)
Theorem do_curl_remove (ext : Externals) (st : State ext) (w : World ext)
    (req : Request) (h : Handler ext) :
  let out := do_curl ext st w req h in
  exists evs,
    trace ext (snd out) = (trace ext h ++ evs)%list
    /\ (fst out = inr tt ->
        (existsb is_McurlDo evs = true /\ last evs = Some McurlRemove)
        \/ (existsb is_McurlDo evs = false /\ existsb is_McurlRemove evs = false
            /\ exists message, last evs = Some (SendError 401 message)
                               \/ last evs = Some (SendError 501 message)))
    /\ ((forall t e, fault ext w t e = None) -> existsb is_McurlDo evs = true ->
        fst out = inr tt).
Proof.
  intros out. subst out.
  focus_on (do_curl ext st w req h).
  destruct h as [c ps cc t].
  unfold do_curl, get_destination, configure_proxy, perform_request.
  destruct c; run_handler idtac;
    unfocus; flat_trace; (eexists; split; [reflexivity|]);
    (split;
     [ first [ discriminate
             | intros _; left; split; reflexivity
             | intros _; right; split; [reflexivity|]; split; [reflexivity|];
               eexists; first [left; reflexivity | right; reflexivity] ]
     | intros Hnf Hd; first [ no_fault Hnf | reflexivity | discriminate Hd ] ]).
Qed.

(** * Further properties of the code *)

(** ** [reload_proxy] *)

(** X1: In every execution of any number of threads calling [reload_proxy],
    any two refreshes are at least [State.proxyreload] seconds apart. *)
Theorem reload_proxy_spacing (s0 s : Reload.Sys) (i j : nat) (a b : Q) :
  Reload.initial s0 ->
  (0 <= Reload.proxyreload s0)%Q ->
  Reload.reachable s0 s ->
  (i < j)%nat ->
  Reload.refreshes s !! i = Some a ->
  Reload.refreshes s !! j = Some b ->
  (b + Reload.proxyreload s0 <= a)%Q.
Proof.
  intros H0 Hgap Hr Hij Ha Hb.
  pose proof (Reload.Inv_reachable s0 s H0 Hr) as HI.
  pose proof (Reload.inv_spaced s HI) as Hs.
  rewrite (Reload.reachable_proxyreload s0 s Hr) in Hs.
  exact (spaced_pairwise _ _ Hgap Hs i j a b Hij Ha Hb).
Qed.

Lemma reload_proxy_spacing_witness : (0 + Reload.proxyreload reload_s0 <= 100)%Q.
Proof.
  apply (reload_proxy_spacing reload_s0 reload_s7 0 1 100%Q 0%Q).
  - exact reload_s0_initial.
  - intros H. vm_compute in H. discriminate H.
  - exact reload_s7_reachable.
  - lia.
  - reflexivity.
  - reflexivity.
Defined.

(** X2: When the proxies come from the Px configuration ([MODE_CONFIG],
    [MODE_CONFIG_PAC]), no execution ever refreshes: [State.wproxy] and
    [State.proxy_last_reload] stay as they are and no thread gets past the
    first test of [reload_proxy]. *)
Theorem reload_proxy_configured (s0 s : Reload.Sys) :
  Reload.initial s0 ->
  Reload.configured (Reload.wproxy s0) = true ->
  Reload.reachable s0 s ->
  Reload.wproxy s = Reload.wproxy s0
  /\ Reload.proxy_last_reload s = Reload.proxy_last_reload s0
  /\ Reload.refreshes s = Reload.refreshes s0
  /\ Reload.state_lock s = None
  /\ forall t, Reload.pcs s t = Reload.Idle.
Proof.
  intros (Hidle & Hlock & _) Hcfg Hr.
  induction Hr as [|s s' _ IH Hstep]; [auto|].
  destruct IH as (Hw & Hl & Hrf & Hk & Hi).
  destruct Hstep as [s now Hnow | s t Hpc Hc | s t Hpc Hc | s t Hpc Hlk
                    | s t Hpc Hwin | s t Hpc Hwin | s t w Hpc | s t Hpc | s t Hpc | s t Hpc];
    simpl; auto;
    try (rewrite Hi in Hpc; discriminate Hpc).
  rewrite Hw in Hc. congruence.
Qed.

Lemma reload_proxy_configured_witness :
  let s0 := Reload.mkSys {| Reload.mode := Reload.MODE_CONFIG; Reload.generation := 0 |}
              None 60%Q None 0%Q (fun _ => Reload.Idle) [] in
  let s1 := Reload.mkSys {| Reload.mode := Reload.MODE_CONFIG; Reload.generation := 0 |}
              None 60%Q None 5%Q (fun _ => Reload.Idle) [] in
  Reload.refreshes s1 = Reload.refreshes s0.
Proof.
  intros s0 s1.
  assert (H0 : Reload.initial s0) by (repeat split).
  assert (Hr : Reload.reachable s0 s1).
  { eapply Reload.reach_step; [apply Reload.reach_start|].
    apply (Reload.step_tick s0 5%Q). simpl. intros H. vm_compute in H. discriminate H. }
  exact (proj1 (proj2 (proj2 (reload_proxy_configured s0 s1 H0 eq_refl Hr)))).
Defined.

(** X3: [State.state_lock] works: in every execution at most one thread is
    between [acquire] and [release], a thread is there exactly when it is
    the one holding the lock, and the lock is free exactly when no thread
    is there. *)
Theorem reload_proxy_mutex (s0 s : Reload.Sys) (t u : nat) :
  Reload.initial s0 ->
  Reload.reachable s0 s ->
  (Reload.in_critical (Reload.pcs s t) = true ->
   Reload.in_critical (Reload.pcs s u) = true -> t = u)
  /\ (Reload.in_critical (Reload.pcs s t) = true <-> Reload.state_lock s = Some t)
  /\ (Reload.state_lock s = None <->
      forall v, Reload.in_critical (Reload.pcs s v) = false).
Proof.
  intros H0 Hr.
  pose proof (Reload.Inv_reachable s0 s H0 Hr) as HI.
  split; [intros Ht Hu; symmetry; eapply Reload.Inv_alone; eassumption|].
  split; [split; [apply (Reload.inv_mutex s HI) | apply (Reload.inv_held s HI)]|].
  split.
  - intros Hfree v.
    destruct (Reload.in_critical (Reload.pcs s v)) eqn:Hv; [|reflexivity].
    apply (Reload.inv_mutex s HI) in Hv. congruence.
  - intros Hnone. destruct (Reload.state_lock s) as [v|] eqn:Hl; [|reflexivity].
    apply (Reload.inv_held s HI) in Hl. rewrite Hnone in Hl. discriminate Hl.
Qed.

Lemma reload_proxy_mutex_witness :
  let s2 := Reload.mkSys (Reload.wproxy reload_s0) (Some 0%Q) 60%Q (Some 1%nat) 0%Q
              (Reload.set_pc 1 Reload.Locked (Reload.set_pc 1 Reload.WantLock
                 (fun _ => Reload.Idle))) [0%Q] in
  Reload.state_lock s2 = Some 1%nat.
Proof.
  intros s2.
  assert (Hr : Reload.reachable reload_s0 s2).
  { eapply Reload.reach_step;
      [| apply (Reload.step_acquire
                  (Reload.mkSys (Reload.wproxy reload_s0) (Some 0%Q) 60%Q None 0%Q
                     (Reload.set_pc 1 Reload.WantLock (fun _ => Reload.Idle)) [0%Q]) 1%nat);
         reflexivity].
    eapply Reload.reach_step; [apply Reload.reach_start|].
    apply (Reload.step_enter reload_s0 1%nat); reflexivity. }
  exact (proj1 (proj1 (proj2 (reload_proxy_mutex reload_s0 s2 1 1 reload_s0_initial Hr)))
           eq_refl).
Defined.

(** ** [parse_cli] and [parse_env] *)

Lemma last_flag_In (k v : string) (argv : list string) :
  last_flag k argv = Some v -> exists arg, In arg argv /\ cli_flag arg = Some (k, v).
Proof.
  induction argv as [|a argv IH]; simpl; [discriminate|].
  destruct (last_flag k argv) as [v'|].
  - intros [= ->]. destruct (IH eq_refl) as (arg & Hin & Hf). eauto.
  - destruct (cli_flag a) as [[n v']|] eqn:Ea; [|discriminate].
    destruct (String.eqb_spec n k) as [->|]; [|discriminate].
    intros [= ->]. eauto.
Qed.

Lemma cli_flag_dashes (arg k v : string) :
  cli_flag arg = Some (k, v) ->
  PyStr.startswith "--" arg = true /\ (3 <= String.length arg)%nat.
Proof.
  unfold cli_flag.
  destruct (PyStr.startswith "--" arg); simpl; [|discriminate].
  destruct (Nat.ltb_spec (String.length arg) 3); [discriminate|]. auto.
Qed.

(** X4: Every entry of the dictionary [parse_cli] returns stems from an
    argument that starts with two dashes and is at least three characters
    long; the key is the name of that flag, or [server] for a [--proxy]
    flag. Positional arguments, single-dash options and the bare [--] leave
    no entry. *)
Theorem parse_cli_entries (argv : list string) (k v : string) :
  Dict.get k (parse_cli argv) = Some v ->
  exists arg,
    In arg argv
    /\ PyStr.startswith "--" arg = true
    /\ (3 <= String.length arg)%nat
    /\ (cli_flag arg = Some (k, v) \/ (k = "server" /\ cli_flag arg = Some ("proxy", v))).
Proof.
  rewrite get_parse_cli.
  destruct (String.eqb_spec k "proxy"); [discriminate|].
  destruct (String.eqb_spec k "server") as [->|].
  - destruct (last_flag "proxy" argv) as [v'|] eqn:Ep.
    + intros [= ->]. destruct (last_flag_In _ _ _ Ep) as (arg & Hin & Hf).
      destruct (cli_flag_dashes _ _ _ Hf) as [H1 H2]. exists arg.
      split; [exact Hin|]. split; [exact H1|]. split; [exact H2|]. right. auto.
    + intros H. destruct (last_flag_In _ _ _ H) as (arg & Hin & Hf).
      destruct (cli_flag_dashes _ _ _ Hf) as [H1 H2]. exists arg.
      split; [exact Hin|]. split; [exact H1|]. split; [exact H2|]. left. exact Hf.
  - intros H. destruct (last_flag_In _ _ _ H) as (arg & Hin & Hf).
    destruct (cli_flag_dashes _ _ _ Hf) as [H1 H2]. exists arg.
    split; [exact Hin|]. split; [exact H1|]. split; [exact H2|]. left. exact Hf.
Qed.

Lemma parse_cli_entries_witness :
  exists arg, In arg ["px"; "-v"; "--"; "--port=8080"] /\ cli_flag arg = Some ("port", "8080").
Proof.
  destruct (parse_cli_entries ["px"; "-v"; "--"; "--port=8080"] "port" "8080" eq_refl)
    as (arg & Hin & _ & _ & [Hf | [Hk _]]).
  - exists arg. split; assumption.
  - discriminate Hk.
Defined.

Lemma split1_name_value (k v : string) :
  PyStr.contains_char "=" k = false ->
  PyStr.split1 "=" (k ++ String "=" v) = (k, v)
  /\ PyStr.contains_char "=" (k ++ String "=" v) = true.
Proof.
  induction k as [|a k IH]; simpl; [auto|].
  destruct (Ascii.eqb a "="); [discriminate|].
  intros H. destruct (IH H) as [-> ->]. auto.
Qed.

Lemma cli_flag_named (k v : string) :
  PyStr.contains_char "=" k = false ->
  cli_flag ("--" ++ k ++ String "=" v) = Some (k, v).
Proof.
  intros Hk. destruct (split1_name_value k v Hk) as [Hs1 Hc].
  change ("--" ++ k ++ String "=" v) with (String "-" (String "-" (k ++ String "=" v))).
  unfold cli_flag.
  assert (Hpre : PyStr.startswith "--" (String "-" (String "-" (k ++ String "=" v))) = true).
  { unfold PyStr.startswith. simpl. destruct (k ++ String "=" v); reflexivity. }
  rewrite Hpre.
  change (PyStr.drop 2 (String "-" (String "-" (k ++ String "=" v)))) with (k ++ String "=" v).
  rewrite Hc, Hs1.
  replace (String.length (String "-" (String "-" (k ++ String "=" v))) <? 3)%nat with false.
  - reflexivity.
  - symmetry. apply Nat.ltb_ge. simpl. destruct k; simpl; lia.
Qed.

(** X5: A flag [--k=v] given last on the command line decides the value of
    [k] (for a name without [=] other than [proxy] and [server]), whatever
    precedes it; the value may itself contain [=]. *)
Theorem parse_cli_last_wins (argv : list string) (k v : string) :
  PyStr.contains_char "=" k = false ->
  k <> "proxy" -> k <> "server" ->
  Dict.get k (parse_cli (argv ++ [("--" ++ k ++ String "=" v)%string])) = Some v.
Proof.
  intros Hk Hp Hs. rewrite get_parse_cli.
  destruct (String.eqb_spec k "proxy"); [contradiction|].
  destruct (String.eqb_spec k "server"); [contradiction|].
  rewrite last_flag_app.
  change (last_flag k [("--" ++ k ++ String "=" v)%string])
    with (match cli_flag ("--" ++ k ++ String "=" v) with
          | Some (n, v0) => if String.eqb n k then Some v0 else None
          | None => None
          end).
  rewrite (cli_flag_named k v Hk), String.eqb_refl. reflexivity.
Qed.

Lemma parse_cli_last_wins_witness :
  Dict.get "noproxy" (parse_cli (["px"; "--noproxy=a"] ++ [("--" ++ "noproxy" ++ String "=" "b=c")%string]))
  = Some "b=c".
Proof.
  apply (parse_cli_last_wins ["px"; "--noproxy=a"] "noproxy" "b=c");
    [reflexivity | discriminate | discriminate].
Defined.

Lemma get_fold_env_step (k v : string) (l : list (string * string)) (d : Dict.t) :
  Dict.get k (fold_left env_step l d) = Some v ->
  Dict.get k d = Some v
  \/ exists var, In (var, v) l
                 /\ PyStr.startswith "PX_" var = true
                 /\ (3 < String.length var)%nat
                 /\ k = lower (PyStr.drop 3 var).
Proof.
  revert d. induction l as [|[var value] l IH]; intros d H; [left; exact H|].
  cbn [fold_left] in H.
  destruct (IH _ H) as [Hd | (var' & Hin & Hrest)].
  - unfold env_step in Hd.
    destruct (PyStr.startswith "PX_" var && (3 <? String.length var)%nat) eqn:Hc; [|auto].
    apply andb_true_iff in Hc as [Hpx Hlen]. apply Nat.ltb_lt in Hlen.
    revert Hd. rewrite Dict.get_set.
    destruct (String.eqb_spec (lower (PyStr.drop 3 var)) k) as [<-|]; [|auto].
    intros [= ->]. right. exists var. split; [left; reflexivity | auto].
  - right. exists var'. split; [right; exact Hin | exact Hrest].
Qed.

(** X6: Every entry of the dictionary [parse_env] returns comes from an
    environment variable whose name starts with [PX_] and is longer than
    that prefix; its key is the rest of the name in lower case. Other
    variables, and [PX_] itself, leave no entry. *)
Theorem parse_env_entries (environ : list (string * string)) (k v : string) :
  Dict.get k (parse_env environ) = Some v ->
  exists var,
    In (var, v) environ
    /\ PyStr.startswith "PX_" var = true
    /\ (3 < String.length var)%nat
    /\ k = lower (PyStr.drop 3 var).
Proof.
  intros H. destruct (get_fold_env_step k v environ [] H) as [Hd|Hex];
    [discriminate Hd | exact Hex].
Qed.

Lemma parse_env_entries_witness :
  exists var, In (var, "2000") [("HOME", "/root"); ("PX_Port", "2000")]
              /\ "port" = lower (PyStr.drop 3 var).
Proof.
  destruct (parse_env_entries [("HOME", "/root"); ("PX_Port", "2000")] "port" "2000" eq_refl)
    as (var & Hin & _ & _ & Hk).
  exists var. split; assumption.
Defined.

(** ** The setters *)

(** X7: [set_listen] always returns; it appends to [State.listen] the
    stripped fields of its argument that are not empty and not yet
    listed, so a list without duplicates stays without duplicates, no
    empty interface is ever added and every interface the argument names
    is listed afterwards; nothing else of [State] changes. *)
Theorem set_listen_appends_new (ext : Externals) (v : pyval ext) (s : State ext) :
  exists added,
    set_listen ext v s = (inr tt, with_listen ext (listen ext s ++ added)%list s)
    /\ (NoDup (listen ext s) -> NoDup (listen ext s ++ added)%list)
    /\ Forall (fun x => x <> "" /\ exists field, In field (PyStr.split "," (py_str ext v))
                                               /\ x = PyStr.strip field) added
    /\ (forall x, In x (interfaces (py_str ext v)) -> In x (listen ext s ++ added)%list).
Proof. exact (set_listen_run ext v s). Qed.

(** X8: Only the first call of [set_debug] with a log location takes effect:
    it records the location and creates [State.debug]; a later call, with
    whatever location, changes nothing. So [--debug], [--uniqlog] and
    [--verbose] win over the [log] option. *)
Theorem set_debug_first_wins (ext : Externals) (loc1 loc2 : pyval ext) (s : State ext) :
  debug ext s = false ->
  has_logfile ext loc1 = true ->
  let s1 := snd (set_debug ext loc1 s) in
  fst (set_debug ext loc1 s) = inr tt
  /\ location ext s1 = loc1 /\ debug ext s1 = true
  /\ set_debug ext loc2 s1 = (inr tt, s1).
Proof.
  intros Hd Hl. destruct s as [ho idl lis nop pc prl sto ua au un al cfg dbg loc out dl dto].
  simpl in Hd. subst dbg.
  unfold set_debug, bind, gets, modify, ret. simpl. rewrite Hl. simpl. auto.
Qed.

Lemma set_debug_first_wins_witness :
  location ext0 (snd (set_debug ext0 (PInt LOG_SCRIPTDIR) (initial_State ext0)))
  = PInt LOG_SCRIPTDIR.
Proof.
  exact (proj1 (proj2 (set_debug_first_wins ext0 (PInt LOG_SCRIPTDIR) (PInt LOG_STDOUT)
                         (initial_State ext0) eq_refl eq_refl))).
Defined.

(** ** [parse_config] *)

Lemma parse_config_debug_run (ext : Externals) (argv : list string) (s : State ext) :
  exists s1,
    parse_config_debug ext argv s = (inr (argv_after_debug argv), s1)
    /\ config ext s1 = config ext s /\ listen ext s1 = listen ext s
    /\ stdout ext s1 = stdout ext s.
Proof.
  assert (Hd : forall loc, exists s1, set_debug ext loc s = (inr tt, s1)
            /\ config ext s1 = config ext s /\ listen ext s1 = listen ext s
            /\ stdout ext s1 = stdout ext s).
  { intros loc. unfold set_debug, bind, gets, modify, ret.
    destruct (negb (debug ext s) && has_logfile ext loc);
      eexists; (split; [reflexivity|]); destruct s; simpl; auto. }
  unfold parse_config_debug, argv_after_debug, bind, ret.
  destruct (str_in "--debug" argv).
  { destruct (Hd (PInt LOG_SCRIPTDIR)) as (s1 & -> & H). exists s1. auto. }
  destruct (str_in "--uniqlog" argv).
  { destruct (Hd (PInt LOG_UNIQLOG)) as (s1 & -> & H). exists s1. auto. }
  destruct (str_in "--verbose" argv).
  { destruct (Hd (PInt LOG_STDOUT)) as (s1 & -> & H). exists s1. auto. }
  exists s. auto.
Qed.

(** X9: With [-h] or [--help] on the command line [parse_config] prints the
    help text and exits before the command line, the environment or the
    INI file are looked at: the configuration and the listen addresses are
    untouched. *)
Theorem parse_config_help (ext : Externals) (argv : list string)
    (environ : list (string * string)) (ini : Config) (s : State ext) :
  str_in "-h" argv || str_in "--help" argv = true ->
  exists s',
    parse_config ext argv environ ini s = (inl SystemExit, s')
    /\ config ext s' = config ext s
    /\ listen ext s' = listen ext s
    /\ stdout ext s' = (stdout ext s ++ [HELP ext])%list.
Proof.
  intros Hh.
  assert (Happ : forall x y l, str_in x (l ++ [y])%list = str_in x l || String.eqb x y).
  { intros x y l. unfold str_in. rewrite existsb_app. simpl. rewrite orb_false_r. reflexivity. }
  assert (Hh' : str_in "-h" (argv_after_debug argv) || str_in "--help" (argv_after_debug argv)
                = true).
  { unfold argv_after_debug.
    repeat match goal with |- context [if ?b then _ else _] => destruct b end;
      rewrite ?Happ; simpl; rewrite ?orb_false_r; exact Hh. }
  destruct (parse_config_debug_run ext argv s) as (s1 & Hrun & Hc & Hl & Ho).
  unfold parse_config. unfold bind at 1. rewrite Hrun.
  unfold bind at 1. rewrite Hh'.
  unfold pprint, sys_exit, bind, modify, raise.
  eexists. split; [reflexivity|]. simpl.
  destruct s1; simpl in *. subst. auto.
Qed.

Lemma parse_config_help_witness :
  fst (parse_config ext0 ["px"; "--port=1"; "--help"] [] ∅ (initial_State ext0))
  = inl SystemExit.
Proof.
  destruct (parse_config_help ext0 ["px"; "--port=1"; "--help"] [] ∅ (initial_State ext0)
              eq_refl) as (s' & H & _).
  rewrite H. reflexivity.
Defined.

(** X10: [--verbose] implies [--foreground]: when the debug log is chosen by
    [--verbose] and [--foreground] is not on the command line, the flags
    [parse_cli] sees have [foreground] set to ["1"], whatever
    [--foreground=...] flags were given. *)
Theorem verbose_implies_foreground (argv : list string) :
  str_in "--debug" argv = false ->
  str_in "--uniqlog" argv = false ->
  str_in "--verbose" argv = true ->
  str_in "--foreground" argv = false ->
  Dict.get "foreground" (parse_cli (argv_after_debug argv)) = Some "1".
Proof.
  intros Hd Hu Hv Hf. unfold argv_after_debug. rewrite Hd, Hu, Hv, Hf.
  rewrite get_parse_cli. simpl String.eqb. cbv iota.
  rewrite last_flag_app. reflexivity.
Qed.

Lemma verbose_implies_foreground_witness :
  Dict.get "foreground" (parse_cli (argv_after_debug ["px"; "--foreground=0"; "--verbose"]))
  = Some "1".
Proof.
  apply (verbose_implies_foreground ["px"; "--foreground=0"; "--verbose"]); reflexivity.
Defined.

(** X11: A [socktimeout] that is not a float stops the configuration: the
    error is printed, the text is stored, and the callback hands it to
    [socket.setdefaulttimeout], which raises [TypeError]; the default
    timeout of the sockets is not changed. *)
Theorem cfg_init_socktimeout_invalid (ext : Externals) (val : string) (ov : bool)
    (s : State ext) :
  has_sections (config ext s) ->
  float_of_str ext (value_for "settings" "socktimeout" val ov (config ext s)) = None ->
  exists s',
    cfg_init ext "socktimeout" val ov s = (inl (TypeError "a float is required"), s')
    /\ stdout ext s' = (stdout ext s ++ ["Invalid float value for settings:socktimeout"])%list
    /\ lookup2 (config ext s') "settings" "socktimeout"
       = Some (value_for "settings" "socktimeout" val ov (config ext s))
    /\ socktimeout ext s' = PStr (value_for "settings" "socktimeout" val ov (config ext s))
    /\ defaulttimeout ext s' = defaulttimeout ext s.
Proof.
  intros [_ [so Hs]] Hbad. unfold cfg_init.
  change (str_in "socktimeout" proxy_str_keys) with false.
  change (str_in "socktimeout" proxy_int_keys) with false.
  change (str_in "socktimeout" settings_int_keys) with false.
  change (str_in "socktimeout" settings_float_keys) with true.
  cbv iota. rewrite (cfg_float_init_run ext _ _ _ _ _ _ _ Hs). cbv zeta. rewrite Hbad.
  change (callbacks ext "socktimeout") with (Some (set_socktimeout ext)).
  unfold apply_proc, set_socktimeout, bind, modify, raise.
  eexists. split; [reflexivity|]. simpl.
  split; [reflexivity|]. split; [|split; reflexivity].
  unfold lookup2. rewrite lookup_insert_eq. simpl. apply lookup_insert_eq.
Qed.

Lemma cfg_init_socktimeout_invalid_witness :
  let s := with_config ext0 {[ "proxy" := ∅; "settings" := ∅ ]} (initial_State ext0) in
  fst (cfg_init ext0 "socktimeout" "soon" true s) = inl (TypeError "a float is required").
Proof.
  intros s.
  assert (Hsec : has_sections (config ext0 s)).
  { split; [exists ∅ | exists ∅]; vm_compute; reflexivity. }
  destruct (cfg_init_socktimeout_invalid ext0 "soon" true s Hsec eq_refl) as (s' & H & _).
  rewrite H. reflexivity.
Defined.

(** X12: The dependency propagation of [parse_config], on a
    configuration whose [gateway], [allow] and [hostonly] options are set
    (as they are after the initialisation): it returns; gateway or
    hostonly mode replace the listen addresses by the single entry [""]
    (all interfaces); hostonly mode sets [State.hostonly]; and the [allow]
    rule is emptied exactly when hostonly is on and either gateway is 0,
    or gateway is 1 with one of the two "everyone" rules. *)
Theorem parse_config_propagate_modes (ext : Externals) (s : State ext)
    (opts : gmap string string) (g a h : string) (gw hv : Z) :
  config ext s !! "proxy" = Some opts ->
  opts !! "gateway" = Some g -> PyStr.to_int g = Some gw ->
  opts !! "allow" = Some a ->
  opts !! "hostonly" = Some h -> PyStr.to_int h = Some hv ->
  let purge := (hv =? 1) && ((gw =? 0) || ((gw =? 1) && str_in a ["*.*.*.*"; "0.0.0.0/0"])) in
  exists s',
    parse_config_propagate ext s = (inr tt, s')
    /\ listen ext s' = (if (gw =? 1) || (hv =? 1) then [""] else listen ext s)
    /\ hostonly ext s' = (if hv =? 1 then true else hostonly ext s)
    /\ lookup2 (config ext s') "proxy" "allow" = Some (if purge then "" else a)
    /\ allow ext s' = (if purge then parse_noproxy_ips ext "" else allow ext s).
Proof.
  intros Hp Hg Hgw Ha Hh Hhv purge. subst purge.
  destruct s as [ho idl lis nop pc prl sto ua au un al cfg dbg loc out dl dto].
  simpl in Hp.
  assert (Hl : lookup2 cfg "proxy" "allow" = Some a) by (unfold lookup2; rewrite Hp; exact Ha).
  unfold parse_config_propagate, config_getint.
  destruct (gw =? 1) eqn:E1; destruct (hv =? 1) eqn:E2;
    destruct (gw =? 0) eqn:E0; destruct (str_in a ["*.*.*.*"; "0.0.0.0/0"]) eqn:Ea;
    repeat (progress
      (cbv beta iota zeta delta [bind gets modify ret raise config_get dprint orb andb];
       cbn [config dlog with_dlog with_listen with_hostonly fst snd];
       rewrite ?Hp, ?Hg, ?Hgw, ?Ha, ?Hh, ?Hhv, ?E1, ?E2, ?E0, ?Ea));
    try (erewrite cfg_str_init_run by (cbn [config]; exact Hp));
    cbv beta iota zeta delta [apply_proc set_allow modify value_for];
    cbn [config dlog with_dlog with_listen with_hostonly with_config with_allow fst snd];
    (eexists; split; [reflexivity|]);
    cbn [listen hostonly config allow];
    cbv beta iota delta [py_str];
    repeat split; try exact Hl;
    unfold lookup2; cbn [config with_dlog with_allow with_config with_listen with_hostonly];
    rewrite lookup_insert_eq; apply lookup_insert_eq.
Qed.

Definition hostonly_opts : gmap string string :=
  {[ "gateway" := "0"; "allow" := "*.*.*.*"; "hostonly" := "1" ]}.

Lemma parse_config_propagate_modes_witness :
  exists s',
    parse_config_propagate ext0
      (with_config ext0 {[ "proxy" := hostonly_opts ]} (initial_State ext0)) = (inr tt, s')
    /\ hostonly ext0 s' = true /\ listen ext0 s' = [""]
    /\ lookup2 (config ext0 s') "proxy" "allow" = Some "".
Proof.
  assert (H1 : config ext0 (with_config ext0 {[ "proxy" := hostonly_opts ]} (initial_State ext0))
               !! "proxy" = Some hostonly_opts) by (vm_compute; reflexivity).
  assert (H2 : hostonly_opts !! "gateway" = Some "0") by (vm_compute; reflexivity).
  assert (H3 : hostonly_opts !! "allow" = Some "*.*.*.*") by (vm_compute; reflexivity).
  assert (H4 : hostonly_opts !! "hostonly" = Some "1") by (vm_compute; reflexivity).
  destruct (parse_config_propagate_modes ext0 _ _ "0" "*.*.*.*" "1" 0 1
              H1 H2 eq_refl H3 H4 eq_refl) as (s' & H & Hl & Hh & Ha & _).
  exists s'. split; [exact H|]. split; [exact Hh|]. split; [exact Hl | exact Ha].
Defined.

(** ** More on the request handler *)

(** X13: A request for which [find_proxy_for_url] answers [DIRECT] first is
    sent without any proxy settings: [set_proxy], [set_auth] and the
    keyring are never called and [proxy_servers] is left as it was,
    whichever call raises; when no call raises the driver is invoked and
    [do_curl] returns after [mcurl.remove]. *)
Theorem do_curl_direct (ext : Externals) (st : State ext) (w : World ext)
    (req : Request) (h : Handler ext) (first : upstream) (more : list upstream)
    (netloc p : string) :
  find_proxy_for_url ext w (request_url req) = (first :: more, netloc, p) ->
  upstream_eqb first (DIRECT ext w) = true ->
  let out := do_curl ext st w req h in
  exists evs,
    trace ext (snd out) = (trace ext h ++ evs)%list
    /\ existsb is_SetProxy evs = false
    /\ auth_calls evs = []
    /\ existsb is_Keyring evs = false
    /\ proxy_servers ext (snd out) = proxy_servers ext h
    /\ ((forall t e, fault ext w t e = None) ->
        fst out = inr tt /\ existsb is_McurlDo evs = true /\ last evs = Some McurlRemove).
Proof.
  intros Hfind Hdirect out. subst out.
  focus_on (do_curl ext st w req h).
  destruct h as [c ps cc t].
  unfold do_curl, get_destination.
  destruct c; run_handler ltac:(rewrite ?Hfind, ?Hdirect).
  all: first [ reach_perform_request; cbn [fst snd trace proxy_servers] | unfocus ].
  all: flat_trace; (eexists; split; [reflexivity|]).
  all: unfold auth_calls in *;
    cbn [existsb omap list_omap is_SetProxy is_Keyring orb];
    rewrite ?Hquiet_proxy, ?Hquiet_auth, ?Hquiet_keyring;
    (split; [reflexivity|]); (split; [reflexivity|]); (split; [reflexivity|]);
    (split; [first [reflexivity | assumption] |]);
    intros Hnf;
    first [ no_fault Hnf
          | destruct (Hquiet_live Hnf ltac:(eexists; reflexivity)) as [Hr Hd];
            split; [exact Hr|]; split;
            [ cbn [existsb is_McurlDo orb]; exact Hd
            | repeat apply last_cons_some; apply Hquiet_last, Hr ] ].
Qed.

(** X14: The credentials given to the upstream: [set_auth] is called at most
    once, with the configured user name and the password of the
    environment variable [PX_PASSWORD] if it is set, of the keyring
    otherwise, or with [":"] and no password when no user name is
    configured (SSPI); the keyring is only consulted when a user name is
    configured and [PX_PASSWORD] is not set. When no call raises, the
    upstream is accepted and a user name or SSPI is available, the
    credentials are installed before the driver is invoked. *)
Theorem do_curl_credentials (ext : Externals) (st : State ext) (w : World ext)
    (req : Request) (h : Handler ext) (server : string) (port : Z)
    (more : list upstream) (netloc p : string) :
  find_proxy_for_url ext w (request_url req) = ((server, port) :: more, netloc, p) ->
  upstream_eqb (server, port) (DIRECT ext w) = false ->
  let out := do_curl ext st w req h in
  let user := username ext st in
  let expected :=
    if (String.length user =? 0)%nat then (":", None, auth ext st)
    else (user,
          match PX_PASSWORD ext w with
          | Some pw => Some pw
          | None => keyring_get_password ext w "Px" user
          end,
          auth ext st) in
  exists evs,
    trace ext (snd out) = (trace ext h ++ evs)%list
    /\ (auth_calls evs = [] \/ auth_calls evs = [expected])
    /\ (existsb is_Keyring evs = true ->
        (String.length user =? 0)%nat = false /\ PX_PASSWORD ext w = None)
    /\ ((forall t e, fault ext w t e = None) ->
        set_proxy ext w server port (noproxy_arg ext w) = true ->
        (String.length user =? 0)%nat = false \/ String.eqb (platform ext w) "win32" = true ->
        fst out = inr tt /\ auth_calls evs = [expected] /\ existsb is_McurlDo evs = true).
Proof.
  intros Hfind Hdirect out user expected. subst out user expected.
  destruct (String.length (username ext st) =? 0)%nat eqn:Hlen.
  all: focus_on (do_curl ext st w req h).
  all: destruct h as [c ps cc t].
  all: unfold do_curl, get_destination, configure_proxy.
  all: destruct c; run_handler ltac:(rewrite ?Hfind, ?Hdirect, ?Hlen).
  all: first [ reach_perform_request; cbn [fst snd trace proxy_servers] | unfocus ].
  all: flat_trace; (eexists; split; [reflexivity|]).
  all: unfold auth_calls in *;
    cbn [existsb omap list_omap is_SetProxy is_Keyring orb];
    rewrite ?Hquiet_proxy, ?Hquiet_auth, ?Hquiet_keyring.
  all: (split; [first [left; reflexivity | right; reflexivity] |]).
  all: (split; [first [discriminate | intros _; split; reflexivity] |]).
  all: intros Hnf Hset Hcred.
  all: try no_fault Hnf.
  all: try congruence.
  all: try (destruct Hcred; congruence).
  all: destruct (Hquiet_live Hnf ltac:(eexists; reflexivity)) as [Hr Hd];
    split; [exact Hr|]; split; [reflexivity|];
    cbn [existsb is_McurlDo orb]; exact Hd.
Qed.

Lemma do_curl_direct_witness :
  let w := world0 [("DIRECT", 0); ("a", 1)] [] [] "linux" None in
  let out := do_curl ext0 (initial_State ext0) w get_request handler0 in
  fst out = inr tt /\ existsb is_SetProxy (trace ext0 (snd out)) = false.
Proof.
  intros w out.
  destruct (do_curl_direct ext0 (initial_State ext0) w get_request handler0
              ("DIRECT", 0) [("a", 1)] "example.com:443" "/" eq_refl eq_refl)
    as (evs & Ht & Hp & _ & _ & _ & Hlive).
  change (trace ext0 (snd out) = evs) in Ht. rewrite Ht.
  split; [exact (proj1 (Hlive (fun _ _ => eq_refl))) | exact Hp].
Defined.

Lemma do_curl_credentials_witness :
  let st := with_username ext0 "u" (initial_State ext0) in
  let w := world0 [("a", 1); ("DIRECT", 0)] [] [] "linux" (Some "secret") in
  let out := do_curl ext0 st w get_request handler0 in
  auth_calls (trace ext0 (snd out)) = [("u", Some "secret", auth ext0 st)].
Proof.
  intros st w out.
  destruct (do_curl_credentials ext0 st w get_request handler0 "a" 1
              [("DIRECT", 0)] "example.com:443" "/" eq_refl eq_refl)
    as (evs & Ht & _ & _ & Hlive).
  change (trace ext0 (snd out) = evs) in Ht. rewrite Ht.
  exact (proj1 (proj2 (Hlive (fun _ _ => eq_refl) eq_refl (or_introl eq_refl)))).
Defined.

(** The flag [close_connection] after [do_curl] has returned. *)
Lemma do_curl_close_run (ext : Externals) (st : State ext) (w : World ext)
    (req : Request) (h : Handler ext) :
  let out := do_curl ext st w req h in
  fst out = inr tt ->
  exists evs,
    trace ext (snd out) = (trace ext h ++ evs)%list
    /\ close_connection ext (snd out) = close_connection ext h || closes evs.
Proof.
  intros out. subst out.
  focus_on (do_curl ext st w req h).
  destruct h as [c ps cc t].
  unfold do_curl, get_destination, configure_proxy.
  destruct c; run_handler idtac.
  all: first [ reach_perform_request; cbn [fst snd trace close_connection] | unfocus ].
  all: intros Hret; try discriminate Hret.
  all: flat_trace; (eexists; split; [reflexivity|]).
  all: rewrite ?closes_cons; cbn [is_error_reply is_splice orb].
  all: rewrite ?orb_true_r; try reflexivity.
  all: apply Hquiet_close, Hret.
Qed.

(** X15: When [do_curl] returns, the connection is marked close if an error
    response was sent ([send_error]: 401, 501 or the error of the driver)
    or a tunnel was spliced; otherwise the flag is left as the request
    set it, so a keep-alive connection stays open. *)
Theorem do_curl_close_connection (ext : Externals) (st : State ext) (w : World ext)
    (req : Request) (h : Handler ext) :
  let out := do_curl ext st w req h in
  fst out = inr tt ->
  exists evs,
    trace ext (snd out) = (trace ext h ++ evs)%list
    /\ (closes evs = true -> close_connection ext (snd out) = true)
    /\ (closes evs = false -> close_connection ext (snd out) = close_connection ext h).
Proof.
  intros out Hret.
  destruct (do_curl_close_run ext st w req h Hret) as (evs & Ht & Hc).
  exists evs. split; [exact Ht|]. fold out in Hc. rewrite Hc.
  split; intros ->; [apply orb_true_r | apply orb_false_r].
Qed.

Lemma do_curl_close_connection_witness :
  let w := world0 [("a", 1)] [] [] "win32" None in
  let out := do_curl ext0 (initial_State ext0) w get_request handler0 in
  close_connection ext0 (snd out) = false.
Proof.
  intros w out.
  destruct (do_curl_close_connection ext0 (initial_State ext0) w get_request handler0 eq_refl)
    as (evs & Ht & _ & Hkeep).
  change (trace ext0 (snd out) = evs) in Ht.
  apply Hkeep. rewrite <- Ht. vm_compute. reflexivity.
Defined.

(** X16: [handle] after a request that [do_curl] has answered: when the
    request asked to close the connection, or an error response was sent
    or a tunnel spliced, no further request is read from the connection;
    otherwise the next request is handled on it. *)
Theorem handle_keep_alive (ext : Externals) (st : State ext) (w : World ext)
    (req : Request) (close : bool) (rest : list (Request * bool))
    (h h1 : Handler ext) (evs : list (event ext)) :
  str_in (command req) proxy_methods = true ->
  do_curl ext st w req (with_close_connection ext close h) = (inr tt, h1) ->
  trace ext h1 = (trace ext h ++ evs)%list ->
  fault ext w (trace ext h1) WfileFlush = None ->
  let h2 := with_trace ext (trace ext h1 ++ [WfileFlush]) h1 in
  handle ext st w ((req, close) :: rest) h =
  if close || closes evs then (inr tt, h2) else handle ext st w rest h2.
Proof.
  intros Hsup Hdo Ht Hflush h2.
  assert (Hc : close_connection ext h1 = close || closes evs).
  { pose proof (do_curl_close_run ext st w req (with_close_connection ext close h)) as H.
    rewrite Hdo in H. destruct (H eq_refl) as (evs' & Ht' & Hc').
    simpl in Ht', Hc'. rewrite Ht in Ht'. apply app_inv_head in Ht'. subst evs'.
    exact Hc'. }
  cbn [handle]. unfold bind at 1. unfold modify at 1. cbv beta iota.
  unfold bind at 1.
  unfold handle_one_request at 1, base_handle_one_request. cbv zeta.
  rewrite (proxy_methods_defined _ Hsup). cbn [negb].
  rewrite try_except_bind, Hdo, try_except_call, Hflush.
  unfold bind, gets, ret. cbn [close_connection with_trace]. rewrite Hc.
  destruct (close || closes evs); reflexivity.
Qed.

Lemma handle_keep_alive_witness :
  let w := world0 [("a", 1)] [] [] "win32" None in
  let h1 := snd (do_curl ext0 (initial_State ext0) w get_request handler0) in
  fst (handle ext0 (initial_State ext0) w [(get_request, false); (connect_request, false)]
         handler0)
  = fst (handle ext0 (initial_State ext0) w [(connect_request, false)]
           (with_trace ext0 (trace ext0 h1 ++ [WfileFlush]) h1)).
Proof.
  intros w h1.
  rewrite (handle_keep_alive ext0 (initial_State ext0) w get_request false
             [(connect_request, false)] handler0 h1 (trace ext0 h1)
             eq_refl (run_result _ _ eq_refl) eq_refl eq_refl).
  replace (closes (trace ext0 h1)) with false by (vm_compute; reflexivity).
  reflexivity.
Defined.

(** X17: What [handle_one_request] does with an exception of [do_curl]. A
    timeout is caught by the clause of the standard library: it is
    logged, the connection is marked close, the easy handle is kept and
    not stopped. Any other socket error reaches the clause of [Proxy]: the
    connection is marked close, the easy handle, if there is one, is
    stopped and dropped, and the error is logged. Every other exception
    leaves [handle_one_request]. *)
Theorem handle_one_request_exception (ext : Externals) (st : State ext) (w : World ext)
    (req : Request) (h h1 : Handler ext) (e : exn) :
  str_in (command req) proxy_methods = true ->
  do_curl ext st w req h = (inl e, h1) ->
  handle_one_request ext st w req h =
  match e with
  | TimeoutError msg =>
      (inr tt, mkHandler ext (curl ext h1) (proxy_servers ext h1) true
                 (trace ext h1 ++ [Dprint ("Request timed out: " ++ msg)]))
  | OSError msg | ConnectionError msg =>
      match curl ext h1 with
      | Some c =>
          match fault ext w (trace ext h1) McurlStop with
          | None =>
              (inr tt, mkHandler ext None (proxy_servers ext h1) true
                         (trace ext h1 ++
                          [McurlStop; Dprint (easyhash ext w ++ ": Socket error: " ++ msg)]))
          | Some x =>
              (inl x, mkHandler ext (Some c) (proxy_servers ext h1) true
                        (trace ext h1 ++ [McurlStop]))
          end
      | None =>
          (inr tt, mkHandler ext None (proxy_servers ext h1) true
                     (trace ext h1 ++ [Dprint ("Socket error: " ++ msg)]))
      end
  | _ => (inl e, h1)
  end.
Proof.
  intros Hsup Hdo.
  unfold handle_one_request, base_handle_one_request. cbv zeta.
  rewrite (proxy_methods_defined _ Hsup). cbn [negb].
  rewrite try_except_bind, Hdo.
  destruct h1 as [c ps cc t].
  unfold try_except, raise, on_timeout, on_socket_error.
  destruct e; try reflexivity;
    destruct c; hsimp; rewrite <- ?app_assoc; try reflexivity;
    destruct (fault ext w t McurlStop); hsimp; rewrite <- ?app_assoc; reflexivity.
Qed.

(** A world in which the driver raises a socket error. *)
Definition world_reset : World ext0 :=
  {| platform := "linux";
     PX_PASSWORD := None;
     keyring_get_password := fun _ _ => None;
     easyhash := "easy1";
     DIRECT := ("DIRECT", 0);
     find_proxy_for_url := fun _ => ([("DIRECT", 0)], "example.com:80", "/");
     str_servers := fun l => PyStr.join ", " (map fst l);
     noproxy_hosts := [];
     set_proxy := fun _ _ _ => true;
     mcurl_do := fun _ => true;
     resp := fun _ => 503;
     errstr := fun _ => "Connection refused";
     version_string := "BaseHTTP/0.6 Python/3.11";
     fault := fun _ e => match e with
                         | McurlDo => Some (OSError "Connection reset by peer")
                         | _ => None
                         end |}.

Lemma handle_one_request_exception_witness :
  let out := handle_one_request ext0 (initial_State ext0) world_reset get_request handler0 in
  fst out = inr tt /\ curl ext0 (snd out) = None /\ close_connection ext0 (snd out) = true.
Proof.
  intros out.
  pose proof (handle_one_request_exception ext0 (initial_State ext0) world_reset get_request
                handler0 _ (OSError "Connection reset by peer") eq_refl
                (run_result _ _ eq_refl)) as H.
  fold out in H. rewrite H. repeat split; vm_compute; reflexivity.
Defined.

(** X18: A request whose method [Proxy] has no [do_] method for (there is
    one for GET, HEAD, POST, PUT, DELETE, PATCH and CONNECT, and the name
    [curl] finds [do_curl] itself) is answered 501 without [do_curl]: the
    reply, which quotes the method as [repr] writes it, is the first call,
    and only log lines and [mcurl.stop] can follow it, so no easy handle
    is created or reset, no proxy is looked up, the driver is not invoked
    and the reply is not flushed; the connection is marked close. When
    the reply is sent without an exception nothing follows it at all. *)
Theorem handle_one_request_unsupported (ext : Externals) (st : State ext) (w : World ext)
    (req : Request) (h : Handler ext) :
  str_in ("do_" ++ command req) do_methods = false ->
  let out := handle_one_request ext st w req h in
  let message := "Unsupported method (" ++ PyStr.repr (command req) ++ ")" in
  exists evs,
    trace ext (snd out) = (trace ext h ++ SendError 501 message :: evs)%list
    /\ close_connection ext (snd out) = true
    /\ forallb is_cleanup evs = true
    /\ (fault ext w (trace ext h) (SendError 501 message) = None ->
        fst out = inr tt /\ evs = [] /\ curl ext (snd out) = curl ext h).
Proof.
  intros Hsup out message.
  set (h1 := with_trace ext (trace ext h ++ [SendError 501 message])
               (with_close_connection ext true h)).
  assert (Hout : out =
            match fault ext w (trace ext h) (SendError 501 message) with
            | Some x =>
                try_except (try_except (raise x) (on_timeout ext)) (on_socket_error ext w) h1
            | None => (inr tt, h1)
            end).
  { subst out h1. unfold handle_one_request, base_handle_one_request. cbv zeta.
    rewrite Hsup. cbn [negb]. fold message.
    unfold send_error, bind, modify, try_except, call, raise.
    cbn [trace with_close_connection].
    destruct (fault ext w (trace ext h) (SendError 501 message)); reflexivity. }
  clearbody out. subst out.
  destruct (fault ext w (trace ext h) (SendError 501 message)) as [x|] eqn:Hf1.
  - destruct (handlers_quiet ext w x h1) as (evs & Ht & Hq & Hc).
    exists evs. split.
    { rewrite Ht. subst h1. cbn [trace with_trace with_close_connection].
      rewrite <- app_assoc. reflexivity. }
    split; [apply Hc; reflexivity|]. split; [exact Hq|].
    intros Hnf. discriminate Hnf.
  - exists []. subst h1.
    cbn [fst snd trace curl close_connection with_trace with_close_connection].
    repeat split; reflexivity.
Qed.

Lemma handle_one_request_unsupported_witness :
  let w := world0 [("a", 1)] [] [] "linux" None in
  let req := {| path := "*"; command := "OPTIONS"; request_version := "HTTP/1.1" |} in
  let out := handle_one_request ext0 (initial_State ext0) w req handler0 in
  fst out = inr tt /\ close_connection ext0 (snd out) = true
  /\ trace ext0 (snd out) = [SendError 501 "Unsupported method ('OPTIONS')"].
Proof.
  intros w req out.
  destruct (handle_one_request_unsupported ext0 (initial_State ext0) w req handler0 eq_refl)
    as (evs & Ht & Hc & _ & Hlive).
  destruct (Hlive eq_refl) as (Hr & -> & _).
  split; [exact Hr|]. split; [exact Hc | exact Ht].
Defined.

(** ** The listen addresses *)

(** X19: [State.listen] after [parse_config]: either gateway or hostonly mode
    has replaced it by the single entry [""] (all interfaces), or it
    holds what it held before and the interfaces of every source of the
    key [listen]: the INI file (the default [127.0.0.1] without one), the
    variable [PX_LISTEN] and the flag [--listen], and nothing else. A
    source of higher precedence adds its interfaces to those of the lower
    ones, it does not replace them. *)
Theorem parse_config_listen_accumulates (ext : Externals) (argv : list string)
    (environ : list (string * string)) (ini : Config) (s s' : State ext) :
  parse_config ext argv environ ini s = (inr tt, s') ->
  let file := interfaces (match lookup2 ini "proxy" "listen" with
                          | Some v => PyStr.strip v
                          | None => "127.0.0.1"
                          end) in
  let named_by (d : Dict.t) (x : string) :=
    exists v, Dict.get "listen" d = Some v /\ In x (interfaces v) in
  listen ext s' = [""]
  \/ forall x,
       In x (listen ext s') <->
       In x (listen ext s) \/ In x file
       \/ named_by (parse_env environ) x
       \/ named_by (parse_cli (argv_after_debug argv)) x.
Proof.
  intros H file named_by.
  apply parse_config_inr in H
    as (s0 & s1 & s2 & out & w & t & mc & Hrun0 & Hinit & Hprop & ->).
  destruct (parse_config_debug_run ext argv s) as (s0' & Hrun & _ & Hl0 & _).
  rewrite Hrun in Hrun0. injection Hrun0 as ->.
  change (listen ext (tail_state ext _ out w t mc s2)) with (listen ext s2).
  pose proof (parse_config_init_listen_upper ext _ _ _ _ _
                (NoDup_keys_parse_env environ)
                (NoDup_keys_parse_cli (argv_after_debug argv)) Hinit) as Hupper.
  apply parse_config_init_listen in Hinit
    as (Hgrow & Hfile & Henv & Hcli);
    [|apply NoDup_keys_parse_env | apply NoDup_keys_parse_cli].
  destruct (parse_config_propagate_listen ext _ _ Hprop) as [Hall | Hsame];
    [left; exact Hall | right].
  rewrite Hsame, <- Hl0. intros x. split; [apply Hupper|].
  intros [Hx | [Hx | [(v & Hv & Hx) | (v & Hv & Hx)]]].
  - apply Hgrow, Hx.
  - apply Hfile, Hx.
  - apply (Henv v Hv), Hx.
  - apply (Hcli v Hv), Hx.
Qed.

Lemma parse_config_listen_accumulates_witness :
  let r := parse_config ext0 ["px"; "--listen=10.0.0.1"] [] ∅ (initial_State ext0) in
  In "127.0.0.1" (listen ext0 (snd r)) /\ In "10.0.0.1" (listen ext0 (snd r)).
Proof.
  intros r.
  assert (Hr : r = (inr tt, snd r)) by (apply run_result; vm_compute; reflexivity).
  destruct (parse_config_listen_accumulates ext0 ["px"; "--listen=10.0.0.1"] [] ∅
              (initial_State ext0) (snd r) Hr) as [Hall | Hiff].
  - vm_compute in Hall. discriminate Hall.
  - split; apply Hiff.
    + right. left. vm_compute. left. reflexivity.
    + right. right. right. exists "10.0.0.1".
      split; [vm_compute; reflexivity | vm_compute; left; reflexivity].
Defined.

(** X22: With an INI file whose option [listen] names no interface (it is
    empty or holds only commas and blanks), no interface from the
    environment or the command line, and neither gateway nor hostonly
    mode, [parse_config] returns with [State.listen] empty: there is
    nothing for [run_pool] to serve on. *)
Theorem parse_config_no_listen (ext : Externals) (argv : list string)
    (environ : list (string * string)) (ini : Config) (s s' : State ext) (v : string) :
  parse_config ext argv environ ini s = (inr tt, s') ->
  listen ext s = [] ->
  lookup2 ini "proxy" "listen" = Some v ->
  interfaces (PyStr.strip v) = [] ->
  (forall e, Dict.get "listen" (parse_env environ) = Some e -> interfaces e = []) ->
  (forall f, Dict.get "listen" (parse_cli (argv_after_debug argv)) = Some f ->
             interfaces f = []) ->
  listen ext s' <> [""] ->
  listen ext s' = [].
Proof.
  intros H Hs Hv Hfile Henv Hcli Hmode.
  assert (Hiff : forall x, In x (listen ext s') -> False).
  { apply parse_config_inr in H
      as (s0 & s1 & s2 & out & w & t & mc & Hrun0 & Hinit & Hprop & ->).
    destruct (parse_config_debug_run ext argv s) as (s0' & Hrun & _ & Hl0 & _).
    rewrite Hrun in Hrun0. injection Hrun0 as ->.
    change (listen ext (tail_state ext _ out w t mc s2)) with (listen ext s2) in *.
    pose proof (parse_config_init_listen_upper ext _ _ _ _ _
                  (NoDup_keys_parse_env environ)
                  (NoDup_keys_parse_cli (argv_after_debug argv)) Hinit) as Hupper.
    destruct (parse_config_propagate_listen ext _ _ Hprop) as [Hall | Hsame];
      [contradiction|].
    rewrite Hsame. intros x Hx.
    destruct (Hupper x Hx) as [Hx0 | [Hx0 | [(e & He & Hx0) | (f & Hf & Hx0)]]].
    - rewrite Hl0, Hs in Hx0. exact Hx0.
    - rewrite Hv, Hfile in Hx0. exact Hx0.
    - rewrite (Henv e He) in Hx0. exact Hx0.
    - rewrite (Hcli f Hf) in Hx0. exact Hx0. }
  destruct (listen ext s') as [|x l]; [reflexivity|].
  exfalso. apply (Hiff x). left. reflexivity.
Qed.

Lemma parse_config_no_listen_witness :
  let ini : Config := {[ "proxy" := {[ "listen" := " , " ]} ]} in
  let r := parse_config ext0 ["px"] [] ini (initial_State ext0) in
  fst r = inr tt /\ listen ext0 (snd r) = [].
Proof.
  intros ini r.
  assert (Hr : r = (inr tt, snd r)) by (apply run_result; vm_compute; reflexivity).
  split; [rewrite Hr; reflexivity|].
  apply (parse_config_no_listen ext0 ["px"] [] ini (initial_State ext0) (snd r) " , " Hr).
  - reflexivity.
  - vm_compute. reflexivity.
  - vm_compute. reflexivity.
  - intros e He. vm_compute in He. discriminate He.
  - intros f Hf. vm_compute in Hf. discriminate Hf.
  - intros Hl. vm_compute in Hl. discriminate Hl.
Defined.

(** ** The attributes of [State] follow the configuration *)

(** After a call of [cfg_init] on a string key of the section [proxy],
    the option holds the value handed to the callback. *)
Lemma cfg_init_str_run (ext : Externals) (name val : string) (ov : bool) (s : State ext) :
  has_sections (config ext s) ->
  key_kind name = Some ("proxy", KStr) ->
  exists out v,
    cfg_init ext name val ov s =
    apply_proc ext (callbacks ext name) (PStr v)
      (with_config ext (cfg_store ext name val ov (config ext s)) (with_stdout ext out s))
    /\ lookup2 (cfg_store ext name val ov (config ext s)) "proxy" name = Some v.
Proof.
  intros Hs Hk. destruct (cfg_init_run ext name val ov s _ _ Hs Hk) as (out & E).
  exists out, (value_for "proxy" name val ov (config ext s)). split; [exact E|].
  exact (lookup2_cfg_store_eq ext _ _ _ _ _ _ Hs Hk).
Qed.

Ltac mirror_establish :=
  let Hs := fresh "Hs" in
  let H := fresh "H" in
  let E := fresh "E" in
  let Hl := fresh "Hl" in
  let out := fresh "out" in
  let v := fresh "v" in
  intros ? ? ? ? Hs H;
  match type of H with
  | cfg_init ?e ?n ?val ?ov ?s0 = _ =>
      destruct (cfg_init_str_run e n val ov s0 Hs eq_refl) as (out & v & E & Hl)
  end;
  rewrite E in H; clear E.

Ltac mirror_preserve :=
  let name := fresh "name" in
  let Hne := fresh "Hne" in
  let Hs := fresh "Hs" in
  let Hi := fresh "Hi" in
  let H := fresh "H" in
  let Hc := fresh "Hc" in
  let F := fresh "F" in
  intros name ? ? ? ? Hne Hs Hi H;
  destruct (cfg_init_frame _ _ _ _ _ _ Hs H) as (Hc & ? & F);
  rewrite Hc, (lookup2_cfg_store_ne _ name) by exact Hne.

(** X20: When [parse_config] returns, the attributes [State.noproxy],
    [State.useragent] and [State.username] are the values of the options
    [noproxy], [useragent] and [username] of the final configuration, and
    [State.auth] is the value of the option [auth], with [ANY] in place of
    an empty value, and is a scheme [mcurl.getauth] knows. *)
Theorem parse_config_state_mirrors (ext : Externals) (argv : list string)
    (environ : list (string * string)) (ini : Config) (s s' : State ext) :
  parse_config ext argv environ ini s = (inr tt, s') ->
  lookup2 (config ext s') "proxy" "noproxy" = Some (noproxy ext s')
  /\ lookup2 (config ext s') "proxy" "useragent" = Some (useragent ext s')
  /\ lookup2 (config ext s') "proxy" "username" = Some (username ext s')
  /\ (exists v, lookup2 (config ext s') "proxy" "auth" = Some v
                /\ auth ext s' = (if (String.length v =? 0)%nat then "ANY" else v)
                /\ getauth_ok ext (auth ext s') = true).
Proof.
  intros H. repeat split.
  - revert H.
    apply (parse_config_inv ext "noproxy"
             (fun s => lookup2 (config ext s) "proxy" "noproxy" = Some (noproxy ext s))).
    + mirror_establish. inversion H. exact Hl.
    + mirror_preserve. rewrite (frame_noproxy _ _ _ _ F Hne). exact Hi.
    + vm_compute. tauto.
    + intros s1 s2 Hc Hn _ _ _ _. rewrite (Hc "proxy" "noproxy"), Hn by discriminate. auto.
    + discriminate.
  - revert H.
    apply (parse_config_inv ext "useragent"
             (fun s => lookup2 (config ext s) "proxy" "useragent" = Some (useragent ext s))).
    + mirror_establish. inversion H. exact Hl.
    + mirror_preserve. rewrite (frame_useragent _ _ _ _ F Hne). exact Hi.
    + vm_compute. tauto.
    + intros s1 s2 Hc _ Hn _ _ _. rewrite (Hc "proxy" "useragent"), Hn by discriminate. auto.
    + discriminate.
  - revert H.
    apply (parse_config_inv ext "username"
             (fun s => lookup2 (config ext s) "proxy" "username" = Some (username ext s))).
    + mirror_establish. inversion H. exact Hl.
    + mirror_preserve. rewrite (frame_username _ _ _ _ F Hne). exact Hi.
    + vm_compute. tauto.
    + intros s1 s2 Hc _ _ Hn _ _. rewrite (Hc "proxy" "username"), Hn by discriminate. auto.
    + discriminate.
  - revert H.
    apply (parse_config_inv ext "auth"
             (fun s => exists v, lookup2 (config ext s) "proxy" "auth" = Some v
                /\ auth ext s = (if (String.length v =? 0)%nat then "ANY" else v)
                /\ getauth_ok ext (auth ext s) = true)).
    + mirror_establish. exists v. revert H.
      change (callbacks ext "auth") with (Some (set_auth ext)).
      unfold apply_proc, set_auth, modify, raise. cbn [py_str].
      destruct (getauth_ok ext _) eqn:Hg; intros [= <-]. auto.
    + mirror_preserve. rewrite (frame_auth _ _ _ _ F Hne). exact Hi.
    + vm_compute. tauto.
    + intros s1 s2 Hc _ _ _ Hn _. rewrite (Hc "proxy" "auth"), Hn by discriminate. auto.
    + discriminate.
Qed.

Lemma parse_config_state_mirrors_witness :
  let r := parse_config ext0 ["px"; "--username=corp\\me"] [("PX_NOPROXY", "10.*.*.*")] ∅
             (initial_State ext0) in
  lookup2 (config ext0 (snd r)) "proxy" "username" = Some (username ext0 (snd r)).
Proof.
  intros r.
  assert (Hr : r = (inr tt, snd r)) by (apply run_result; vm_compute; reflexivity).
  exact (proj1 (proj2 (proj2 (parse_config_state_mirrors ext0 _ _ _ _ _ Hr)))).
Defined.

(** X21: When [parse_config] returns with a PAC location configured (the final
    option [pac] is not empty), [State.pac] is that location if it starts
    with [http], and otherwise a path that exists. *)
Theorem parse_config_pac_valid (ext : Externals) (argv : list string)
    (environ : list (string * string)) (ini : Config) (s s' : State ext) (v : string) :
  parse_config ext argv environ ini s = (inr tt, s') ->
  lookup2 (config ext s') "proxy" "pac" = Some v ->
  v <> "" ->
  (PyStr.startswith "http" v = true /\ pac ext s' = v)
  \/ (PyStr.startswith "http" v = false /\ path_exists ext (pac ext s') = true).
Proof.
  intros H. revert v. revert H.
  apply (parse_config_inv ext "pac"
           (fun s => forall v, lookup2 (config ext s) "proxy" "pac" = Some v -> v <> "" ->
              (PyStr.startswith "http" v = true /\ pac ext s = v)
              \/ (PyStr.startswith "http" v = false /\ path_exists ext (pac ext s) = true))).
  - mirror_establish. intros v' Hv' Hne. revert H.
    change (callbacks ext "pac") with (Some (set_pac ext)).
    unfold apply_proc, set_pac, sys_exit, pprint, bind, modify, ret, raise. cbn [py_str].
    assert (Hv2 : forall s2, config ext s2 = cfg_store ext "pac" val ov (config ext s0) ->
                   lookup2 (config ext s2) "proxy" "pac" = Some v' -> v' = v).
    { intros s2 E2 L2. rewrite E2, Hl in L2. congruence. }
    destruct (String.eqb_spec v "") as [->|Hv].
    { intros [= <-]. apply Hv2 in Hv'; [congruence | reflexivity]. }
    destruct (PyStr.startswith "http" v) eqn:Hh.
    { intros [= <-]. apply Hv2 in Hv'; [|reflexivity]. subst v'.
      left. split; [exact Hh | reflexivity]. }
    destruct (PyStr.startswith "file" v).
    + destruct (file_url_to_local_path ext v) as [p|]; [|discriminate].
      destruct (path_exists ext p) eqn:Hp; [|discriminate].
      intros [= <-]. apply Hv2 in Hv'; [|reflexivity]. subst v'.
      right. split; [exact Hh | exact Hp].
    + destruct (path_exists ext _) eqn:Hp; [|discriminate].
      intros [= <-]. apply Hv2 in Hv'; [|reflexivity]. subst v'.
      right. split; [exact Hh | exact Hp].
  - mirror_preserve. rewrite (frame_pac _ _ _ _ F Hne). exact Hi.
  - vm_compute. tauto.
  - intros s1 s2 Hc _ _ _ _ Hp. rewrite (Hc "proxy" "pac"), Hp by discriminate. auto.
  - discriminate.
Qed.

Lemma parse_config_pac_valid_witness :
  let r := parse_config ext0 ["px"; "--pac=http://wpad/proxy.pac"] [] ∅ (initial_State ext0) in
  pac ext0 (snd r) = "http://wpad/proxy.pac".
Proof.
  intros r.
  assert (Hr : r = (inr tt, snd r)) by (apply run_result; vm_compute; reflexivity).
  assert (Hl : lookup2 (config ext0 (snd r)) "proxy" "pac" = Some "http://wpad/proxy.pac")
    by (vm_compute; reflexivity).
  destruct (parse_config_pac_valid ext0 _ _ _ _ _ _ Hr Hl ltac:(discriminate))
    as [[_ Hp] | [Hh _]]; [exact Hp | vm_compute in Hh; discriminate Hh].
Defined.

(** ** Servers and worker processes *)


(** A process with one listen address and the default port, threads and
    workers. *)
Definition pool_proc (listens : list string) : Pool.Proc ext0 :=
  Pool.mkProc ext0
    (with_listen ext0 listens
       (with_config ext0
          {[ "proxy" := {[ "port" := "3128" ]};
             "settings" := {[ "threads" := "32"; "workers" := "3" ]} ]}
          (initial_State ext0)))
    [].

Definition linux_host (busy : list string) : Pool.Host :=
  {| Pool.sys_platform := "linux";
     Pool.has_fromshare := false;
     Pool.bind_error := fun a =>
       if str_in (fst a) busy then Some "Address already in use" else None |}.




(** X25: With no listen address at all ([State.listen] is empty) [run_pool]
    raises [IndexError] in [start_httpds], after it has started the worker
    processes. *)
Theorem run_pool_no_listen (ext : Externals) (host : Pool.Host) (p : Pool.Proc ext)
    (port workers : Z) :
  let n := if Pool.multiprocess host then Z.to_nat (workers - 1) else 0%nat in
  listen ext (Pool.state ext p) = [] ->
  config_getint ext "proxy" "port" (Pool.state ext p) = (inr port, Pool.state ext p) ->
  (Pool.multiprocess host = true ->
   config_getint ext "settings" "workers" (Pool.state ext p)
   = (inr workers, Pool.state ext p)) ->
  Pool.run_pool ext host p
  = (inl IndexError,
     Pool.mkProc ext (Pool.state ext p) (Pool.calls ext p ++ map Pool.ProcessStart (seq 0 n))).
Proof.
  intros n Hl Hport Hw. unfold Pool.run_pool.
  unfold bind at 1. rewrite (Pool.in_state_run ext _ _ _ Hport).
  unfold bind at 1, gets at 1. unfold bind at 1. rewrite Hl.
  cbn [Pool.bind_all ret map]. unfold bind at 1.
  fold (Pool.multiprocess host). subst n.
  assert (Hsp : forall first k, Pool.spawns [] first k = map Pool.ProcessStart (seq first k)).
  { intros first k. revert first. induction k as [|k IH]; intros first; [reflexivity|].
    rewrite Pool.spawns_S. cbn [map app seq]. rewrite IH. reflexivity. }
  destruct (Pool.multiprocess host) eqn:Hm.
  - unfold bind at 1. rewrite (Pool.in_state_run ext _ _ _ (Hw eq_refl)).
    rewrite Pool.start_children_run, Hsp.
    unfold Pool.start_httpds, bind, raise. cbn [removelast last for_each ret].
    reflexivity.
  - unfold ret at 1. unfold Pool.start_httpds, bind, raise.
    cbn [removelast last for_each ret seq map]. rewrite app_nil_r.
    destruct p; reflexivity.
Qed.

Lemma run_pool_no_listen_witness :
  fst (Pool.run_pool ext0 (linux_host []) (pool_proc [])) = inl IndexError.
Proof.
  rewrite (run_pool_no_listen ext0 (linux_host []) (pool_proc []) 3128 3 eq_refl).
  - reflexivity.
  - apply (config_getint_run ext0 _ _ _ "3128"); vm_compute; reflexivity.
  - intros _. apply (config_getint_run ext0 _ _ _ "3"); vm_compute; reflexivity.
Defined.



(** ** File locations *)

(** X27: Every path [file_url_to_local_path] returns has a drive: it is at
    least three characters long, its second character is a colon, and it
    is the path of the URL behind the network location of the URL (when
    that is a drive), behind [C:], or as it is. The function returns
    nothing exactly when the path of the URL neither starts with a single
    slash nor carries a drive. *)
Theorem file_url_to_local_path_drive (netloc path : string) :
  match FileUrl.file_url_to_local_path netloc path with
  | Some local =>
      (3 <= String.length local)%nat
      /\ char_is 1 ":" local = true
      /\ (local = (netloc ++ path)%string \/ local = ("C:" ++ path)%string \/ local = path)
  | None =>
      (PyStr.startswith "/" path = false \/ PyStr.startswith "//" path = true)
      /\ ((String.length path <= 2)%nat \/ char_is 1 ":" path = false)
  end
  /\ ((PyStr.startswith "/" path = false \/ PyStr.startswith "//" path = true)
      /\ ((String.length path <= 2)%nat \/ char_is 1 ":" path = false) <->
      FileUrl.file_url_to_local_path netloc path = None).
Proof.
  unfold FileUrl.file_url_to_local_path.
  destruct (PyStr.startswith "/" path) eqn:H1; cbn [andb].
  - destruct (PyStr.startswith "//" path) eqn:H2; cbn [negb andb].
    + destruct (Nat.ltb_spec 2 (String.length path)) as [Hlen|Hlen]; cbn [andb].
      * destruct (char_is 1 ":" path) eqn:Hc.
        -- split; [split; [lia|]; split; [exact Hc|]; auto|].
           split; [|discriminate]. intros [_ [Hl|Hl]]; [lia | discriminate Hl].
        -- split; [split; [right; reflexivity | right; reflexivity]|].
           split; [reflexivity|]. intros _. split; [right; reflexivity | right; reflexivity].
      * split; [split; [right; reflexivity | left; lia]|].
        split; [reflexivity|]. intros _. split; [right; reflexivity | left; lia].
    + assert (Hp : (1 <= String.length path)%nat).
      { destruct path; [discriminate H1 | simpl; lia]. }
      assert (Hno : forall r : string,
                 (true = false \/ false = true)
                 /\ ((String.length path <= 2)%nat \/ char_is 1 ":" path = false) <->
                 Some r = None).
      { intros r. split; [|discriminate]. intros [[Hf|Hf] _]; discriminate Hf. }
      destruct (Nat.eqb_spec (String.length netloc) 2) as [Hn|Hn]; cbn [andb].
      * destruct (char_is 1 ":" netloc) eqn:Hc.
        -- split; [|apply Hno]. split; [rewrite length_append; lia|]. split; [|auto].
           destruct netloc as [|a [|b [|c n']]]; try discriminate Hn. exact Hc.
        -- split; [|apply Hno].
           split; [rewrite length_append; simpl; lia|]. split; [reflexivity|]. auto.
      * split; [|apply Hno].
        split; [rewrite length_append; simpl; lia|]. split; [reflexivity|]. auto.
  - destruct (Nat.ltb_spec 2 (String.length path)) as [Hlen|Hlen]; cbn [andb].
    + destruct (char_is 1 ":" path) eqn:Hc.
      * split; [split; [lia|]; split; [exact Hc|]; auto|].
        split; [|discriminate]. intros [_ [Hl|Hl]]; [lia | discriminate Hl].
      * split; [split; [left; reflexivity | right; reflexivity]|].
        split; [reflexivity|]. intros _. split; [left; reflexivity | right; reflexivity].
    + split; [split; [left; reflexivity | left; lia]|].
      split; [reflexivity|]. intros _. split; [left; reflexivity | left; lia].
Qed.

(** X28: [get_logfile] gives a file or the standard output exactly for the
    locations 1 to 4, the locations [set_debug] accepts. *)
Theorem get_logfile_locations (ext : Externals) (env : Log.Env) (location : Z) :
  match Log.get_logfile env location with Some _ => true | None => false end
  = has_logfile ext (PInt location).
Proof.
  unfold Log.get_logfile, has_logfile, LOG_SCRIPTDIR, LOG_CWD, LOG_UNIQLOG, LOG_STDOUT.
  repeat match goal with
         | |- context [Z.eqb ?a ?b] => destruct (Z.eqb_spec a b)
         end;
    destruct (Z.leb_spec 1 location), (Z.leb_spec location 4); try reflexivity; lia.
Qed.

(** X29: The unique log file ([--uniqlog], location 3) is named after the
    first argument [--port=...] of the command line, whatever follows it
    (the configuration takes the last one), after the process, or [quit]
    under [--quit], and after the time. *)
Theorem get_logfile_uniqlog (env : Log.Env) (pre post : list string) (port : string) :
  Log.argv env = (pre ++ ("--port=" ++ port)%string :: post)%list ->
  Forall (fun arg => PyStr.startswith "--port=" arg = false) pre ->
  let name := if str_in "--quit" (Log.argv env) then "quit" else Log.process_name env in
  Log.get_logfile env LOG_UNIQLOG
  = Some (Log.File (Log.path_join env (Log.cwd env)
                      ("debug-" ++ ((port ++ "-" ++ name) ++ "-" ++ Log.now env) ++ ".log"))).
Proof.
  intros Hargv Hpre name.
  unfold Log.get_logfile. cbn [Z.eqb LOG_UNIQLOG LOG_SCRIPTDIR LOG_CWD Pos.eqb].
  fold name. rewrite Hargv.
  assert (Hfind : find (PyStr.startswith "--port=")
                    (pre ++ ("--port=" ++ port)%string :: post)
                  = Some ("--port=" ++ port)%string).
  { clear Hargv. induction Hpre as [|a pre Ha _ IH]; simpl.
    - rewrite startswith_append. reflexivity.
    - rewrite Ha. exact IH. }
  rewrite Hfind. reflexivity.
Qed.

Lemma get_logfile_uniqlog_witness :
  let env := {| Log.process_name := "MainProcess";
                Log.argv := ["px"; "--uniqlog"; "--port=3129"; "--port=3130"];
                Log.cwd := "/tmp"; Log.script_dir := "/opt/px"; Log.now := "1700000000.5";
                Log.path_join := fun a b => (a ++ "/" ++ b)%string |} in
  Log.get_logfile env LOG_UNIQLOG
  = Some (Log.File "/tmp/debug-3129-MainProcess-1700000000.5.log").
Proof.
  intros env.
  exact (get_logfile_uniqlog env ["px"; "--uniqlog"] ["--port=3130"] "3129" eq_refl
           ltac:(repeat constructor)).
Defined.
